(** * Model-loading pipeline of the STL generator: detection, repair, OFF parsing

    A shallow embedding of the decision logic of [src/app.js] (viewer) and
    [src/fixer.js] (code fixer): the textual STL repairer, the SCAD repairer,
    the compile-and-retry loop of the fixer, format sniffing, the internal OFF
    parser, geometry statistics and validation, and the repair prompt.

    JavaScript strings are sequences of UTF-16 code units; they are modelled
    as [list N].  Every regular expression of the source is written out as a
    matcher over such lists, next to the regular expression it stands for.
    External collaborators (the OpenSCAD compiler, the three.js loaders, the
    text decoder) are parameters or data of the model. *)

From Stdlib Require Import List NArith ZArith QArith Qround Qabs Qpower Bool Lia Ascii String FunInd.
Import ListNotations.

Close Scope Q_scope.
Local Open Scope N_scope.
Local Open Scope list_scope.

(** ** JavaScript strings *)

Module Js.

Definition code := N.
Definition jsstring := list code.

(** A source literal (ASCII only) as a sequence of code units. *)
Definition lit (s : string) : jsstring :=
  List.map N_of_ascii (list_ascii_of_string s).

Definition TAB : code := 9%N.
Definition LF : code := 10%N.
Definition CR : code := 13%N.
Definition SPACE : code := 32%N.
Definition COMMA : code := 44%N.
Definition NBSP : code := 160%N.
Definition BOM : code := 65279%N.

Definition in_range (lo hi c : code) : bool := (lo <=? c)%N && (c <=? hi)%N.

(** [\s] and the characters removed by [String.prototype.trim]: WhiteSpace and
    LineTerminator of ECMAScript. *)
Definition is_space (c : code) : bool :=
  in_range 9 13 c || (c =? 32)%N || (c =? 160)%N || (c =? 5760)%N
  || in_range 8192 8202 c || (c =? 8232)%N || (c =? 8233)%N
  || (c =? 8239)%N || (c =? 8287)%N || (c =? 12288)%N || (c =? 65279)%N.

(** [\w] without the [u] flag: [A-Za-z0-9_]. *)
Definition is_word (c : code) : bool :=
  in_range 65 90 c || in_range 97 122 c || in_range 48 57 c || (c =? 95)%N.

(** [[A-Za-z_]] *)
Definition is_ident_start (c : code) : bool :=
  in_range 65 90 c || in_range 97 122 c || (c =? 95)%N.

(** Line terminators: what [.] does not match and where [^] matches under
    the [m] flag. *)
Definition is_line_terminator (c : code) : bool :=
  (c =? 10)%N || (c =? 13)%N || (c =? 8232)%N || (c =? 8233)%N.

(** ASCII case folding of a pattern character.  Without the [u] flag a
    pattern letter matches exactly its two ASCII cases: canonicalisation
    refuses to map a non-ASCII code unit to an ASCII one. *)
Definition upper (c : code) : code :=
  if in_range 97 122 c then (c - 32)%N else c.

Definition lower (c : code) : code :=
  if in_range 65 90 c then (c + 32)%N else c.

Definition ci_eqb (p c : code) : bool := (upper p =? upper c)%N.

(** Match the literal [pat] at the start of [s]; the rest on success. *)
Fixpoint prefix (pat s : jsstring) : option jsstring :=
  match pat with
  | [] => Some s
  | p :: pat' =>
      match s with
      | [] => None
      | c :: s' => if (p =? c)%N then prefix pat' s' else None
      end
  end.

(** The same under the [i] flag. *)
Fixpoint prefix_ci (pat s : jsstring) : option jsstring :=
  match pat with
  | [] => Some s
  | p :: pat' =>
      match s with
      | [] => None
      | c :: s' => if ci_eqb p c then prefix_ci pat' s' else None
      end
  end.

(** [\b] right after a word character: the next character is not a word
    character, or the input ends. *)
Definition at_word_end (rest : jsstring) : bool :=
  match rest with
  | [] => true
  | c :: _ => negb (is_word c)
  end.

(** [kw\b] under the [i] flag, anchored at the start of [s] ([kw] ends in a
    word character). *)
Definition starts_with_word (kw s : jsstring) : bool :=
  match prefix_ci kw s with
  | Some rest => at_word_end rest
  | None => false
  end.

(** An unanchored test: the matcher [P] succeeds at some offset of [s]. *)
Fixpoint search (P : jsstring -> bool) (s : jsstring) : bool :=
  P s || match s with
         | [] => false
         | _ :: rest => search P rest
         end.

Fixpoint drop_space (s : jsstring) : jsstring :=
  match s with
  | [] => []
  | c :: rest => if is_space c then drop_space rest else s
  end.

(** Longest prefix of characters satisfying [p], and the rest: a greedy
    [p*] that never needs to give characters back. *)
Fixpoint span (p : code -> bool) (s : jsstring) : jsstring * jsstring :=
  match s with
  | [] => ([], [])
  | c :: rest =>
      if p c then let (a, b) := span p rest in (c :: a, b) else ([], s)
  end.

(** [String.prototype.trim] *)
Definition trim (s : jsstring) : jsstring :=
  rev (drop_space (rev (drop_space s))).

(** [s.split(sep)] for a one-character separator: never the empty list. *)
Fixpoint split_on (sep : code) (s : jsstring) : list jsstring :=
  match s with
  | [] => [[]]
  | c :: rest =>
      if (c =? sep)%N then [] :: split_on sep rest
      else match split_on sep rest with
           | l :: ls => (c :: l) :: ls
           | [] => [[c]]
           end
  end.

(** [lines.join(sep)] *)
Fixpoint join (sep : jsstring) (ls : list jsstring) : jsstring :=
  match ls with
  | [] => []
  | [l] => l
  | l :: rest => l ++ sep ++ join sep rest
  end.

(** [s.replace(/\r\n?/g, "\n")] *)
Function normalize_newlines (s : jsstring) {struct s} : jsstring :=
  match s with
  | [] => []
  | c :: rest =>
      if (c =? CR)%N then
        match rest with
        | d :: rest' =>
            if (d =? LF)%N then LF :: normalize_newlines rest'
            else LF :: normalize_newlines rest
        | [] => [LF]
        end
      else c :: normalize_newlines rest
  end.

(** [s.replace(/^\uFEFF/, empty)]: a leading byte-order mark is removed. *)
Definition strip_bom (s : jsstring) : jsstring :=
  match s with
  | c :: rest => if (c =? BOM)%N then rest else s
  | [] => []
  end.

Definition nonempty (s : jsstring) : bool :=
  match s with [] => false | _ => true end.

Definition jsstring_eqb (a b : jsstring) : bool :=
  if list_eq_dec N.eq_dec a b then true else false.

End Js.
Import Js.

(** ** The STL repairer ([repairStlText], identical in both files) *)

Module Stl.

(** [/[^\x09\x0A\x0D\x20-\x7E]/g] removes what this predicate rejects. *)
Definition printable (c : code) : bool :=
  (c =? 9)%N || (c =? 10)%N || (c =? 13)%N || in_range 32 126 c.

Definition comma_to_space (c : code) : code :=
  if (c =? COMMA)%N then SPACE else c.

(** [/^solid\b/i.test(text)] *)
Definition test_solid (text : jsstring) : bool :=
  starts_with_word (lit "solid") text.

(** [/endsolid\b/i.test(text)] *)
Definition test_endsolid (text : jsstring) : bool :=
  search (starts_with_word (lit "endsolid")) text.

(** The first three replacements. *)
Definition sanitize (input : jsstring) : jsstring :=
  filter printable (List.map comma_to_space (normalize_newlines input)).

(** [.split("\n").map(trim).filter(Boolean)] *)
Definition body_lines (input : jsstring) : list jsstring :=
  filter nonempty (List.map trim (split_on LF (sanitize input))).

(** The text before the two header checks. *)
Definition stl_body (input : jsstring) : jsstring :=
  join [LF] (body_lines input).

Definition ensure_solid (text : jsstring) : jsstring :=
  if test_solid text then text else lit "solid model" ++ [LF] ++ text.

Definition ensure_endsolid (text : jsstring) : jsstring :=
  if test_endsolid text then text else text ++ [LF] ++ lit "endsolid model".

Definition repairStlText (input : jsstring) : jsstring :=
  ensure_endsolid (ensure_solid (stl_body input)).

End Stl.

(** ** The SCAD repairer and normaliser ([src/fixer.js]) *)

Module Scad.

Definition EQUALS : code := 61.

(** [/^( \s* )[A-Za-z_][\w]*\s*=\s*/]: the leading whitespace (group 1) and
    what follows the match.  Each starred class is followed by a character
    outside the class, so the greedy match is the only one. *)
Definition match_assign_prefix (s : jsstring) : option (jsstring * jsstring) :=
  let (ws, s1) := span is_space s in
  match s1 with
  | c :: s2 =>
      if is_ident_start c then
        let (_, s3) := span is_word s2 in
        let (_, s4) := span is_space s3 in
        match s4 with
        | e :: s5 =>
            if e =? EQUALS then let (_, s6) := span is_space s5 in Some (ws, s6)
            else None
        | [] => None
        end
      else None
  | [] => None
  end.

Definition geometry_keywords : list jsstring :=
  List.map lit
    ["sphere"; "cube"; "cylinder"; "polyhedron"; "text"; "import";
     "linear_extrude"; "rotate_extrude"]%string.

(** [(sphere|cube|...|rotate_extrude)\b] under the [i] flag. *)
Definition geometry_keyword_at (s : jsstring) : bool :=
  existsb (fun kw => starts_with_word kw s) geometry_keywords.

(** [working.match(/^( \s* )([A-Za-z_][\w]* )\s*=\s*(sphere|...)\b/i)] *)
Definition match_assignment (working : jsstring) : option (jsstring * jsstring) :=
  match match_assign_prefix working with
  | Some (ws, rest) => if geometry_keyword_at rest then Some (ws, rest) else None
  | None => None
  end.

(** The callback of [lines.map]: the returned line, and whether it set
    [changed]. *)
Definition fix_line (index : nat) (line : jsstring) : jsstring * bool :=
  let working := match index with O => strip_bom line | S _ => line end in
  match match_assignment working with
  | Some (ws, rest) => (ws ++ rest, true)
  | None => (working, false)
  end.

Fixpoint mapi_from {A B : Type} (f : nat -> A -> B) (i : nat) (l : list A) : list B :=
  match l with
  | [] => []
  | x :: rest => f i x :: mapi_from f (S i) rest
  end.

Record repair_result := { text : jsstring; changed : bool }.

Definition input_lines (inputText : jsstring) : list jsstring :=
  split_on LF (normalize_newlines inputText).

Definition repairScadText (inputText : jsstring) : repair_result :=
  let fixedLines := mapi_from fix_line 0 (input_lines inputText) in
  {| text := join [LF] (List.map fst fixedLines);
     changed := existsb snd fixedLines |}.

(** [/[\x00-\x08\x0B\x0C\x0E-\x1F]/] *)
Definition is_control (c : code) : bool :=
  in_range 0 8 c || (c =? 11) || (c =? 12) || in_range 14 31 c.

Definition nbsp_to_space (c : code) : code :=
  if c =? NBSP then SPACE else c.

Definition normalizeScadText (inputText : jsstring) : jsstring :=
  filter (fun c => negb (is_control c))
    (List.map nbsp_to_space (normalize_newlines (strip_bom inputText))).

End Scad.

(** ** Compile-and-retry of the fixer ([compileScad], [fixScad]) *)

Module Fixer.

(** What one call of [compiler.renderToStl] does: the lines it prints through
    the [print]/[printErr] callbacks, then a throw (with the error's
    [message], if any) or a returned value ([None] for null/undefined). *)
Inductive outcome :=
| Threw (message : option jsstring)
| Returned (stlOutput : option jsstring).

Record invocation := { printed : list jsstring; result : outcome }.

(** The lazily loaded engine: loading fails (the memoised promise rejects),
    or yields a compiler whose answer may depend on how often it was called
    before. *)
Inductive engine :=
| LoadFailed (message : option jsstring)
| Loaded (renderToStl : nat -> jsstring -> invocation).

(** Module state: the texts handed to [renderToStl] so far, oldest first, and
    the diagnostic log [scadErrors]. *)
Record world := { calls : list jsstring; scadErrors : list jsstring }.

(** Computations that may throw an [Error] with an optional message. *)
Definition M (A : Type) := world -> (A + option jsstring) * world.

Definition ret {A} (a : A) : M A := fun w => (inl a, w).
Definition throw {A} (message : option jsstring) : M A := fun w => (inr message, w).
Definition bind {A B} (m : M A) (k : A -> M B) : M B :=
  fun w => match m w with
           | (inl a, w') => k a w'
           | (inr e, w') => (inr e, w')
           end.
(** [try { m } catch (error) { h error }] *)
Definition try_catch {A} (m : M A) (h : option jsstring -> M A) : M A :=
  fun w => match m w with
           | (inl a, w') => (inl a, w')
           | (inr e, w') => h e w'
           end.

Notation "x <- m ;; k" := (bind m (fun x => k))
  (at level 61, m at next level, right associativity).
Notation "m ;;; k" := (bind m (fun _ => k))
  (at level 61, right associativity).

Definition clear_errors : M unit :=
  fun w => (inl tt, {| calls := calls w; scadErrors := [] |}).

Definition read_errors : M (list jsstring) :=
  fun w => (inl (scadErrors w), w).

(** [line.replace(/\s+/g, " ")]: every maximal run of whitespace becomes one
    space; [in_run] says that the previous character was whitespace. *)
Fixpoint collapse_from (in_run : bool) (s : jsstring) : jsstring :=
  match s with
  | [] => []
  | c :: rest =>
      if is_space c then
        if in_run then collapse_from true rest
        else SPACE :: collapse_from true rest
      else c :: collapse_from false rest
  end.

Definition collapse_spaces (s : jsstring) : jsstring := collapse_from false s.

(** [/error/i.test(line)] and [/warning/i.test(line)] *)
Definition mentions (word line : jsstring) : bool :=
  search (fun s => match prefix_ci word s with Some _ => true | None => false end) line.

(** [[...normalized].reverse().find(p)]: the last element satisfying [p]. *)
Definition find_last (p : jsstring -> bool) (l : list jsstring) : option jsstring :=
  find p (rev l).

(** [a || b] on values that are a string or null/undefined: the empty string
    is falsy. *)
Definition or_else (a b : option jsstring) : option jsstring :=
  match a with
  | Some (_ :: _) => a
  | _ => b
  end.

Definition getScadErrorMessage (log : list jsstring) : option jsstring :=
  match log with
  | [] => None
  | _ =>
      let normalized := List.map (fun line => trim (collapse_spaces line)) log in
      let errorLine := find_last (mentions (lit "error")) normalized in
      let warningLine := find_last (mentions (lit "warning")) normalized in
      or_else (or_else errorLine warningLine) None
  end.

Section WithEngine.

Variable scadEngine : engine.

(** [await compiler.renderToStl(cleaned)]: the call is logged, the printed
    lines are appended to [scadErrors]. *)
Definition render (renderToStl : nat -> jsstring -> invocation)
    (cleaned : jsstring) : M (option jsstring) :=
  fun w =>
    let inv := renderToStl (List.length (calls w)) cleaned in
    let w' := {| calls := calls w ++ [cleaned];
                 scadErrors := scadErrors w ++ printed inv |} in
    match result inv with
    | Threw message => (inr message, w')
    | Returned stlOutput => (inl stlOutput, w')
    end.

Definition compileScad (text : jsstring) : M jsstring :=
  clear_errors ;;;
  match scadEngine with
  | LoadFailed message => throw message
  | Loaded renderToStl =>
      clear_errors ;;;
      let cleaned := Scad.normalizeScadText text in
      stlOutput <-
        try_catch (render renderToStl cleaned)
          (fun error =>
             log <- read_errors ;;
             throw (or_else (or_else (getScadErrorMessage log) error)
                      (Some (lit "SCAD compile failed.")))) ;;
      match stlOutput with
      | None =>
          log <- read_errors ;;
          throw (or_else (getScadErrorMessage log)
                   (Some (lit "SCAD produced no output.")))
      | Some out =>
          if nonempty (trim out) then ret out
          else
            log <- read_errors ;;
            throw (or_else (getScadErrorMessage log)
                     (Some (lit "SCAD produced empty output.")))
      end
  end.

Record fix_result := {
  fixed : jsstring;
  changed : bool;
  ok : bool;
  errorMessage : option jsstring
}.

Definition fixScad (text : jsstring) : M fix_result :=
  try_catch
    (compileScad text ;;;
     ret {| fixed := text; changed := false; ok := true; errorMessage := None |})
    (fun error =>
       let result := Scad.repairScadText text in
       if negb (Scad.changed result) then
         ret {| fixed := text; changed := false; ok := false;
                errorMessage := error |}
       else
         try_catch
           (compileScad (Scad.text result) ;;;
            ret {| fixed := Scad.text result; changed := true; ok := true;
                   errorMessage := None |})
           (fun retryError =>
              ret {| fixed := Scad.text result; changed := true; ok := false;
                     errorMessage := retryError |})).

End WithEngine.

End Fixer.

(** ** Format sniffing ([src/app.js]) *)

Module Sniff.

Inductive format := Stl | Obj | Ply | Off | Gltf | Glb | ThreeMf | Scad.

Definition format_eqb (a b : format) : bool :=
  match a, b with
  | Stl, Stl | Obj, Obj | Ply, Ply | Off, Off | Gltf, Gltf | Glb, Glb
  | ThreeMf, ThreeMf | Scad, Scad => true
  | _, _ => false
  end.

Definition QUOTE : code := 34.
Definition HASH : code := 35.
Definition DOT : code := 46.
Definition COLON : code := 58.
Definition LBRACE : code := 123.

Definition next_is (p : code -> bool) (s : jsstring) : bool :=
  match s with
  | c :: _ => p c
  | [] => false
  end.

(** [/^\s*\{/] *)
Definition test_open_brace (s : jsstring) : bool :=
  next_is (N.eqb LBRACE) (drop_space s).

(** ["asset"\s*:\s*\{], anchored. *)
Definition asset_key_at (s : jsstring) : bool :=
  match prefix ([QUOTE] ++ lit "asset" ++ [QUOTE]) s with
  | Some r =>
      match drop_space r with
      | c :: r' => (c =? COLON) && next_is (N.eqb LBRACE) (drop_space r')
      | [] => false
      end
  | None => false
  end.

(** [/"asset"\s*:\s*\{/] *)
Definition test_asset_key (s : jsstring) : bool := search asset_key_at s.

(** [facet\s+normal] under [i], anchored. *)
Definition facet_normal_at (s : jsstring) : bool :=
  match prefix_ci (lit "facet") s with
  | Some (c :: r) =>
      is_space c &&
      match prefix_ci (lit "normal") (drop_space r) with
      | Some _ => true
      | None => false
      end
  | _ => false
  end.

(** [/facet\s+normal/i] *)
Definition test_facet_normal (s : jsstring) : bool := search facet_normal_at s.

(** [/^solid\b/i] *)
Definition test_solid (s : jsstring) : bool := starts_with_word (lit "solid") s.

(** [/^ply\b/i] *)
Definition test_ply (s : jsstring) : bool := starts_with_word (lit "ply") s.

(** [/^(?:c?off)\b/i]: with a leading [c] only [coff] can match, without it
    only [off]. *)
Definition test_off (s : jsstring) : bool :=
  starts_with_word (lit "coff") s || starts_with_word (lit "off") s.

Definition is_letter (l : string) (c : code) : bool :=
  match lit l with
  | p :: _ => ci_eqb p c
  | [] => false
  end.

(** [\s*(o|g|v|vn|vt|f)\s+] under [i], anchored. *)
Definition obj_statement_at (s : jsstring) : bool :=
  match drop_space s with
  | c :: r =>
      ((is_letter "o" c || is_letter "g" c || is_letter "v" c || is_letter "f" c)
       && next_is is_space r)
      || (is_letter "v" c &&
          match r with
          | d :: r' => (is_letter "n" d || is_letter "t" d) && next_is is_space r'
          | [] => false
          end)
  | [] => false
  end.

(** [#.*\n], anchored: the rest after the comment line.  [.] stops at any
    line terminator, and only a line feed may follow. *)
Definition comment_line (s : jsstring) : option jsstring :=
  match s with
  | c :: r =>
      if c =? HASH then
        match snd (span (fun x => negb (is_line_terminator x)) r) with
        | d :: r' => if d =? LF then Some r' else None
        | [] => None
        end
      else None
  | [] => None
  end.

(** [(?:#.*\n)?\s*(o|g|v|vn|vt|f)\s+], anchored. *)
Definition obj_at (s : jsstring) : bool :=
  match comment_line s with
  | Some r => obj_statement_at r || obj_statement_at s
  | None => obj_statement_at s
  end.

(** [^] under the [m] flag: the start of the input and every position after
    a line terminator. *)
Fixpoint after_terminators (P : jsstring -> bool) (s : jsstring) : bool :=
  match s with
  | [] => false
  | c :: rest => (is_line_terminator c && P rest) || after_terminators P rest
  end.

(** [/^(?:#.*\n)?\s*(o|g|v|vn|vt|f)\s+/im] *)
Definition test_obj (s : jsstring) : bool :=
  obj_at s || after_terminators obj_at s.

Definition scad_keywords : list jsstring :=
  List.map lit
    ["module"; "difference"; "union"; "intersection"; "translate"; "rotate";
     "scale"; "cube"; "sphere"; "cylinder"]%string.

Definition scad_keyword_at (s : jsstring) : bool :=
  existsb (fun kw => starts_with_word kw s) scad_keywords.

(** [\bP] somewhere, for a [P] that starts with a word character: the
    character before the match is not a word character. *)
Fixpoint search_word (P : jsstring -> bool) (prev_is_word : bool) (s : jsstring) : bool :=
  (negb prev_is_word && P s)
  || match s with
     | [] => false
     | c :: rest => search_word P (is_word c) rest
     end.

(** [/\b(module|difference|...|cylinder)\b/i] *)
Definition test_scad (s : jsstring) : bool := search_word scad_keyword_at false s.

Definition detectFormatFromText (text : jsstring) : option format :=
  let trimmed := trim text in
  if negb (nonempty trimmed) then None
  else if test_open_brace trimmed && test_asset_key trimmed then Some Gltf
  else if test_solid trimmed && test_facet_normal trimmed then Some Stl
  else if test_ply trimmed then Some Ply
  else if test_off trimmed then Some Off
  else if test_obj trimmed then Some Obj
  else if test_scad trimmed then Some Scad
  else None.

(** The list [known] with the tag each extension stands for. *)
Definition known : list (jsstring * format) :=
  [(lit "stl", Stl); (lit "obj", Obj); (lit "ply", Ply); (lit "off", Off);
   (lit "gltf", Gltf); (lit "glb", Glb); (lit "3mf", ThreeMf); (lit "scad", Scad)].

(** [name.split(".").pop().toLowerCase()].  Only ASCII letters are folded:
    no other character lower-cases to a string of [known]. *)
Definition extension_of (name : jsstring) : jsstring :=
  List.map lower (last (split_on DOT name) []).

Definition known_extension (name : jsstring) : option format :=
  option_map snd (find (fun kf => jsstring_eqb (fst kf) (extension_of name)) known).

(** [headerText.includes("glTF")] *)
Definition includes_glTF (headerText : jsstring) : bool :=
  search (fun s => match prefix (lit "glTF") s with Some _ => true | None => false end)
    headerText.

Definition detectFormatFromFile (name headerText : jsstring) : option format :=
  match known_extension name with
  | Some f => Some f
  | None =>
      if includes_glTF headerText then Some Glb
      else detectFormatFromText headerText
  end.

(** [/^solid\b/i.test(headerText) && /facet\b/i.test(headerText)] *)
Definition isLikelyAsciiStl (headerText : jsstring) : bool :=
  test_solid headerText && search (starts_with_word (lit "facet")) headerText.

(** The detection step of [handleText]: the pasted text loses a leading
    byte-order mark and is trimmed; [None] on the left is the empty-paste
    refusal. *)
Definition handleText_text (value : jsstring) : jsstring := trim (strip_bom value).

Definition handleText_detect (value : jsstring) : option format :=
  let text := handleText_text value in
  if negb (nonempty text) then None else detectFormatFromText text.

Section WithDecoder.

(** [textDecoder.decode]: UTF-8 decoding of the browser. *)
Variable decode : list Byte.byte -> jsstring.

(** [textDecoder.decode(buffer.slice(0, 512))] *)
Definition header_of (buffer : list Byte.byte) : jsstring :=
  decode (firstn 512 buffer).

(** The detection step of [handleFile]. *)
Definition handleFile_detect (name : jsstring) (buffer : list Byte.byte) : option format :=
  detectFormatFromFile name (header_of buffer).

End WithDecoder.

End Sniff.

(** ** JavaScript numbers *)

Module Num.

(** A binary64 value: not-a-number, an infinity, or a finite value kept as
    the rational it denotes (in lowest terms).  Negative zero is identified
    with zero. *)
Inductive num := NaN | Inf (negative : bool) | Fin (q : Q).

Definition Qltb (a b : Q) : bool := negb (Qle_bool b a).

Definition pow2 (k : Z) : Q := Qpower (2 # 1) k.

(** Exponent of the binade of a positive rational: the [e] with
    [2^e <= a < 2^(e+1)]. *)
Definition binade (a : Q) : Z :=
  let e0 := (Z.log2 (Qnum a) - Z.log2 (Zpos (Qden a)))%Z in
  if Qltb a (pow2 e0) then (e0 - 1)%Z else e0.

(** Nearest integer, ties to even. *)
Definition round_half_even (m : Q) : Z :=
  let f := Qfloor m in
  let r := Qminus m (inject_Z f) in
  if Qltb r (1 # 2) then f
  else if Qltb (1 # 2) r then (f + 1)%Z
  else if Z.even f then f else (f + 1)%Z.

(** Rounding of an exact result to binary64 (round to nearest, ties to even,
    gradual underflow, overflow to infinity). *)
Definition round64 (q : Q) : num :=
  if Qeq_bool q 0 then Fin 0
  else
    let a := Qabs q in
    let e := Z.max (binade a) (-1022) in
    let ulp := pow2 (e - 52) in
    let n := round_half_even (Qdiv a ulp) in
    let r := Qmult (inject_Z n) ulp in
    if Qle_bool (pow2 1024) r then Inf (Qltb q 0)
    else Fin (Qred (if Qltb q 0 then Qopp r else r)).

(** Rounding to binary32, likewise (24 bits of precision, exponents from
    -126, overflow at [2^128]). *)
Definition round32 (q : Q) : num :=
  if Qeq_bool q 0 then Fin 0
  else
    let a := Qabs q in
    let e := Z.max (binade a) (-126) in
    let ulp := pow2 (e - 23) in
    let n := round_half_even (Qdiv a ulp) in
    let r := Qmult (inject_Z n) ulp in
    if Qle_bool (pow2 128) r then Inf (Qltb q 0)
    else Fin (Qred (if Qltb q 0 then Qopp r else r)).

(** The value an element of a [Float32Array] holds after a number was
    stored in it. *)
Definition fround (x : num) : num :=
  match x with
  | Fin q => round32 q
  | other => other
  end.

(** An array length or a loop counter as a number: integers below [2^53]
    are binary64 values, and no array or loop of the program gets that far. *)
Definition of_nat (n : nat) : num := Fin (inject_Z (Z.of_nat n)).

(** [Number.isFinite] *)
Definition isFinite (x : num) : bool :=
  match x with Fin _ => true | _ => false end.

(** [a < b] *)
Definition ltb (a b : num) : bool :=
  match a, b with
  | NaN, _ | _, NaN => false
  | Inf true, Inf true => false
  | Inf true, _ => true
  | _, Inf true => false
  | Inf false, _ => false
  | _, Inf false => true
  | Fin x, Fin y => Qltb x y
  end.

(** [a <= b] *)
Definition leb (a b : num) : bool :=
  match a, b with
  | NaN, _ | _, NaN => false
  | Inf true, _ => true
  | _, Inf false => true
  | _, Inf true => false
  | Inf false, _ => false
  | Fin x, Fin y => Qle_bool x y
  end.

(** [a + b] *)
Definition add (a b : num) : num :=
  match a, b with
  | NaN, _ | _, NaN => NaN
  | Inf s, Inf t => if Bool.eqb s t then Inf s else NaN
  | Inf s, Fin _ | Fin _, Inf s => Inf s
  | Fin x, Fin y => round64 (Qplus x y)
  end.

(** [a - b] *)
Definition sub (a b : num) : num :=
  match a, b with
  | NaN, _ | _, NaN => NaN
  | Inf s, Inf t => if Bool.eqb s t then NaN else Inf s
  | Inf s, Fin _ => Inf s
  | Fin _, Inf s => Inf (negb s)
  | Fin x, Fin y => round64 (Qminus x y)
  end.

(** [a / 3] *)
Definition div3 (a : num) : num :=
  match a with
  | Fin x => round64 (Qdiv x (3 # 1))
  | other => other
  end.

(** [Math.min] and [Math.max] *)
Definition min (a b : num) : num :=
  match a, b with
  | NaN, _ | _, NaN => NaN
  | _, _ => if leb a b then a else b
  end.

Definition max (a b : num) : num :=
  match a, b with
  | NaN, _ | _, NaN => NaN
  | _, _ => if leb a b then b else a
  end.

(** A finite value with no fractional part. *)
Definition is_integer (x : num) : bool :=
  match x with
  | Fin q => Qeq_bool q (inject_Z (Qfloor q))
  | _ => false
  end.

Definition is_digit (c : code) : bool := in_range 48 57 c.

Definition digit_value (c : code) : Z :=
  if is_digit c then Z.of_N (c - 48)
  else if in_range 97 102 c then Z.of_N (c - 87)
  else Z.of_N (c - 55).

Definition is_hex_digit (c : code) : bool :=
  is_digit c || in_range 97 102 c || in_range 65 70 c.

Definition digits_value (base : Z) (ds : jsstring) : Z :=
  fold_left (fun acc d => (base * acc + digit_value d)%Z) ds 0%Z.

(** [0x..], [0o..], [0b..]: the digits must fill the rest of the string. *)
Definition non_decimal (s : jsstring) : option Z :=
  match s with
  | z :: p :: ((_ :: _) as ds) =>
      if z =? 48 then
        if (lower p =? 120) && forallb is_hex_digit ds then Some (digits_value 16 ds)
        else if (lower p =? 111) && forallb (in_range 48 55) ds then Some (digits_value 8 ds)
        else if (lower p =? 98) && forallb (in_range 48 49) ds then Some (digits_value 2 ds)
        else None
      else None
  | _ => None
  end.

(** ExponentPart, or nothing, up to the end of the string. *)
Definition exponent (s : jsstring) : option Z :=
  match s with
  | [] => Some 0%Z
  | c :: r =>
      if lower c =? 101 then
        let (negative, r1) :=
          match r with
          | d :: r' =>
              if d =? 45 then (true, r') else if d =? 43 then (false, r') else (false, r)
          | [] => (false, r)
          end in
        match r1 with
        | _ :: _ =>
            if forallb is_digit r1 then
              Some (if negative then (- digits_value 10 r1)%Z else digits_value 10 r1)
            else None
        | [] => None
        end
      else None
  end.

(** StrUnsignedDecimalLiteral without [Infinity]: the exact value. *)
Definition unsigned_decimal (s : jsstring) : option Q :=
  let (ip, r) := span is_digit s in
  let (fp, r1) :=
    match r with
    | c :: r' => if c =? 46 then span is_digit r' else ([], r)
    | [] => ([], r)
    end in
  match ip ++ fp with
  | [] => None
  | ds =>
      match exponent r1 with
      | Some e =>
          Some (Qmult (inject_Z (digits_value 10 ds))
                  (Qpower (10 # 1) (e - Z.of_nat (List.length fp))))
      | None => None
      end
  end.

(** [Number(s)] on a string: StringToNumber. *)
Definition Number (s : jsstring) : num :=
  let t := trim s in
  match t with
  | [] => Fin 0
  | c :: r =>
      match non_decimal t with
      | Some n => round64 (inject_Z n)
      | None =>
          let (negative, body) :=
            if c =? 45 then (true, r) else if c =? 43 then (false, r) else (false, t) in
          if jsstring_eqb body (lit "Infinity") then Inf negative
          else
            match unsigned_decimal body with
            | Some q => round64 (if negative then Qopp q else q)
            | None => NaN
            end
      end
  end.

End Num.

(** ** The internal OFF parser ([parseOff]) *)

Module OffParser.

Import Num.

(** The [Error]s thrown by [parseOff]; all of them are malformed-input
    failures. *)
Inductive off_error :=
| EmptyFile | InvalidHeader | CountMissing | CountsInvalid
| VertexIncomplete | VertexInvalid | FaceIncomplete.

Definition message (e : off_error) : jsstring :=
  match e with
  | EmptyFile => lit "OFF file is empty."
  | InvalidHeader => lit "Invalid OFF header."
  | CountMissing => lit "OFF vertex count missing."
  | CountsInvalid => lit "OFF counts are invalid."
  | VertexIncomplete => lit "OFF vertex data is incomplete."
  | VertexInvalid => lit "OFF vertex entry is invalid."
  | FaceIncomplete => lit "OFF face data is incomplete."
  end.

(** The buffer geometry handed to the engine: the flat [position] array
    (three numbers per vertex) and the index array, set only when it is not
    empty. *)
Record geometry := { position : list num; index : option (list num) }.

(** [line.split(/\s+/)]: [in_run] says that the previous character was
    whitespace. *)
Fixpoint split_space_from (in_run : bool) (s : jsstring) : list jsstring :=
  match s with
  | [] => [[]]
  | c :: rest =>
      if is_space c then
        if in_run then split_space_from true rest
        else [] :: split_space_from true rest
      else match split_space_from false rest with
           | l :: ls => (c :: l) :: ls
           | [] => [[c]]
           end
  end.

Definition split_space (s : jsstring) : list jsstring := split_space_from false s.

(** [line && !line.startsWith("#")] *)
Definition is_data_line (line : jsstring) : bool :=
  match line with
  | [] => false
  | c :: _ => negb (c =? Sniff.HASH)
  end.

Definition data_lines (text : jsstring) : list jsstring :=
  filter is_data_line (List.map trim (split_on LF (normalize_newlines text))).

(** [/^(?:C?OFF)/i]: the rest after the header keyword, if it is there. *)
Definition header_rest (header : jsstring) : option jsstring :=
  match prefix_ci (lit "COFF") header with
  | Some r => Some r
  | None => prefix_ci (lit "OFF") header
  end.

(** [header.replace(/^(?:C?OFF)\s*/i, empty).trim()] *)
Definition inline_counts (header : jsstring) : jsstring :=
  match header_rest header with
  | Some r => trim (drop_space r)
  | None => trim header
  end.

(** The fan of a face: [(f0, fj, fj+1)] for [j = 1 .. length - 2]. *)
Fixpoint fan (first : num) (others : list num) : list num :=
  match others with
  | a :: ((b :: _) as rest) => first :: a :: b :: fan first rest
  | _ => []
  end.

Definition fan_triangulate (faceIndices : list num) : list num :=
  match faceIndices with
  | first :: others => fan first others
  | [] => []
  end.

(** [parts.slice(1, 1 + faceVertices)] for a finite [faceVertices >= 3]. *)
Definition slice_face (parts : list num) (faceVertices : num) : list num :=
  match add (Fin 1) faceVertices with
  | Fin e =>
      let stop := Z.to_nat (Z.min (Qfloor e) (Z.of_nat (List.length parts))) in
      firstn (stop - 1) (skipn 1 parts)
  | _ => skipn 1 parts
  end.

(** What one face line adds to [indices]; nothing when the line is skipped. *)
Definition face_indices (line : jsstring) : list num :=
  let parts := List.map Number (split_space line) in
  if (List.length parts <? 4)%nat then []
  else
    match parts with
    | faceVertices :: _ =>
        if negb (isFinite faceVertices) || ltb faceVertices (Fin 3) then []
        else fan_triangulate (slice_face parts faceVertices)
    | [] => []
    end.

(** The vertex loop: [i] is the loop counter, [vertices] the array so far;
    the result is the array and the lines left. *)
Fixpoint read_vertices (vertexCount : num) (i : nat) (vertices : list num)
    (lines : list jsstring) : (list num * list jsstring) + off_error :=
  if ltb (of_nat i) vertexCount then
    match lines with
    | [] => inr VertexIncomplete
    | line :: rest =>
        match List.map Number (split_space line) with
        | x :: y :: z :: _ =>
            read_vertices vertexCount (S i) (vertices ++ [x; y; z]) rest
        | _ => inr VertexInvalid
        end
    end
  else inl (vertices, lines).

(** The face loop. *)
Fixpoint read_faces (faceCount : num) (i : nat) (indices : list num)
    (lines : list jsstring) : list num + off_error :=
  if ltb (of_nat i) faceCount then
    match lines with
    | [] => inr FaceIncomplete
    | line :: rest =>
        read_faces faceCount (S i) (indices ++ face_indices line) rest
    end
  else inl indices.

(** The counts line: what follows the keyword on the header line, or else
    the next line; and the lines left after it. *)
Definition counts_line (header : jsstring) (lines : list jsstring)
  : option jsstring * list jsstring :=
  let inline := inline_counts header in
  if nonempty inline then (Some inline, lines)
  else match lines with
       | l :: rest => (Some l, rest)
       | [] => (None, [])
       end.

(** [countsLine.split(/\s+/).slice(0, 2).map(Number)] *)
Definition read_counts (countsLine : jsstring) : list num :=
  List.map Number (firstn 2 (split_space countsLine)).

(** The two loops and the assembly of the geometry. *)
Definition parse_body (vertexCount faceCount : num) (lines : list jsstring)
  : geometry + off_error :=
  match read_vertices vertexCount 0 [] lines with
  | inr e => inr e
  | inl (vertices, lines') =>
      match read_faces faceCount 0 [] lines' with
      | inr e => inr e
      | inl indices =>
          inl {| position := vertices;
                 index := match indices with
                          | [] => None
                          | _ => Some indices
                          end |}
      end
  end.

Definition parseOff (text : jsstring) : geometry + off_error :=
  match data_lines text with
  | [] => inr EmptyFile
  | header :: lines =>
      match header_rest header with
      | None => inr InvalidHeader
      | Some _ =>
          match counts_line header lines with
          | (None, _) => inr CountMissing
          | (Some countsLine, lines') =>
              match read_counts countsLine with
              | vertexCount :: faceCount :: _ =>
                  if negb (isFinite vertexCount) || negb (isFinite faceCount)
                  then inr CountsInvalid
                  else parse_body vertexCount faceCount lines'
              | _ => inr CountsInvalid
              end
          end
      end
  end.

(** Number of vertices of the position attribute (item size 3). *)
Definition vertex_count (g : geometry) : nat := Nat.div (List.length (position g)) 3.

(** Number of triangles the geometry draws: a third of the index array, or
    of the vertices when it is not indexed. *)
Definition triangle_count (g : geometry) : nat :=
  match index g with
  | Some indices => Nat.div (List.length indices) 3
  | None => Nat.div (vertex_count g) 3
  end.

End OffParser.

(** ** Geometry statistics and validation ([computeObjectStats], [validateObject]) *)

Module Stats.

Import Num.

Definition vec3 : Type := num * num * num.

Record box3 := { bmin : vec3; bmax : vec3 }.

(** [Box3.makeEmpty] *)
Definition empty_box : box3 :=
  {| bmin := (Inf false, Inf false, Inf false);
     bmax := (Inf true, Inf true, Inf true) |}.

Definition vmap2 (f : num -> num -> num) (a b : vec3) : vec3 :=
  let '(ax, ay, az) := a in
  let '(bx, by_, bz) := b in
  (f ax bx, f ay by_, f az bz).

(** [Box3.union] *)
Definition union (a b : box3) : box3 :=
  {| bmin := vmap2 min (bmin a) (bmin b); bmax := vmap2 max (bmax a) (bmax b) |}.

(** [Box3.expandByPoint] *)
Definition expand (a : box3) (p : vec3) : box3 :=
  {| bmin := vmap2 min (bmin a) p; bmax := vmap2 max (bmax a) p |}.

(** [Box3.isEmpty] *)
Definition isEmpty (b : box3) : bool :=
  let '(ix, iy, iz) := bmin b in
  let '(ax, ay, az) := bmax b in
  ltb ax ix || ltb ay iy || ltb az iz.

(** [Box3.getSize] *)
Definition getSize (b : box3) : vec3 :=
  if isEmpty b then (Fin 0, Fin 0, Fin 0) else vmap2 sub (bmax b) (bmin b).

(** What [traverse] sees of a node: whether it is a mesh, and of its geometry
    the vertex count of the position attribute (if there is one) and the
    bounding box in world space (if the engine could compute one). *)
Record node_geometry := { position_count : option nat; world_box : option box3 }.
Record node := { isMesh : bool; node_geom : option node_geometry }.

(** An object, as the sequence of nodes [object.traverse] visits. *)
Definition object3d := list node.

Record stats := { bounds : box3; size : vec3; triangles : num }.

(** One step of the traversal callback. *)
Definition visit (acc : box3 * num) (child : node) : box3 * num :=
  let (b, t) := acc in
  if negb (isMesh child) then acc
  else
    match node_geom child with
    | None => acc
    | Some g =>
        let t' := match position_count g with
                  | Some count => add t (div3 (of_nat count))
                  | None => t
                  end in
        let b' := match world_box g with
                  | Some childBox => union b childBox
                  | None => b
                  end in
        (b', t')
    end.

Definition computeObjectStats (object : object3d) : stats :=
  let (b, t) := fold_left visit object (empty_box, Fin 0) in
  {| bounds := b; size := getSize b; triangles := t |}.

Inductive validation_failure := NoTriangles | NoBounds | InvalidValues.

Definition failure_message (f : validation_failure) : jsstring :=
  match f with
  | NoTriangles => lit "No triangles found. Check that the data is valid."
  | NoBounds => lit "Could not compute geometry bounds. Check the data."
  | InvalidValues => lit "Invalid geometry values detected. Check the data."
  end.

(** [None] is the source's [null]: the object is valid. *)
Definition validateObject (object : object3d) : option validation_failure :=
  let s := computeObjectStats object in
  if negb (isFinite (triangles s)) || leb (triangles s) (Fin 0) then Some NoTriangles
  else if isEmpty (bounds s) then Some NoBounds
  else
    let '(x, y, z) := size s in
    if negb (isFinite x && isFinite y && isFinite z) then Some InvalidValues
    else None.

Fixpoint points (flat : list num) : list vec3 :=
  match flat with
  | x :: y :: z :: rest => (x, y, z) :: points rest
  | _ => []
  end.

(** [new THREE.Mesh(geometry, material)] for the geometry built by
    [parseOff], placed at the origin.  [Float32BufferAttribute] stores the
    vertices in a [Float32Array]; the engine derives the vertex count from
    the length of that array and the bounding box from the values it holds. *)
Definition mesh_of (g : OffParser.geometry) : object3d :=
  let stored := List.map fround (OffParser.position g) in
  [{| isMesh := true;
      node_geom :=
        Some {| position_count := Some (OffParser.vertex_count g);
                world_box := Some (fold_left expand (points stored) empty_box) |} |}].

End Stats.

(** ** Loading and the repair prompt of the viewer ([src/app.js]) *)

Module Viewer.

Import Sniff.

Inductive data := Text (text : jsstring) | Binary (bytes : list Byte.byte).

(** What a parser does: it throws (with a message, if any), or returns a
    value that is an object of the engine or is not. *)
Inductive parse_outcome :=
| ParseThrew (message : option jsstring)
| Parsed (object : option Stats.object3d).

(** A call of [compiler.renderToStl] of the viewer's own engine handle. *)
Inductive scad_outcome :=
| EngineFailed (message : option jsstring)
| CompilerThrew (message : option jsstring)
| CompilerReturned (stlText : option jsstring).

(** The external collaborators. *)
Record collaborators := {
  loaders : format -> data -> parse_outcome;
  renderToStl : jsstring -> scad_outcome;
  repairModal : bool
}.

(** [/solid\\b/i.test(stlText)]: in a regular-expression literal [\\] is a
    backslash character, so the pattern is the seven characters [solid\b]
    taken literally. *)
Definition test_solid_backslash_b (stlText : jsstring) : bool :=
  search (fun s => match prefix_ci (lit "solid" ++ [92] ++ lit "b") s with
                   | Some _ => true
                   | None => false
                   end) stlText.

Definition compile_failed : jsstring := lit "SCAD compile failed. Check the syntax.".

Section WithCollaborators.

Variable env : collaborators.

(** [parseStlData] *)
Definition parseStlData (d : data) : parse_outcome := loaders env Stl d.

(** [parseScad]; its two status updates are not traced. *)
Definition parseScad (text : jsstring) : parse_outcome :=
  match renderToStl env text with
  | EngineFailed message => ParseThrew message
  | CompilerThrew message => ParseThrew message
  | CompilerReturned stlText =>
      match stlText with
      | Some ((_ :: _) as out) =>
          if negb (test_solid_backslash_b out) then ParseThrew (Some compile_failed)
          else parseStlData (Text out)
      | _ => ParseThrew (Some compile_failed)
      end
  end.

(** [parseByFormat].  OFF is parsed here, SCAD goes through [parseScad], the
    other formats through the loaders of the engine.  Both callers hand OFF
    and SCAD over as text; on a buffer [parseOff] would fail at its first
    string method. *)
Definition parseByFormat (f : format) (d : data) : parse_outcome :=
  match f with
  | Off =>
      match d with
      | Text t =>
          match OffParser.parseOff t with
          | inl g => Parsed (Some (Stats.mesh_of g))
          | inr e => ParseThrew (Some (OffParser.message e))
          end
      | Binary _ => ParseThrew (Some (lit "text.replace is not a function"))
      end
  | Scad =>
      match d with
      | Text t => parseScad t
      | Binary _ => ParseThrew None
      end
  | other => loaders env other d
  end.

Inductive event :=
| Status (message : jsstring) (isError : bool)
| ParserCalled (f : format) (d : data)
| PromptShown (message : jsstring) (originalText : jsstring)
| PromptHidden
| ModelShown (name : jsstring).

(** The module state that matters here, and the trace of what happened, most
    recent first. *)
Record state := { pendingRepairText : option jsstring; trace : list event }.

Definition emit (e : event) (s : state) : state :=
  {| pendingRepairText := pendingRepairText s; trace := e :: trace s |}.

Definition setStatus (message : jsstring) (isError : bool) (s : state) : state :=
  emit (Status message isError) s.

(** [clearModel(message, isError)] with a message. *)
Definition clearModel (message : jsstring) (isError : bool) (s : state) : state :=
  setStatus message isError s.

Definition showRepairPrompt (message : jsstring) (original : data) (s : state) : state :=
  match original with
  | Text originalText =>
      if negb (repairModal env) then s
      else {| pendingRepairText := Some originalText;
              trace := PromptShown message originalText :: trace s |}
  | Binary _ => s
  end.

Definition hideRepairPrompt (s : state) : state :=
  if negb (repairModal env) then s
  else {| pendingRepairText := None; trace := PromptHidden :: trace s |}.

Definition label_of (f : format) : jsstring :=
  match f with
  | Stl => lit "STL" | Obj => lit "OBJ" | Ply => lit "PLY" | Off => lit "OFF"
  | Gltf => lit "glTF" | Glb => lit "GLB" | ThreeMf => lit "3MF" | Scad => lit "SCAD"
  end.

Definition loadInput (f : format) (d : data) (name : jsstring) (allowRepair : bool)
    (s : state) : state :=
  let label := label_of f in
  let s1 := setStatus (lit "Loading " ++ label ++ lit "...") false s in
  let s2 := emit (ParserCalled f d) s1 in
  match parseByFormat f d with
  | ParseThrew error =>
      let message :=
        match error with
        | Some ((_ :: _) as m) => m
        | _ => lit "Could not parse " ++ label ++ lit "."
        end in
      let s3 := clearModel message true s2 in
      if allowRepair
      then showRepairPrompt (lit "Formatting issues found. Try to auto-fix the STL text?") d s3
      else s3
  | Parsed None =>
      clearModel (label ++ lit " did not contain any renderable geometry.") true s2
  | Parsed (Some object) =>
      match Stats.validateObject object with
      | Some failure =>
          let s3 := clearModel (Stats.failure_message failure) true s2 in
          if allowRepair
          then showRepairPrompt (lit "Issues found. Try to auto-fix the STL text?") d s3
          else s3
      | None =>
          setStatus (label ++ lit " loaded. Ready to download.") false
            (emit (ModelShown name) s2)
      end
  end.

(** [a === b] between the repaired string and [pendingRepairText], which is
    a string or null. *)
Definition strict_equal (a : jsstring) (b : option jsstring) : bool :=
  match b with
  | Some t => jsstring_eqb a t
  | None => false
  end.

Definition no_fix_message : jsstring := lit "No fixable issues found in the STL text.".

Definition applyRepair (s : state) : state :=
  match pendingRepairText s with
  | Some ((_ :: _) as pending) =>
      let repaired := Stl.repairStlText pending in
      let s1 := hideRepairPrompt s in
      if negb (nonempty repaired) || strict_equal repaired (pendingRepairText s1)
      then setStatus no_fix_message true s1
      else loadInput Stl (Text repaired) (lit "repaired-model.stl") false s1
  | _ => hideRepairPrompt s
  end.

(** [handleText]: the pasted text is sniffed whole and loaded; repair is
    offered for STL only. *)
Definition handleText (value : jsstring) (s : state) : state :=
  let text := handleText_text value in
  if negb (nonempty text) then clearModel (lit "Paste model code before loading.") true s
  else
    match detectFormatFromText text with
    | None =>
        clearModel
          (lit "Unrecognized format. Paste STL, OBJ, PLY, OFF, glTF JSON, or SCAD.") true s
    | Some f =>
        loadInput f (Text text) (lit "pasted." ++ List.map lower (label_of f))
          (format_eqb f Stl) s
    end.

End WithCollaborators.

End Viewer.

(** ** The page of the fixer ([detectFormat], [getSelectedFormat], [fixCode]) *)

Module FixerPage.

Import Fixer.

(** The keyword list of the fixer's sniffer: the viewer's, and [polyhedron]. *)
Definition scad_keywords : list jsstring :=
  List.map lit
    ["module"; "difference"; "union"; "intersection"; "translate"; "rotate";
     "scale"; "cube"; "sphere"; "cylinder"; "polyhedron"]%string.

Definition scad_keyword_at (s : jsstring) : bool :=
  existsb (fun kw => starts_with_word kw s) scad_keywords.

(** [/\b(module|...|cylinder|polyhedron)\b/i] *)
Definition test_scad (s : jsstring) : bool := Sniff.search_word scad_keyword_at false s.

(** [detectFormat]: the tag as the string the source returns, [None] for
    null. *)
Definition detectFormat (text : jsstring) : option jsstring :=
  let trimmed := trim text in
  if negb (nonempty trimmed) then None
  else if Sniff.test_solid trimmed && Sniff.test_facet_normal trimmed then Some (lit "stl")
  else if test_scad trimmed then Some (lit "scad")
  else None.

(** [getSelectedFormat]: [choice] is the value of the format menu. *)
Definition getSelectedFormat (choice text : jsstring) : option jsstring :=
  if jsstring_eqb choice (lit "auto") then detectFormat text else Some choice.

(** What the page shows when [fixCode] is done: the output box, whether the
    copy button is disabled, the details line, the status line and its error
    mark. *)
Record page := {
  output : jsstring;
  copyDisabled : bool;
  details : jsstring;
  status : jsstring;
  statusError : bool
}.

Section WithEngine.

Variable scadEngine : engine.

(** [fixCode]: [choice] and [raw] are the values of the format menu and of
    the input box.  Every branch sets all five parts of the page; the
    messages set before the compiler is awaited are overwritten. *)
Definition fixCode (choice raw : jsstring) : M page :=
  let text := trim (strip_bom raw) in
  if negb (nonempty text) then
    ret {| output := []; copyDisabled := true;
           details := lit "Waiting for input.";
           status := lit "Paste code before fixing."; statusError := true |}
  else
    match getSelectedFormat choice text with
    | Some ((_ :: _) as format) =>
        if jsstring_eqb format (lit "stl") then
          let fixed := Stl.repairStlText text in
          ret {| output := fixed; copyDisabled := false;
                 details := if jsstring_eqb fixed text
                            then lit "No changes detected."
                            else lit "Normalized whitespace, removed non-printables, and ensured solid/endsolid.";
                 status := if jsstring_eqb fixed text
                           then lit "STL looks valid. No changes needed."
                           else lit "Applied STL fixes.";
                 statusError := false |}
        else if jsstring_eqb format (lit "scad") then
          result <- fixScad scadEngine text ;;
          if ok result && negb (changed result) then
            ret {| output := fixed result; copyDisabled := false;
                   details := lit "SCAD compiled successfully. No changes needed.";
                   status := lit "SCAD looks valid."; statusError := false |}
          else if ok result && changed result then
            ret {| output := fixed result; copyDisabled := false;
                   details := lit "Removed invalid geometry assignment and recompiled.";
                   status := lit "Fixed SCAD and it now compiles."; statusError := false |}
          else
            ret {| output := fixed result; copyDisabled := false;
                   details := match errorMessage result with
                              | Some ((_ :: _) as message) => message
                              | _ => lit "Auto-fix applied, but SCAD still fails to compile."
                              end;
                   status := lit "Fixer could not fully repair the SCAD.";
                   statusError := true |}
        else
          ret {| output := []; copyDisabled := true;
                 details := lit "This fixer only supports SCAD and ASCII STL.";
                 status := lit "Unsupported format."; statusError := true |}
    | _ =>
        ret {| output := []; copyDisabled := true;
               details := lit "Auto-detect could not identify the format.";
               status := lit "Choose SCAD or STL in the format menu."; statusError := true |}
    end.

End WithEngine.

End FixerPage.

(** ** Files and export names of the viewer ([handleFile], [downloadStl]) *)

Module ViewerFiles.

Import Sniff Viewer.

Section WithCollaborators.

Variable env : collaborators.

(** [textDecoder.decode] *)
Variable decode : list Byte.byte -> jsstring.

(** What [handleFile] hands to [loadInput]: the format, the data (the decoded
    text or the buffer) and [allowRepair]; [None] when the format is not
    recognised. *)
Definition file_plan (name : jsstring) (buffer : list Byte.byte)
  : option (format * data * bool) :=
  let headerText := header_of decode buffer in
  match detectFormatFromFile name headerText with
  | None => None
  | Some f =>
      Some match f with
           | Stl =>
               if isLikelyAsciiStl headerText then (f, Text (decode buffer), true)
               else (f, Binary buffer, false)
           | Obj | Off | Gltf | Scad => (f, Text (decode buffer), false)
           | Ply | Glb | ThreeMf => (f, Binary buffer, false)
           end
  end.

(** [handleFile] for a file that is there. *)
Definition handleFile (name : jsstring) (buffer : list Byte.byte) (s : state) : state :=
  match file_plan name buffer with
  | None =>
      clearModel
        (lit "Unrecognized file format. Use STL, OBJ, PLY, OFF, glTF/GLB, 3MF, or SCAD.")
        true s
  | Some (f, d, allowRepair) => loadInput env f d name allowRepair s
  end.

End WithCollaborators.

Definition SLASH : code := 47.

(** [[^/.]] *)
Definition in_extension (c : code) : bool := negb (c =? SLASH) && negb (c =? DOT).

(** [currentName.replace(/\.[^/.]+$/, empty)]: the leftmost dot that is
    followed, up to the end, by one or more characters that are neither a
    slash nor a dot is where the name is cut. *)
Fixpoint strip_extension (name : jsstring) : jsstring :=
  match name with
  | [] => []
  | c :: rest =>
      if (c =? DOT) && nonempty rest && forallb in_extension rest then []
      else c :: strip_extension rest
  end.

(** The [download] attribute set by [downloadStl]. *)
Definition export_name (currentName : jsstring) : jsstring :=
  let baseName :=
    match strip_extension currentName with
    | [] => lit "model"
    | stripped => stripped
    end in
  baseName ++ lit "-export.stl".

(** [currentName] as [finalizeLoad] sets it: [name || "model.stl"]. *)
Definition current_name (name : jsstring) : jsstring :=
  match name with
  | [] => lit "model.stl"
  | _ => name
  end.

End ViewerFiles.

(** ** The first viewer, STL only ([src/unnamed/part_000]) *)

Module FirstViewer.

(** [s.endsWith(suffix)] *)
Definition ends_with (suffix s : jsstring) : bool :=
  match prefix (rev suffix) (rev s) with
  | Some _ => true
  | None => false
  end.

(** The test of [handleFile]: [file.name.toLowerCase().endsWith(".stl")].
    Only ASCII letters are folded: no other character lower-cases to a
    character of the suffix. *)
Definition accepts_file (name : jsstring) : bool :=
  ends_with (lit ".stl") (List.map lower name).

(** [currentName.replace(/\.stl$/i, empty)] of [downloadStl]. *)
Definition strip_stl (name : jsstring) : jsstring :=
  match prefix_ci (rev (lit ".stl")) (rev name) with
  | Some r => rev r
  | None => name
  end.

(** The [download] attribute set by [downloadStl]. *)
Definition export_name (currentName : jsstring) : jsstring :=
  let baseName :=
    match strip_stl currentName with
    | [] => lit "model"
    | stripped => stripped
    end in
  baseName ++ lit "-export.stl".

End FirstViewer.

(** * Notions used in the statements *)

Section StlNotions.

Import Stl.

(** A string that [trim] leaves alone: no whitespace at either end. *)
Definition is_trimmed (s : jsstring) : Prop :=
  drop_space s = s /\ drop_space (rev s) = rev s.

(** A character that survives the three replacements and is not a line feed. *)
Definition line_char (c : code) : bool :=
  printable c && negb (c =? CR) && negb (c =? COMMA) && negb (c =? LF).

(** A line of the repairer's normal form: not empty, trimmed, made of
    characters the repairer keeps. *)
Definition good_line (l : jsstring) : Prop :=
  l <> [] /\ is_trimmed l /\ Forall (fun c => line_char c = true) l.

(** A character that leaves a trace in the repaired text: printable ASCII
    other than the space and the comma. *)
Definition visible (c : code) : bool :=
  in_range 33 126 c && negb (c =? COMMA).





End StlNotions.

Section ScadNotions.

Import Scad.

(** An identifier: [[A-Za-z_][\w]*]. *)
Definition is_identifier (s : jsstring) : bool :=
  match s with
  | c :: rest => is_ident_start c && forallb is_word rest
  | [] => false
  end.

(** The next character, if there is one, is not in the class. *)
Definition next_fails (p : code -> bool) (s : jsstring) : Prop :=
  match s with [] => True | c :: _ => p c = false end.

(** The shape of an assignment of geometry: whitespace [ws], an identifier,
    the equals sign with whitespace around it, and a rest that starts with a
    geometry keyword. *)
Definition assignment_shape (w ws rest : jsstring) : Prop :=
  exists ident gap1 gap2,
    w = ws ++ ident ++ gap1 ++ [EQUALS] ++ gap2 ++ rest /\
    forallb is_space ws = true /\ is_identifier ident = true /\
    forallb is_space gap1 = true /\ forallb is_space gap2 = true /\
    geometry_keyword_at rest = true.

(** The line before the rewrite rule is tried: the first line has lost a
    leading byte-order mark. *)
Definition working_line (index : nat) (line : jsstring) : jsstring :=
  match index with O => strip_bom line | S _ => line end.

(** The line matches the assignment-to-geometry pattern. *)
Definition rewrites (index : nat) (line : jsstring) : bool :=
  match match_assignment (working_line index line) with
  | Some _ => true
  | None => false
  end.

End ScadNotions.

Section FixerNotions.

Import Fixer.

(** The texts handed to the compiler between two states. *)
Definition new_calls (before after : world) (new : list jsstring) : Prop :=
  calls after = calls before ++ new.

(** The outcome of [fixScad] in terms of its compile attempts. *)
Definition fixScad_outcome (eng : engine) (text : jsstring) (w : world)
  : (fix_result + option jsstring) * world :=
  match compileScad eng text w with
  | (inl _, w1) =>
      (inl {| fixed := text; changed := false; ok := true; errorMessage := None |}, w1)
  | (inr error, w1) =>
      let result := Scad.repairScadText text in
      if Scad.changed result then
        match compileScad eng (Scad.text result) w1 with
        | (inl _, w2) =>
            (inl {| fixed := Scad.text result; changed := true; ok := true;
                    errorMessage := None |}, w2)
        | (inr retryError, w2) =>
            (inl {| fixed := Scad.text result; changed := true; ok := false;
                    errorMessage := retryError |}, w2)
        end
      else
        (inl {| fixed := text; changed := false; ok := false;
                errorMessage := error |}, w1)
  end.

End FixerNotions.

Section ViewerNotions.

Import Viewer.

(** What the compiler prints for a one-facet model. *)
Definition sample_stl : jsstring :=
  lit "solid OpenSCAD_Model" ++ [LF] ++
  lit "  facet normal 0 0 1" ++ [LF] ++
  lit "    outer loop" ++ [LF] ++
  lit "      vertex 0 0 0" ++ [LF] ++
  lit "      vertex 1 0 0" ++ [LF] ++
  lit "      vertex 0 1 0" ++ [LF] ++
  lit "    endloop" ++ [LF] ++
  lit "  endfacet" ++ [LF] ++
  lit "endsolid OpenSCAD_Model" ++ [LF].

Definition is_prompt (e : event) : bool :=
  match e with PromptShown _ _ => true | _ => false end.

(** An STL text without a triangle that is already in the repairer's normal
    form; the sniffer takes it for STL. *)
Definition unchanged_stl : jsstring :=
  lit "solid a" ++ [LF] ++ lit "facet normal 0 0 1" ++ [LF] ++ lit "endsolid a".

(** What the STL parser makes of such a text: a mesh whose position
    attribute is empty. *)
Definition empty_mesh : Stats.object3d :=
  [{| Stats.isMesh := true;
      Stats.node_geom := Some {| Stats.position_count := Some 0%nat;
                                 Stats.world_box := Some Stats.empty_box |} |}].

Definition finds_nothing (f : Sniff.format) (d : data) : parse_outcome :=
  Parsed (Some empty_mesh).

Definition start : state := {| pendingRepairText := None; trace := [] |}.

End ViewerNotions.

Section OffNotions.

Import Num OffParser.

(** The fixture of the specification: a unit square as two triangles. *)
Definition off_fixture : jsstring :=
  lit "OFF" ++ [LF] ++ lit "4 2 0" ++ [LF] ++
  lit "0 0 0" ++ [LF] ++ lit "1 0 0" ++ [LF] ++ lit "1 1 0" ++ [LF] ++ lit "0 1 0" ++ [LF] ++
  lit "3 0 1 2" ++ [LF] ++ lit "3 0 2 3".

Definition square : geometry :=
  {| position := [Fin 0; Fin 0; Fin 0; Fin 1; Fin 0; Fin 0;
                  Fin 1; Fin 1; Fin 0; Fin 0; Fin 1; Fin 0];
     index := Some [Fin 0; Fin 1; Fin 2; Fin 0; Fin 2; Fin 3] |}.

(** The three numbers a vertex line contributes. *)
Definition vertex_of (line : jsstring) : list num :=
  firstn 3 (List.map Number (split_space line)).

(** The triangles of the fan of a face around its first corner, one after
    the other: corners [0], [j + 1], [j + 2] for [j] from [0]. *)
Definition fan_triangles (face : list num) : list num :=
  List.concat
    (List.map (fun j => [nth 0 face NaN; nth (j + 1) face NaN; nth (j + 2) face NaN])
       (seq 0 (List.length face - 2))).

End OffNotions.

Section SniffNotions.

Import Sniff.

(** The heuristics of the sniffer as an ordered list of rules. *)
Definition sniff_rules : list ((jsstring -> bool) * format) :=
  [ (fun s => test_open_brace s && test_asset_key s, Gltf);
    (fun s => test_solid s && test_facet_normal s, Stl);
    (test_ply, Ply);
    (test_off, Off);
    (test_obj, Obj);
    (test_scad, Scad) ].

(** The tag of the first rule that matches, if any. *)
Definition first_match (rules : list ((jsstring -> bool) * format)) (s : jsstring)
  : option format :=
  option_map snd (find (fun rule => fst rule s) rules).

(** A pasted text of 521 characters: 512 number signs, then a cube. *)
Definition late_cube : jsstring := repeat HASH 512 ++ lit " cube(1);".

(** A stand-in for the decoder that is right on ASCII bytes. *)
Definition decode_ascii (bytes : list Byte.byte) : jsstring :=
  List.map (fun b => N.of_nat (Byte.to_nat b)) bytes.

Definition bytes_of (s : string) : list Byte.byte := list_byte_of_string s.

End SniffNotions.

(** * Further notions *)

Section MoreStlNotions.

Import Stl.

(** A character the STL repairer lets through: printable ASCII, tab or line
    feed, and not a comma. *)
Definition kept_char (c : code) : bool :=
  printable c && negb (c =? CR) && negb (c =? COMMA).

(** A text in the normal form of the STL repairer: lines that are not empty,
    trimmed and made of kept characters, the first of which opens with
    [solid], and an [endsolid] token somewhere. *)
Definition well_formed_stl (t : jsstring) : Prop :=
  exists ls, ls <> [] /\ Forall good_line ls /\ t = join [LF] ls /\
             test_solid t = true /\ test_endsolid t = true.

(** A character the SCAD normaliser lets through. *)
Definition scad_clean (c : code) : bool :=
  negb (c =? CR) && negb (c =? NBSP) && negb (Scad.is_control c).

End MoreStlNotions.
Section MoreFixerNotions.

Import Fixer.

(** The log as [getScadErrorMessage] reads it: every line with its runs of
    whitespace collapsed and its ends trimmed. *)
Definition normalized_log (log : list jsstring) : list jsstring :=
  List.map (fun line => trim (collapse_spaces line)) log.

(** The last element of [l] that satisfies [p] is [m]. *)
Definition is_last_with (p : jsstring -> bool) (l : list jsstring) (m : jsstring) : Prop :=
  exists before after,
    l = before ++ m :: after /\ p m = true /\ forallb (fun x => negb (p x)) after = true.

Definition mentions_error (line : jsstring) : bool := mentions (lit "error") line.
Definition mentions_warning (line : jsstring) : bool := mentions (lit "warning") line.

(** The pieces of a line between its whitespace characters, and its words:
    the pieces that are not empty. *)
Fixpoint fields (s : jsstring) : list jsstring :=
  match s with
  | [] => [[]]
  | c :: rest =>
      if is_space c then [] :: fields rest
      else match fields rest with
           | l :: ls => (c :: l) :: ls
           | [] => [[c]]
           end
  end.

Definition words (s : jsstring) : list jsstring := filter nonempty (fields s).

(** Every whitespace character is a space, and no whitespace character
    follows another. *)
Fixpoint single_spaced (s : jsstring) : bool :=
  match s with
  | [] => true
  | c :: rest =>
      (if is_space c
       then (c =? SPACE) && match rest with d :: _ => negb (is_space d) | [] => true end
       else true)
      && single_spaced rest
  end.

(** [m] is [line] with its runs of whitespace squeezed to one space each and
    its ends trimmed: the same words, single spaces only, and no whitespace
    at either end.  There is one such [m] for a line. *)
Definition squeezed (line m : jsstring) : Prop :=
  words m = words line /\ single_spaced m = true /\ is_trimmed m.

End MoreFixerNotions.
Section MoreViewerNotions.

Import Viewer.

Definition is_parser_call (e : event) : bool :=
  match e with ParserCalled _ _ => true | _ => false end.

Definition is_model_shown (e : event) : bool :=
  match e with ModelShown _ => true | _ => false end.

(** The node is a mesh with at least one vertex. *)
Definition has_vertices (n : Stats.node) : bool :=
  Stats.isMesh n &&
  match Stats.node_geom n with
  | Some g =>
      match Stats.position_count g with
      | Some (S _) => true
      | _ => false
      end
  | None => false
  end.

End MoreViewerNotions.

Section MoreOffNotions.

Import Num OffParser.

(** The two counts [parseOff] reads for a text, when it gets that far:
    vertices, then faces. *)
Definition declared_counts (text : jsstring) : option (num * num) :=
  match data_lines text with
  | [] => None
  | header :: lines =>
      match counts_line header lines with
      | (Some countsLine, _) =>
          match read_counts countsLine with
          | vertexCount :: faceCount :: _ => Some (vertexCount, faceCount)
          | _ => None
          end
      | (None, _) => None
      end
  end.

(** An OFF text with a comment line and a blank line in the data. *)
Definition commented_off : jsstring :=
  lit "OFF" ++ [LF] ++ lit "# a triangle" ++ [LF] ++ lit "3 1 0" ++ [LF] ++
  lit "0 0 0" ++ [LF] ++ [LF] ++ lit "1 0 0" ++ [LF] ++ lit "0 1 0" ++ [LF] ++
  lit "3 0 1 2".

End MoreOffNotions.

Section MoreNameNotions.

(** A pattern character that is a lower-case letter or the dot. *)
Definition plain_pattern (p : code) : bool := in_range 97 122 p || (p =? Sniff.DOT).

End MoreNameNotions.

(** * Verification *)

(** ** Facts about strings *)

Section StringFacts.

Lemma drop_space_idem (s : jsstring) : drop_space (drop_space s) = drop_space s.
Proof.
  induction s as [|c s IH]; simpl; [reflexivity|].
  destruct (is_space c) eqn:E; [exact IH|].
  simpl. rewrite E. reflexivity.
Qed.

Lemma drop_space_head (s : jsstring) (c : code) (r : jsstring) :
  drop_space s = c :: r -> is_space c = false.
Proof.
  induction s as [|d s IH]; simpl; [discriminate|].
  destruct (is_space d) eqn:E; [exact IH|].
  intros H. injection H as -> _. exact E.
Qed.

Lemma drop_space_fixed (c : code) (r : jsstring) :
  is_space c = false -> drop_space (c :: r) = c :: r.
Proof. intros H. simpl. rewrite H. reflexivity. Qed.

(** Dropping leading whitespace keeps a suffix. *)
Lemma drop_space_suffix (s : jsstring) : exists p, s = p ++ drop_space s.
Proof.
  induction s as [|c s [p IH]]; simpl.
  - exists []. reflexivity.
  - destruct (is_space c).
    + exists (c :: p). simpl. f_equal. exact IH.
    + exists []. reflexivity.
Qed.

Lemma drop_space_snoc (s : jsstring) (c : code) :
  is_space c = false -> exists u, drop_space (s ++ [c]) = u ++ [c].
Proof.
  intros Hc. induction s as [|d s [u IH]]; simpl.
  - rewrite Hc. exists []. reflexivity.
  - destruct (is_space d).
    + exists u. exact IH.
    + exists (d :: s). reflexivity.
Qed.

Lemma trim_fixed (s : jsstring) : is_trimmed s -> trim s = s.
Proof.
  intros [H1 H2]. unfold trim. rewrite H1, H2. apply rev_involutive.
Qed.

Lemma trim_is_trimmed (s : jsstring) : is_trimmed (trim s).
Proof.
  unfold is_trimmed, trim. rewrite rev_involutive, drop_space_idem.
  split; [|reflexivity].
  destruct (drop_space s) as [|c a] eqn:Ea; [reflexivity|].
  pose proof (drop_space_head _ _ _ Ea) as Hc.
  simpl rev. destruct (drop_space_snoc (rev a) c Hc) as [u Hu].
  rewrite Hu, rev_app_distr. simpl. rewrite Hc. reflexivity.
Qed.

(** Every character of the trimmed string is a character of the string. *)
Lemma trim_incl (s : jsstring) (c : code) : In c (trim s) -> In c s.
Proof.
  unfold trim. intros H. apply in_rev in H.
  destruct (drop_space_suffix (rev (drop_space s))) as [p Hp].
  assert (In c (rev (drop_space s))) as H1 by (rewrite Hp; apply in_or_app; right; exact H).
  apply in_rev in H1.
  destruct (drop_space_suffix s) as [q Hq]. rewrite Hq. apply in_or_app. right. exact H1.
Qed.

Lemma split_on_nonnil (sep : code) (s : jsstring) : split_on sep s <> [].
Proof.
  destruct s as [|c s]; simpl; [discriminate|].
  destruct (c =? sep); [discriminate|].
  destruct (split_on sep s); discriminate.
Qed.

(** The pieces of a split do not contain the separator, and all their
    characters come from the string. *)
Lemma split_on_chars (sep : code) (s l : jsstring) (c : code) :
  In l (split_on sep s) -> In c l -> In c s /\ c <> sep.
Proof.
  revert l. induction s as [|d s IH]; simpl; intros l Hl Hc.
  - destruct Hl as [<-|[]]. destruct Hc.
  - destruct (N.eqb_spec d sep) as [->|Hne].
    + destruct Hl as [<-|Hl]; [destruct Hc|].
      destruct (IH _ Hl Hc). auto.
    + destruct (split_on sep s) as [|l0 ls] eqn:E.
      * destruct Hl as [<-|[]]. destruct Hc as [<-|[]]. auto.
      * destruct Hl as [<-|Hl].
        -- destruct Hc as [<-|Hc]; [auto|].
           destruct (IH l0 (or_introl eq_refl) Hc). auto.
        -- destruct (IH l (or_intror Hl) Hc). auto.
Qed.

Lemma split_on_no_sep (sep : code) (s : jsstring) :
  ~ In sep s -> split_on sep s = [s].
Proof.
  induction s as [|c s IH]; simpl; intros H; [reflexivity|].
  destruct (N.eqb_spec c sep) as [->|Hne]; [exfalso; apply H; left; reflexivity|].
  rewrite IH by (intros Hin; apply H; right; exact Hin). reflexivity.
Qed.

Lemma split_on_app (sep : code) (l rest : jsstring) :
  ~ In sep l -> split_on sep (l ++ sep :: rest) = l :: split_on sep rest.
Proof.
  induction l as [|c l IH]; simpl; intros H.
  - rewrite N.eqb_refl. reflexivity.
  - destruct (N.eqb_spec c sep) as [->|Hne]; [exfalso; apply H; left; reflexivity|].
    rewrite IH by (intros Hin; apply H; right; exact Hin). reflexivity.
Qed.

(** Splitting what was joined gives the lines back. *)
Lemma split_join (sep : code) (ls : list jsstring) :
  ls <> [] -> Forall (fun l => ~ In sep l) ls ->
  split_on sep (join [sep] ls) = ls.
Proof.
  induction ls as [|l ls IH]; intros Hne Hall; [congruence|].
  inversion Hall as [|? ? Hl Hls]; subst.
  destruct ls as [|l' ls'].
  - simpl. apply split_on_no_sep. exact Hl.
  - change (join [sep] (l :: l' :: ls')) with (l ++ sep :: join [sep] (l' :: ls')).
    rewrite split_on_app by exact Hl. f_equal. apply IH; [discriminate|exact Hls].
Qed.

Lemma join_cons (sep l : jsstring) (ls : list jsstring) :
  ls <> [] -> join sep (l :: ls) = l ++ sep ++ join sep ls.
Proof. destruct ls; [congruence|reflexivity]. Qed.

Lemma join_snoc (sep l : jsstring) (ls : list jsstring) :
  ls <> [] -> join sep (ls ++ [l]) = join sep ls ++ sep ++ l.
Proof.
  induction ls as [|a ls IH]; intros Hne; [congruence|].
  destruct ls as [|b ls'].
  - reflexivity.
  - change ((a :: b :: ls') ++ [l]) with (a :: ((b :: ls') ++ [l])).
    rewrite join_cons by (destruct ls'; discriminate).
    rewrite IH by discriminate.
    rewrite (join_cons sep a (b :: ls')) by discriminate.
    rewrite <- !app_assoc. reflexivity.
Qed.

Lemma join_chars (sep : code) (ls : list jsstring) (c : code) :
  In c (join [sep] ls) -> c = sep \/ exists l, In l ls /\ In c l.
Proof.
  induction ls as [|l ls IH]; [intros []|].
  destruct ls as [|l' ls'].
  - simpl. intros H. right. exists l. auto.
  - change (join [sep] (l :: l' :: ls')) with (l ++ sep :: join [sep] (l' :: ls')).
    intros H. apply in_app_or in H. destruct H as [H|[H|H]].
    + right. exists l. split; [left; reflexivity|exact H].
    + left. symmetry. exact H.
    + destruct (IH H) as [->|[m [Hm Hc]]]; [left; reflexivity|].
      right. exists m. split; [right; exact Hm|exact Hc].
Qed.

Lemma normalize_newlines_fixed (s : jsstring) :
  ~ In CR s -> normalize_newlines s = s.
Proof.
  induction s as [|c s IH]; intros H; [reflexivity|].
  cbn [normalize_newlines].
  destruct (N.eqb_spec c CR) as [->|Hne]; [exfalso; apply H; left; reflexivity|].
  f_equal. apply IH. intros Hin. apply H. right. exact Hin.
Qed.

Lemma normalize_newlines_no_cr (s : jsstring) : ~ In CR (normalize_newlines s).
Proof.
  functional induction (normalize_newlines s); simpl; intuition; try discriminate.
  apply N.eqb_neq in e0. congruence.
Qed.

(** Normalising line endings adds nothing but line feeds and removes nothing
    but carriage returns and the line feeds after them. *)
Lemma normalize_newlines_incl (s : jsstring) (c : code) :
  In c (normalize_newlines s) -> c = LF \/ In c s.
Proof.
  functional induction (normalize_newlines s); simpl; intuition.
Qed.

Lemma normalize_newlines_keeps (s : jsstring) (c : code) :
  In c s -> c <> CR -> c <> LF -> In c (normalize_newlines s).
Proof.
  intros Hin Hcr Hlf. functional induction (normalize_newlines s); simpl in *;
    repeat match goal with
           | H : (_ =? _) = true |- _ => apply N.eqb_eq in H; subst
           end;
    intuition congruence.
Qed.

Lemma drop_space_keeps (s : jsstring) (c : code) :
  In c s -> is_space c = false -> In c (drop_space s).
Proof.
  intros Hin Hc. induction s as [|d s IH]; [destruct Hin|].
  simpl. destruct (is_space d) eqn:Ed.
  - destruct Hin as [->|Hin]; [congruence|]. apply IH. exact Hin.
  - exact Hin.
Qed.

(** Trimming keeps every character that is not whitespace. *)
Lemma trim_keeps (s : jsstring) (c : code) :
  In c s -> is_space c = false -> In c (trim s).
Proof.
  intros Hin Hc. unfold trim. rewrite <- in_rev.
  apply drop_space_keeps; [|exact Hc]. rewrite <- in_rev.
  apply drop_space_keeps; assumption.
Qed.

(** Every character but the separator is in some piece of the split. *)
Lemma split_on_cover (sep : code) (s : jsstring) (c : code) :
  In c s -> c <> sep -> exists l, In l (split_on sep s) /\ In c l.
Proof.
  intros Hin Hne. induction s as [|d s IH]; [destruct Hin|].
  simpl. destruct (N.eqb_spec d sep) as [->|Hd].
  - destruct Hin as [->|Hin]; [congruence|].
    destruct (IH Hin) as [l [Hl Hc]]. exists l. split; [right; exact Hl|exact Hc].
  - pose proof (split_on_nonnil sep s) as Hnn.
    destruct (split_on sep s) as [|l0 ls]; [congruence|].
    destruct Hin as [->|Hin].
    + exists (c :: l0). split; left; reflexivity.
    + destruct (IH Hin) as [l [[<-|Hl] Hc]].
      * exists (d :: l0). split; [left; reflexivity|right; exact Hc].
      * exists l. split; [right; exact Hl|exact Hc].
Qed.


Lemma search_later (P : jsstring -> bool) (c : code) (s : jsstring) :
  search P s = true -> search P (c :: s) = true.
Proof. intros H. simpl. rewrite H. apply orb_true_r. Qed.

Lemma search_app_r (P : jsstring -> bool) (a b : jsstring) :
  search P b = true -> search P (a ++ b) = true.
Proof.
  intros H. induction a as [|c a IH]; [exact H|].
  simpl app. apply search_later. exact IH.
Qed.

(** A successful unanchored test succeeds at some offset. *)
Lemma search_offset (P : jsstring -> bool) (s : jsstring) :
  search P s = true <-> exists p, (p <= List.length s)%nat /\ P (skipn p s) = true.
Proof.
  induction s as [|c s IH].
  - simpl. rewrite orb_false_r. split.
    + intros H. exists 0%nat. auto.
    + intros [p [Hp H]]. destruct p; [exact H|simpl in Hp; lia].
  - simpl search. rewrite orb_true_iff, IH. split.
    + intros [H|[p [Hp H]]].
      * exists 0%nat. split; [lia|exact H].
      * exists (S p). split; [simpl; lia|exact H].
    + intros [[|p] [Hp H]].
      * left. exact H.
      * right. exists p. split; [simpl in Hp; lia|exact H].
Qed.

Lemma prefix_ci_app (pat s rest v : jsstring) :
  prefix_ci pat s = Some rest -> prefix_ci pat (s ++ v) = Some (rest ++ v).
Proof.
  revert s. induction pat as [|p pat IH]; intros s; simpl.
  - intros [= ->]. reflexivity.
  - destruct s as [|c s]; [discriminate|]. simpl.
    destruct (ci_eqb p c); [apply IH|discriminate].
Qed.

End StringFacts.

(** ** The STL repairer *)

Section StlRepair.

Import Stl.

Lemma line_char_not_lf (c : code) : line_char c = true -> c <> LF.
Proof.
  unfold line_char. rewrite !andb_true_iff, !negb_true_iff.
  intros [_ H]. apply N.eqb_neq. exact H.
Qed.

Lemma sanitize_chars (x : jsstring) (c : code) :
  In c (sanitize x) -> printable c = true /\ c <> CR /\ c <> COMMA.
Proof.
  unfold sanitize. intros H. apply filter_In in H. destruct H as [H Hp].
  split; [exact Hp|].
  apply in_map_iff in H. destruct H as [d [Hd Hin]].
  unfold comma_to_space in Hd. split.
  - intros ->. destruct (N.eqb_spec d COMMA); [discriminate Hd|].
    subst d. exact (normalize_newlines_no_cr x Hin).
  - intros ->. destruct (N.eqb_spec d COMMA); [discriminate Hd|congruence].
Qed.

Lemma body_lines_good (x : jsstring) : Forall good_line (body_lines x).
Proof.
  apply Forall_forall. intros l Hl. unfold body_lines in Hl.
  apply filter_In in Hl. destruct Hl as [Hl Hne].
  apply in_map_iff in Hl. destruct Hl as [m [<- Hm]].
  split; [|split].
  - destruct (trim m); [discriminate Hne|discriminate].
  - apply trim_is_trimmed.
  - apply Forall_forall. intros c Hc. apply trim_incl in Hc.
    destruct (split_on_chars _ _ _ _ Hm Hc) as [Hin Hlf].
    destruct (sanitize_chars _ _ Hin) as [Hp [Hcr Hco]].
    unfold line_char. rewrite Hp. simpl.
    apply N.eqb_neq in Hcr, Hco, Hlf. rewrite Hcr, Hco, Hlf. reflexivity.
Qed.

Lemma sanitize_fixed (t : jsstring) :
  Forall (fun c => printable c = true /\ c <> CR /\ c <> COMMA) t -> sanitize t = t.
Proof.
  intros H. unfold sanitize.
  rewrite normalize_newlines_fixed.
  2:{ intros Hin. rewrite Forall_forall in H. destruct (H _ Hin) as [_ [Hcr _]]. congruence. }
  induction H as [|c t [Hp [Hcr Hco]] _ IH]; [reflexivity|].
  assert (comma_to_space c = c) as Hc.
  { unfold comma_to_space. apply N.eqb_neq in Hco. rewrite Hco. reflexivity. }
  simpl. rewrite Hc, Hp. f_equal. exact IH.
Qed.

(** A text in normal form passes the line pipeline unchanged. *)
Lemma stl_body_fixed (ls : list jsstring) :
  ls <> [] -> Forall good_line ls -> stl_body (join [LF] ls) = join [LF] ls.
Proof.
  intros Hne Hgood. unfold stl_body, body_lines.
  rewrite sanitize_fixed.
  2:{ apply Forall_forall. intros c Hc. apply join_chars in Hc.
      destruct Hc as [->|[l [Hl Hc]]].
      - repeat split; discriminate.
      - rewrite Forall_forall in Hgood. destruct (Hgood _ Hl) as [_ [_ Hch]].
        rewrite Forall_forall in Hch. specialize (Hch _ Hc).
        unfold line_char in Hch. rewrite !andb_true_iff, !negb_true_iff in Hch.
        destruct Hch as [[[Hp Hcr] Hco] _].
        apply N.eqb_neq in Hcr, Hco. auto. }
  rewrite split_join; [|exact Hne|].
  2:{ eapply Forall_impl; [|exact Hgood]. intros l [_ [_ Hch]] Hin.
      rewrite Forall_forall in Hch. exact (line_char_not_lf _ (Hch _ Hin) eq_refl). }
  f_equal. clear Hne.
  induction Hgood as [|l ls [Hl [Ht _]] _ IH]; [reflexivity|].
  simpl. rewrite (trim_fixed _ Ht).
  destruct l; [congruence|]. simpl. f_equal. exact IH.
Qed.

Lemma good_solid_model : good_line (lit "solid model").
Proof.
  split; [discriminate|]. split; [split; reflexivity|].
  repeat constructor.
Qed.

Lemma good_endsolid_model : good_line (lit "endsolid model").
Proof.
  split; [discriminate|]. split; [split; reflexivity|].
  repeat constructor.
Qed.

Lemma starts_with_word_app (kw t u : jsstring) :
  starts_with_word kw t = true -> starts_with_word kw (t ++ LF :: u) = true.
Proof.
  unfold starts_with_word. destruct (prefix_ci kw t) as [rest|] eqn:E; [|discriminate].
  rewrite (prefix_ci_app _ _ _ (LF :: u) E). destruct rest; intros H; [reflexivity|exact H].
Qed.

Lemma test_solid_ensure_solid (t : jsstring) : test_solid (ensure_solid t) = true.
Proof.
  unfold ensure_solid. destruct (test_solid t) eqn:E; [exact E|reflexivity].
Qed.

Lemma test_endsolid_ensure_endsolid (t : jsstring) :
  test_endsolid (ensure_endsolid t) = true.
Proof.
  unfold ensure_endsolid. destruct (test_endsolid t) eqn:E; [exact E|].
  unfold test_endsolid. apply search_app_r. reflexivity.
Qed.

Lemma test_solid_ensure_endsolid (t : jsstring) :
  test_solid t = true -> test_solid (ensure_endsolid t) = true.
Proof.
  intros H. unfold ensure_endsolid. destruct (test_endsolid t); [exact H|].
  apply starts_with_word_app. exact H.
Qed.

(** The output always passes both header tests. *)
Lemma repairStlText_tests (x : jsstring) :
  test_solid (repairStlText x) = true /\ test_endsolid (repairStlText x) = true.
Proof.
  unfold repairStlText. split.
  - apply test_solid_ensure_endsolid, test_solid_ensure_solid.
  - apply test_endsolid_ensure_endsolid.
Qed.

Lemma body_lines_nonempty (x : jsstring) : stl_body x <> [] -> body_lines x <> [].
Proof. unfold stl_body. destruct (body_lines x); [simpl; congruence|discriminate]. Qed.

Lemma visible_spec (c : code) :
  visible c = true <->
  printable c = true /\ is_space c = false /\ c <> COMMA.
Proof.
  unfold visible, printable, is_space, in_range, COMMA.
  rewrite !andb_true_iff, negb_true_iff, !orb_true_iff, !orb_false_iff, !andb_true_iff,
    !andb_false_iff, !N.eqb_eq, !N.eqb_neq, !N.leb_le, !N.leb_gt.
  lia.
Qed.

Lemma join_nonempty (sep l : jsstring) (ls : list jsstring) :
  l <> [] -> join sep (l :: ls) <> [].
Proof.
  intros Hl. destruct l as [|c l]; [congruence|].
  destruct ls; simpl; discriminate.
Qed.

(** The body is not empty exactly when the input has a visible character. *)
Lemma stl_body_nonempty_iff (x : jsstring) :
  stl_body x <> [] <-> existsb visible x = true.
Proof.
  rewrite existsb_exists. split.
  - intros Hne. pose proof (body_lines_nonempty _ Hne) as Hls.
    pose proof (body_lines_good x) as Hgood.
    destruct (body_lines x) as [|l ls] eqn:E; [congruence|].
    inversion Hgood as [|? ? [Hl [[Ht _] Hch]] _]; subst.
    destruct l as [|c l]; [congruence|].
    assert (In (c :: l) (body_lines x)) as Hin by (rewrite E; left; reflexivity).
    unfold body_lines in Hin. apply filter_In in Hin. destruct Hin as [Hin _].
    apply in_map_iff in Hin. destruct Hin as [m [Hm Hin]].
    assert (In c (trim m)) as Hc by (rewrite Hm; left; reflexivity).
    apply trim_incl in Hc. destruct (split_on_chars _ _ _ _ Hin Hc) as [Hs Hlf].
    destruct (sanitize_chars _ _ Hs) as [Hp [Hcr Hco]].
    assert (is_space c = false) as Hsp.
    { simpl in Ht. destruct (is_space c); [|reflexivity].
      exfalso. pose proof (drop_space_suffix l) as [p Hp']. 
      apply (f_equal (@List.length _)) in Ht. rewrite Hp' in Ht at 2.
      simpl in Ht. rewrite length_app in Ht. lia. }
    exists c. split; [|apply visible_spec; auto].
    unfold sanitize in Hs. apply filter_In in Hs. destruct Hs as [Hs _].
    apply in_map_iff in Hs. destruct Hs as [d [Hd Hdin]].
    unfold comma_to_space in Hd. destruct (N.eqb_spec d COMMA).
    + subst c. discriminate Hsp.
    + subst d. destruct (normalize_newlines_incl _ _ Hdin) as [->|H]; [congruence|exact H].
  - intros [c [Hin Hv]]. apply visible_spec in Hv. destruct Hv as [Hp [Hsp Hco]].
    assert (c <> CR /\ c <> LF) as [Hcr Hlf] by (split; intros ->; discriminate Hsp).
    assert (In c (sanitize x)) as Hs.
    { unfold sanitize. apply filter_In. split; [|exact Hp].
      apply in_map_iff. exists c. split.
      - unfold comma_to_space. apply N.eqb_neq in Hco. rewrite Hco. reflexivity.
      - apply normalize_newlines_keeps; assumption. }
    destruct (split_on_cover LF _ _ Hs Hlf) as [l [Hl Hc]].
    pose proof (trim_keeps _ _ Hc Hsp) as Ht.
    assert (In (trim l) (body_lines x)) as Hb.
    { unfold body_lines. apply filter_In. split.
      - apply in_map. exact Hl.
      - destruct (trim l); [destruct Ht|reflexivity]. }
    unfold stl_body. destruct (body_lines x) as [|l0 ls] eqn:E; [destruct Hb|].
    apply join_nonempty.
    pose proof (body_lines_good x) as Hgood. rewrite E in Hgood.
    inversion Hgood as [|? ? [Hl0 _] _]; subst. exact Hl0.
Qed.

(** With a non-empty body the output is in normal form. *)
Lemma repairStlText_normal_form (x : jsstring) :
  stl_body x <> [] ->
  exists ls, ls <> [] /\ Forall good_line ls /\ repairStlText x = join [LF] ls.
Proof.
  intros Hne. pose proof (body_lines_nonempty _ Hne) as Hls.
  pose proof (body_lines_good x) as Hgood.
  unfold repairStlText, stl_body in *. set (ls := body_lines x) in *. clearbody ls.
  assert (exists ls1, ls1 <> [] /\ Forall good_line ls1 /\
                      ensure_solid (join [LF] ls) = join [LF] ls1) as [ls1 [H1 [G1 E1]]].
  { unfold ensure_solid. destruct (test_solid (join [LF] ls)).
    - exists ls. auto.
    - exists (lit "solid model" :: ls). split; [discriminate|]. split.
      + constructor; [exact good_solid_model|exact Hgood].
      + rewrite join_cons by exact Hls. reflexivity. }
  rewrite E1. unfold ensure_endsolid. destruct (test_endsolid (join [LF] ls1)).
  - exists ls1. auto.
  - exists (ls1 ++ [lit "endsolid model"]). split; [destruct ls1; discriminate|]. split.
    + apply Forall_app. split; [exact G1|]. constructor; [exact good_endsolid_model|constructor].
    + rewrite join_snoc by exact H1. reflexivity.
Qed.

(** A text in normal form that passes both tests is left alone. *)
Lemma repairStlText_fixed (ls : list jsstring) :
  ls <> [] -> Forall good_line ls ->
  test_solid (join [LF] ls) = true -> test_endsolid (join [LF] ls) = true ->
  repairStlText (join [LF] ls) = join [LF] ls.
Proof.
  intros Hne Hgood Hs He. unfold repairStlText.
  rewrite (stl_body_fixed ls Hne Hgood).
  unfold ensure_solid. rewrite Hs. unfold ensure_endsolid. rewrite He. reflexivity.
Qed.

(** C1 (as amended): on every input that has a visible character, so that
    at least one non-blank line is left after cleaning, repairing twice is
    the same as repairing once.  [repairStlText] is a function of its
    argument alone. *)
Theorem repairStlText_idempotent (x : jsstring) :
  existsb visible x = true -> repairStlText (repairStlText x) = repairStlText x.
Proof.
  intros Hv. apply stl_body_nonempty_iff in Hv.
  destruct (repairStlText_normal_form _ Hv) as [ls [Hls [Hgood E]]].
  destruct (repairStlText_tests x) as [Hs He].
  rewrite E in *. apply repairStlText_fixed; assumption.
Qed.

Lemma repairStlText_idempotent_witness :
  existsb visible (lit "solid part, facet") = true /\
  repairStlText (repairStlText (lit "solid part, facet"))
  = repairStlText (lit "solid part, facet").
Proof.
  split; [reflexivity|]. apply repairStlText_idempotent. reflexivity.
Defined.

(** When nothing is left of the input, the output is the two synthetic lines
    around an empty one. *)
Lemma repairStlText_blank_body (x : jsstring) :
  existsb visible x = false ->
  repairStlText x = lit "solid model" ++ [LF; LF] ++ lit "endsolid model".
Proof.
  intros H. destruct (list_eq_dec N.eq_dec (stl_body x) []) as [E|E].
  - unfold repairStlText. rewrite E. reflexivity.
  - apply stl_body_nonempty_iff in E. congruence.
Qed.

(** C1 as stated fails: a lone comma, like the empty text, is repaired to a
    text with a blank line between the two synthetic lines, and a second
    pass drops that line. *)
Lemma repairStlText_not_idempotent :
  repairStlText (lit ",") = lit "solid model" ++ [LF; LF] ++ lit "endsolid model" /\
  repairStlText (repairStlText (lit ","))
  = lit "solid model" ++ [LF] ++ lit "endsolid model" /\
  repairStlText (repairStlText (lit ",")) <> repairStlText (lit ",") /\
  repairStlText (repairStlText []) <> repairStlText [].
Proof.
  split; [reflexivity|]. split; [reflexivity|].
  split; vm_compute; discriminate.
Qed.

End StlRepair.

(** ** Opener and closer of the repaired text *)

Section StlGuarantee.

Import Stl.











End StlGuarantee.

(** ** The SCAD repairer *)

Section ScadRepair.

Import Scad.

Lemma span_spec (p : code -> bool) (s a b : jsstring) :
  span p s = (a, b) ->
  s = a ++ b /\ forallb p a = true /\
  match b with [] => True | c :: _ => p c = false end.
Proof.
  revert a b. induction s as [|c s IH]; intros a b; simpl.
  - intros [= <- <-]. auto.
  - destruct (p c) eqn:E.
    + destruct (span p s) as [a' b'] eqn:Es. intros [= <- <-].
      destruct (IH _ _ eq_refl) as [-> [Ha Hb]]. simpl. rewrite E. auto.
    + intros [= <- <-]. simpl. auto.
Qed.

(** What the prefix pattern matches: whitespace, an identifier, whitespace,
    the equals sign, whitespace; group 1 is the leading whitespace. *)
Lemma match_assign_prefix_spec (w ws rest : jsstring) :
  match_assign_prefix w = Some (ws, rest) ->
  exists ident gap1 gap2,
    w = ws ++ ident ++ gap1 ++ [EQUALS] ++ gap2 ++ rest /\
    forallb is_space ws = true /\ is_identifier ident = true /\
    forallb is_space gap1 = true /\ forallb is_space gap2 = true.
Proof.
  unfold match_assign_prefix.
  destruct (span is_space w) as [ws0 s1] eqn:E0.
  destruct s1 as [|c s2]; [discriminate|].
  destruct (is_ident_start c) eqn:Ec; [|discriminate].
  destruct (span is_word s2) as [id s3] eqn:E1.
  destruct (span is_space s3) as [g1 s4] eqn:E2.
  destruct s4 as [|e s5]; [discriminate|].
  destruct (N.eqb_spec e EQUALS) as [->|]; [|discriminate].
  destruct (span is_space s5) as [g2 s6] eqn:E3.
  intros [= <- <-].
  destruct (span_spec _ _ _ _ E0) as [-> [H0 _]].
  destruct (span_spec _ _ _ _ E1) as [-> [H1 _]].
  destruct (span_spec _ _ _ _ E2) as [-> [H2 _]].
  destruct (span_spec _ _ _ _ E3) as [-> [H3 _]].
  exists (c :: id), g1, g2.
  split; [reflexivity|]. split; [exact H0|]. split; [|split; assumption].
  simpl. rewrite Ec, H1. reflexivity.
Qed.

Lemma match_assignment_spec (w ws rest : jsstring) :
  match_assignment w = Some (ws, rest) ->
  geometry_keyword_at rest = true /\
  exists ident gap1 gap2,
    w = ws ++ ident ++ gap1 ++ [EQUALS] ++ gap2 ++ rest /\
    forallb is_space ws = true /\ is_identifier ident = true /\
    forallb is_space gap1 = true /\ forallb is_space gap2 = true.
Proof.
  unfold match_assignment.
  destruct (match_assign_prefix w) as [[ws0 rest0]|] eqn:E; [|discriminate].
  destruct (geometry_keyword_at rest0) eqn:K; [|discriminate].
  intros [= <- <-]. split; [exact K|]. exact (match_assign_prefix_spec _ _ _ E).
Qed.

(** A rewritten line is strictly shorter than it was. *)
Lemma match_assignment_shrinks (w ws rest : jsstring) :
  match_assignment w = Some (ws, rest) ->
  (List.length (ws ++ rest) < List.length w)%nat.
Proof.
  intros H. destruct (match_assignment_spec _ _ _ H) as [_ [ident [g1 [g2 [-> _]]]]].
  rewrite !length_app. simpl. lia.
Qed.

Lemma span_app (p : code -> bool) (a b : jsstring) :
  forallb p a = true -> next_fails p b -> span p (a ++ b) = (a, b).
Proof.
  intros Ha Hb. induction a as [|c a IH]; simpl in *.
  - destruct b as [|d b]; [reflexivity|]. simpl in Hb |- *. rewrite Hb. reflexivity.
  - apply andb_true_iff in Ha. destruct Ha as [Hc Ha]. rewrite Hc, (IH Ha). reflexivity.
Qed.

Lemma space_not_word (c : code) : is_space c = true -> is_word c = false.
Proof.
  unfold is_space, is_word, in_range.
  rewrite !orb_true_iff, !orb_false_iff, !andb_true_iff, !andb_false_iff,
    !N.eqb_eq, !N.eqb_neq, !N.leb_le, !N.leb_gt.
  lia.
Qed.

Lemma ident_start_not_space (c : code) : is_ident_start c = true -> is_space c = false.
Proof.
  unfold is_space, is_ident_start, in_range.
  rewrite !orb_true_iff, !orb_false_iff, !andb_true_iff, !andb_false_iff,
    !N.eqb_eq, !N.eqb_neq, !N.leb_le, !N.leb_gt.
  lia.
Qed.

(** What matches a lower-case pattern letter is a letter. *)
Lemma ci_letter (p c : code) :
  in_range 97 122 p = true -> ci_eqb p c = true -> is_ident_start c = true.
Proof.
  unfold ci_eqb, upper, is_ident_start. intros Hp. rewrite Hp.
  unfold in_range in *. apply andb_true_iff in Hp. destruct Hp as [H1 H2].
  apply N.leb_le in H1, H2. intros H. apply N.eqb_eq in H.
  destruct (N.leb_spec 97 c), (N.leb_spec c 122); cbn [andb] in *.
  - rewrite orb_true_r. reflexivity.
  - assert (65 <= c <= 90) as [Ha Hb] by lia.
    apply N.leb_le in Ha, Hb. rewrite Ha, Hb. reflexivity.
  - assert (65 <= c <= 90) as [Ha Hb] by lia.
    apply N.leb_le in Ha, Hb. rewrite Ha, Hb. reflexivity.
  - assert (65 <= c <= 90) as [Ha Hb] by lia.
    apply N.leb_le in Ha, Hb. rewrite Ha, Hb. reflexivity.
Qed.

(** A geometry keyword starts with a letter. *)
Lemma geometry_keyword_head (s : jsstring) :
  geometry_keyword_at s = true -> next_fails is_space s /\ s <> [].
Proof.
  unfold geometry_keyword_at. rewrite existsb_exists. intros [kw [Hkw H]].
  destruct s as [|c s]; [|split; [|discriminate]].
  - exfalso. unfold starts_with_word in H.
    repeat (destruct Hkw as [<-|Hkw]; [discriminate H|]). destruct Hkw.
  - simpl. apply ident_start_not_space. unfold starts_with_word in H.
    repeat (destruct Hkw as [<-|Hkw];
            [cbn [lit List.map list_ascii_of_string prefix_ci] in H;
             match type of H with
             | context [ci_eqb ?p c] =>
                 destruct (ci_eqb p c) eqn:E; [|discriminate H];
                 exact (ci_letter p c eq_refl E)
             end|]).
    destruct Hkw.
Qed.

(** The pattern of the repairer, read as a shape: an assignment of something
    that starts with a geometry keyword. *)
Lemma match_assignment_iff (w ws rest : jsstring) :
  match_assignment w = Some (ws, rest) <-> assignment_shape w ws rest.
Proof.
  split.
  - intros H. destruct (match_assignment_spec _ _ _ H) as [Hk [ident [g1 [g2 Hd]]]].
    exists ident, g1, g2. intuition.
  - intros [ident [g1 [g2 [-> [Hws [Hid [H1 [H2 Hk]]]]]]]].
    destruct ident as [|c id]; [discriminate Hid|].
    simpl in Hid. apply andb_true_iff in Hid. destruct Hid as [Hc Hid].
    destruct (geometry_keyword_head _ Hk) as [Hrest _].
    unfold match_assignment, match_assign_prefix.
    rewrite (span_app is_space ws ((c :: id) ++ g1 ++ [EQUALS] ++ g2 ++ rest) Hws)
      by (simpl; apply ident_start_not_space; exact Hc).
    cbn [app]. rewrite Hc.
    rewrite (span_app is_word id (g1 ++ EQUALS :: g2 ++ rest) Hid).
    2:{ destruct g1 as [|d g1]; [reflexivity|]. simpl in H1 |- *.
        apply andb_true_iff in H1. apply space_not_word. apply H1. }
    rewrite (span_app is_space g1 (EQUALS :: g2 ++ rest) H1) by reflexivity.
    rewrite N.eqb_refl.
    rewrite (span_app is_space g2 rest H2 Hrest).
    rewrite Hk. reflexivity.
Qed.

Lemma rewrites_iff_shape (i : nat) (line : jsstring) :
  rewrites i line = true <->
  exists ws rest, assignment_shape (working_line i line) ws rest.
Proof.
  unfold rewrites. split.
  - destruct (match_assignment (working_line i line)) as [[ws rest]|] eqn:E; [|discriminate].
    intros _. exists ws, rest. apply match_assignment_iff. exact E.
  - intros [ws [rest H]]. apply match_assignment_iff in H. rewrite H. reflexivity.
Qed.

Lemma fix_line_rewritten (i : nat) (line : jsstring) :
  rewrites i line = true ->
  snd (fix_line i line) = true /\ fst (fix_line i line) <> working_line i line.
Proof.
  unfold rewrites, fix_line. fold (working_line i line).
  destruct (match_assignment (working_line i line)) as [[ws rest]|] eqn:E; [|discriminate].
  intros _. split; [reflexivity|]. simpl. intros Heq.
  pose proof (match_assignment_shrinks _ _ _ E) as Hlt. rewrite Heq in Hlt. lia.
Qed.

Lemma fix_line_kept (i : nat) (line : jsstring) :
  rewrites i line = false ->
  fix_line i line = (working_line i line, false).
Proof.
  unfold rewrites, fix_line. fold (working_line i line).
  destruct (match_assignment (working_line i line)) as [[ws rest]|]; [discriminate|reflexivity].
Qed.

Lemma snd_fix_line (i : nat) (line : jsstring) : snd (fix_line i line) = rewrites i line.
Proof.
  destruct (rewrites i line) eqn:E.
  - apply fix_line_rewritten. exact E.
  - rewrite (fix_line_kept _ _ E). reflexivity.
Qed.

Lemma mapi_from_nth {A B : Type} (f : nat -> A -> B) (k : nat) (l : list A) (i : nat) :
  nth_error (mapi_from f k l) i = option_map (f (k + i)%nat) (nth_error l i).
Proof.
  revert k i. induction l as [|x l IH]; intros k i.
  - destruct i; reflexivity.
  - destruct i as [|i]; simpl.
    + rewrite Nat.add_0_r. reflexivity.
    + rewrite IH. replace (S k + i)%nat with (k + S i)%nat by lia. reflexivity.
Qed.

Lemma existsb_nth {A : Type} (p : A -> bool) (l : list A) :
  existsb p l = true <-> exists i x, nth_error l i = Some x /\ p x = true.
Proof.
  rewrite existsb_exists. split.
  - intros [x [Hin Hp]]. destruct (In_nth_error _ _ Hin) as [i Hi]. exists i, x. auto.
  - intros [i [x [Hi Hp]]]. exists x. split; [exact (nth_error_In _ _ Hi)|exact Hp].
Qed.

(** The flag is set exactly when some line matches the pattern. *)
Lemma changed_iff_rewrites (inputText : jsstring) :
  changed (repairScadText inputText) = true <->
  exists i line, nth_error (input_lines inputText) i = Some line /\ rewrites i line = true.
Proof.
  unfold repairScadText. cbn [changed]. rewrite existsb_nth. split.
  - intros [i [[out flag] [Hi Hflag]]]. rewrite mapi_from_nth in Hi.
    destruct (nth_error (input_lines inputText) i) as [line|] eqn:El; [|discriminate].
    simpl in Hi. injection Hi as Hi. exists i, line. split; [exact El|].
    rewrite <- snd_fix_line, Hi. exact Hflag.
  - intros [i [line [Hi Hr]]]. exists i, (fix_line i line). split.
    + rewrite mapi_from_nth, Hi. reflexivity.
    + rewrite snd_fix_line. exact Hr.
Qed.

Lemma strip_bom_incl (line : jsstring) (c : code) : In c (strip_bom line) -> In c line.
Proof.
  destruct line as [|d line]; [intros []|]. simpl.
  destruct (d =? BOM); [intros H; right; exact H|intros H; exact H].
Qed.

Lemma working_line_incl (i : nat) (line : jsstring) (c : code) :
  In c (working_line i line) -> In c line.
Proof. destruct i; [apply strip_bom_incl|intros H; exact H]. Qed.

(** The returned line is made of characters of the line. *)
Lemma fix_line_incl (i : nat) (line : jsstring) (c : code) :
  In c (fst (fix_line i line)) -> In c line.
Proof.
  unfold fix_line. fold (working_line i line).
  destruct (match_assignment (working_line i line)) as [[ws rest]|] eqn:E; simpl.
  - destruct (match_assignment_spec _ _ _ E) as [_ [ident [g1 [g2 [Hw _]]]]].
    intros H. apply (working_line_incl i). rewrite Hw.
    rewrite !in_app_iff in *. tauto.
  - apply working_line_incl.
Qed.

Lemma mapi_from_length {A B : Type} (f : nat -> A -> B) (k : nat) (l : list A) :
  List.length (mapi_from f k l) = List.length l.
Proof. revert k. induction l as [|x l IH]; intros k; simpl; [reflexivity|]. rewrite IH. reflexivity. Qed.

(** The lines of the returned text are the returned lines. *)
Lemma repairScadText_lines (inputText : jsstring) :
  split_on LF (text (repairScadText inputText))
  = List.map fst (mapi_from fix_line 0 (input_lines inputText)).
Proof.
  unfold repairScadText. cbn [text]. apply split_join.
  - intros H. apply (f_equal (@List.length _)) in H.
    rewrite length_map, mapi_from_length in H.
    pose proof (split_on_nonnil LF (normalize_newlines inputText)) as Hne.
    unfold input_lines in H. destruct (split_on LF (normalize_newlines inputText)); [congruence|discriminate H].
  - apply Forall_forall. intros l Hl Hin.
    apply in_map_iff in Hl. destruct Hl as [[out flag] [<- Hl]].
    destruct (In_nth_error _ _ Hl) as [i Hi]. rewrite mapi_from_nth in Hi.
    destruct (nth_error (input_lines inputText) i) as [line|] eqn:El; [|discriminate].
    simpl in Hi. injection Hi as Hi.
    assert (In LF line) as Hline by (apply (fix_line_incl i); rewrite Hi; exact Hin).
    destruct (split_on_chars _ _ _ _ (nth_error_In _ _ El) Hline) as [_ Hne]. congruence.
Qed.

(** C6: the two documented inputs behave as documented; for every input the
    flag [changed] is true if and only if at least one line was rewritten,
    that is, some line of the returned text differs from the line the
    pattern was tried on (the input line, the first one without its
    byte-order mark); and a line is rewritten exactly when it has the shape
    of an assignment of geometry. *)
Theorem repairScadText_targets_assignment :
  repairScadText (lit "r = sphere(5);")
  = {| text := lit "sphere(5);"; changed := true |} /\
  repairScadText (lit "translate([1,0,0]) cube(2);")
  = {| text := lit "translate([1,0,0]) cube(2);"; changed := false |} /\
  (forall inputText,
     changed (repairScadText inputText) = true <->
     exists i line out,
       nth_error (input_lines inputText) i = Some line /\
       nth_error (split_on LF (text (repairScadText inputText))) i = Some out /\
       out <> working_line i line) /\
  (forall inputText i line out,
     nth_error (input_lines inputText) i = Some line ->
     nth_error (split_on LF (text (repairScadText inputText))) i = Some out ->
     (out <> working_line i line <->
      exists ws rest, assignment_shape (working_line i line) ws rest)).
Proof.
  assert (forall inputText i line out,
            nth_error (input_lines inputText) i = Some line ->
            nth_error (split_on LF (text (repairScadText inputText))) i = Some out ->
            out = fst (fix_line i line)) as Hout.
  { intros inputText i line out Hi Ho.
    rewrite repairScadText_lines, nth_error_map, mapi_from_nth, Hi in Ho.
    simpl in Ho. injection Ho as <-. reflexivity. }
  assert (forall i line, fst (fix_line i line) <> working_line i line <-> rewrites i line = true)
    as Hdiff.
  { intros i line. split.
    - intros Hne. destruct (rewrites i line) eqn:Hr; [reflexivity|].
      rewrite (fix_line_kept _ _ Hr) in Hne. exfalso. apply Hne. reflexivity.
    - apply fix_line_rewritten. }
  split; [reflexivity|]. split; [reflexivity|]. split.
  - intros inputText. rewrite changed_iff_rewrites. split.
    + intros [i [line [Hi Hr]]]. exists i, line, (fst (fix_line i line)).
      split; [exact Hi|]. split.
      * rewrite repairScadText_lines, nth_error_map, mapi_from_nth, Hi. reflexivity.
      * apply Hdiff. exact Hr.
    + intros [i [line [out [Hi [Ho Hne]]]]]. exists i, line. split; [exact Hi|].
      rewrite (Hout _ _ _ _ Hi Ho) in Hne. apply Hdiff. exact Hne.
  - intros inputText i line out Hi Ho. rewrite (Hout _ _ _ _ Hi Ho).
    rewrite Hdiff. apply rewrites_iff_shape.
Qed.


(** C10: when the input has no carriage return, the returned text has as
    many lines as the input; a line that does not have the shape of an
    assignment of geometry is returned as it is, the first line without its
    leading byte-order mark; a line that has it is returned as its leading
    whitespace followed by everything from the geometry keyword on, the
    identifier, the equals sign and the whitespace around it being removed;
    and [changed] is set exactly when some line has that shape, so removing
    the byte-order mark alone does not set it. *)
Theorem repairScadText_frame (inputText : jsstring) :
  ~ In CR inputText ->
  List.length (split_on LF (text (repairScadText inputText)))
  = List.length (split_on LF inputText) /\
  (forall i line,
      nth_error (split_on LF inputText) i = Some line ->
      exists result,
        nth_error (split_on LF (text (repairScadText inputText))) i = Some result /\
        ((forall ws rest, ~ assignment_shape (working_line i line) ws rest) ->
         result = match i with O => strip_bom line | S _ => line end) /\
        (forall ws rest,
           assignment_shape (working_line i line) ws rest -> result = ws ++ rest)) /\
  (changed (repairScadText inputText) = true <->
   exists i line ws rest,
     nth_error (split_on LF inputText) i = Some line /\
     assignment_shape (working_line i line) ws rest).
Proof.
  intros Hcr.
  assert (input_lines inputText = split_on LF inputText) as Hlines.
  { unfold input_lines. rewrite (normalize_newlines_fixed _ Hcr). reflexivity. }
  rewrite repairScadText_lines, changed_iff_rewrites, Hlines.
  split; [|split].
  - rewrite length_map, mapi_from_length. reflexivity.
  - intros i line Hi. exists (fst (fix_line i line)). split; [|split].
    + rewrite nth_error_map, mapi_from_nth, Hi. reflexivity.
    + intros Hno. rewrite fix_line_kept; [reflexivity|].
      destruct (rewrites i line) eqn:Hr; [|reflexivity].
      apply rewrites_iff_shape in Hr. destruct Hr as [ws [rest Hs]].
      destruct (Hno _ _ Hs).
    + intros ws rest Hs. apply match_assignment_iff in Hs.
      unfold fix_line. fold (working_line i line). rewrite Hs. reflexivity.
  - split.
    + intros [i [line [Hi Hr]]]. apply rewrites_iff_shape in Hr.
      destruct Hr as [ws [rest Hs]]. exists i, line, ws, rest. auto.
    + intros [i [line [ws [rest [Hi Hs]]]]]. exists i, line. split; [exact Hi|].
      apply rewrites_iff_shape. exists ws, rest. exact Hs.
Qed.

Lemma repairScadText_frame_witness :
  ~ In CR (BOM :: lit "cube(1);" ++ [LF] ++ lit "  r = sphere(5);") /\
  text (repairScadText (BOM :: lit "cube(1);" ++ [LF] ++ lit "  r = sphere(5);"))
  = lit "cube(1);" ++ [LF] ++ lit "  sphere(5);" /\
  List.length (split_on LF (text (repairScadText
     (BOM :: lit "cube(1);" ++ [LF] ++ lit "  r = sphere(5);")))) = 2%nat.
Proof.
  assert (~ In CR (BOM :: lit "cube(1);" ++ [LF] ++ lit "  r = sphere(5);")) as Hcr.
  { vm_compute. intros H. repeat (destruct H as [H|H]; [discriminate H|]). exact H. }
  split; [exact Hcr|]. split; [reflexivity|].
  rewrite (proj1 (repairScadText_frame _ Hcr)). reflexivity.
Defined.

(** Removing the byte-order mark does not set the flag. *)
Lemma repairScadText_bom_only :
  repairScadText (BOM :: lit "cube(1);") = {| text := lit "cube(1);"; changed := false |}.
Proof. reflexivity. Qed.

End ScadRepair.

(** ** Compile, repair, recompile *)

Section FixScad.

Import Fixer.

(** One [compileScad] hands the normalised text to the compiler once, or not
    at all when the engine could not be loaded. *)
Lemma compileScad_calls (eng : engine) (text : jsstring) (w : world) :
  new_calls w (snd (compileScad eng text w))
    match eng with
    | LoadFailed _ => []
    | Loaded _ => [Scad.normalizeScadText text]
    end.
Proof.
  unfold new_calls, compileScad, bind, clear_errors, throw, try_catch, render, read_errors, ret.
  destruct eng as [m|r]; simpl.
  - rewrite app_nil_r. reflexivity.
  - destruct (result (r (List.length (calls w)) (Scad.normalizeScadText text))) as [m|[out|]];
      simpl; try reflexivity.
    destruct (nonempty (trim out)); reflexivity.
Qed.

Lemma fixScad_unfold (eng : engine) (text : jsstring) (w : world) :
  fixScad eng text w = fixScad_outcome eng text w.
Proof.
  unfold fixScad, fixScad_outcome, try_catch, bind, ret.
  destruct (compileScad eng text w) as [[out|error] w1]; [reflexivity|].
  destruct (Scad.changed (Scad.repairScadText text)); cbn [negb]; [|reflexivity].
  destruct (compileScad eng (Scad.text (Scad.repairScadText text)) w1) as [[out|e2] w2];
    reflexivity.
Qed.

(** C8: [fixScad] compiles the text once.  If that succeeds nothing else
    happens.  If it fails and the repairer reports no change, the result
    carries the diagnostic of that compile and the compiler is not called
    again.  If the repairer changed the text, the repaired text is compiled
    exactly once and the result of that compile is final.  In every case
    [fixScad] returns, and the compiler is called at most twice. *)
Theorem fixScad_bounded (eng : engine) (text : jsstring) (w : world) :
  let first := compileScad eng text w in
  let repaired := Scad.repairScadText text in
  let second := compileScad eng (Scad.text repaired) (snd first) in
  (exists r, fst (fixScad eng text w) = inl r /\
     match fst first with
     | inl _ =>
         r = {| fixed := text; changed := false; ok := true; errorMessage := None |}
         /\ snd (fixScad eng text w) = snd first
     | inr error =>
         if Scad.changed repaired then
           fixed r = Scad.text repaired /\ changed r = true /\
           ok r = match fst second with inl _ => true | inr _ => false end /\
           errorMessage r = match fst second with inl _ => None | inr e => e end /\
           snd (fixScad eng text w) = snd second
         else
           r = {| fixed := text; changed := false; ok := false; errorMessage := error |}
           /\ snd (fixScad eng text w) = snd first
     end) /\
  (exists new, new_calls w (snd (fixScad eng text w)) new /\
     (List.length new <= 2)%nat /\
     match eng with
     | LoadFailed _ => new = []
     | Loaded _ =>
         new = match fst first with
               | inl _ => [Scad.normalizeScadText text]
               | inr _ =>
                   if Scad.changed repaired
                   then [Scad.normalizeScadText text;
                         Scad.normalizeScadText (Scad.text repaired)]
                   else [Scad.normalizeScadText text]
               end
     end).
Proof.
  cbv zeta. rewrite fixScad_unfold. unfold fixScad_outcome.
  pose proof (compileScad_calls eng text w) as H1.
  destruct (compileScad eng text w) as [[out|error] w1]; cbn [fst snd] in *.
  - split; [eexists; split; [reflexivity|split; reflexivity]|].
    eexists. split; [exact H1|]. destruct eng; simpl; split; auto.
  - pose proof (compileScad_calls eng (Scad.text (Scad.repairScadText text)) w1) as H2.
    destruct (Scad.changed (Scad.repairScadText text)).
    + destruct (compileScad eng (Scad.text (Scad.repairScadText text)) w1) as [[out|e2] w2];
        cbn [fst snd] in *.
      * split; [eexists; split; [reflexivity|repeat split]|].
        unfold new_calls in *. rewrite H2, H1, <- app_assoc.
        eexists. split; [reflexivity|]. destruct eng; simpl; split; auto.
      * split; [eexists; split; [reflexivity|repeat split]|].
        unfold new_calls in *. rewrite H2, H1, <- app_assoc.
        eexists. split; [reflexivity|]. destruct eng; simpl; split; auto.
    + split; [eexists; split; [reflexivity|split; reflexivity]|].
      eexists. split; [exact H1|]. destruct eng; simpl; split; auto.
Qed.

End FixScad.

(** ** The SCAD path of the viewer *)

Section ParseScad.

Import Viewer.

(** [parseScad] hands the compiler's output to the STL parser exactly when
    the output contains the characters [solid\b], backslash included. *)
Lemma parseScad_accepts_iff (env : collaborators) (text out : jsstring) :
  renderToStl env text = CompilerReturned (Some out) ->
  parseScad env text =
  if nonempty out && test_solid_backslash_b out
  then parseStlData env (Text out)
  else ParseThrew (Some compile_failed).
Proof.
  intros H. unfold parseScad. rewrite H.
  destruct out as [|c out]; [reflexivity|].
  cbn [nonempty andb]. destruct (test_solid_backslash_b (c :: out)); reflexivity.
Qed.

(** The compile step of the fixer accepts every output that is not blank. *)
Lemma compileScad_accepts_iff (r : nat -> jsstring -> Fixer.invocation)
    (text : jsstring) (w : Fixer.world) (out : jsstring) :
  Fixer.result (r (List.length (Fixer.calls w)) (Scad.normalizeScadText text))
  = Fixer.Returned (Some out) ->
  fst (Fixer.compileScad (Fixer.Loaded r) text w) =
  if nonempty (trim out) then inl out
  else inr (Fixer.or_else
              (Fixer.getScadErrorMessage
                 (Fixer.printed (r (List.length (Fixer.calls w)) (Scad.normalizeScadText text))))
              (Some (lit "SCAD produced empty output."))).
Proof.
  intros H.
  unfold Fixer.compileScad, Fixer.bind, Fixer.clear_errors, Fixer.throw, Fixer.try_catch,
    Fixer.render, Fixer.read_errors, Fixer.ret.
  cbn [Fixer.calls Fixer.scadErrors fst snd]. rewrite H. cbn iota beta.
  destruct (nonempty (trim out)); reflexivity.
Qed.

(** C3 on the code: the viewer refuses the compiler's STL output.  With a
    compiler that returns [sample_stl], [parseScad] throws the compile
    failure and the STL parser is not consulted, whatever it is; the compile
    step of the fixer accepts the same output. *)
Theorem parseScad_rejects_stl_output
    (stlParser : Sniff.format -> data -> parse_outcome) (modal : bool)
    (source : jsstring) (w : Fixer.world) :
  parseScad {| loaders := stlParser;
               renderToStl := fun _ => CompilerReturned (Some sample_stl);
               repairModal := modal |} source
  = ParseThrew (Some compile_failed) /\
  fst (Fixer.compileScad
         (Fixer.Loaded (fun _ _ => {| Fixer.printed := [];
                                      Fixer.result := Fixer.Returned (Some sample_stl) |}))
         source w)
  = inl sample_stl.
Proof.
  split.
  - erewrite parseScad_accepts_iff by reflexivity. reflexivity.
  - erewrite compileScad_accepts_iff by reflexivity. reflexivity.
Qed.

End ParseScad.

(** ** The repair prompt *)

Section RepairPrompt.

Import Viewer.

(** With [allowRepair] off, loading neither offers a repair nor touches the
    pending text. *)
Lemma loadInput_without_repair (env : collaborators) (f : Sniff.format) (d : data)
    (name : jsstring) (s : state) :
  pendingRepairText (loadInput env f d name false s) = pendingRepairText s /\
  exists new,
    trace (loadInput env f d name false s) = new ++ trace s /\
    forallb (fun e => negb (is_prompt e)) new = true /\
    In (ParserCalled f d) new.
Proof.
  unfold loadInput, clearModel, setStatus, emit.
  destruct (parseByFormat env f d) as [error|[object|]]; cbn [pendingRepairText trace].
  - split; [reflexivity|]. eexists [_; _; _]. split; [reflexivity|].
    split; [reflexivity|]. right. left. reflexivity.
  - destruct (Stats.validateObject object); cbn [pendingRepairText trace].
    + split; [reflexivity|]. eexists [_; _; _]. split; [reflexivity|].
      split; [reflexivity|]. right. left. reflexivity.
    + split; [reflexivity|]. eexists [_; _; _; _]. split; [reflexivity|].
      split; [reflexivity|]. right. right. left. reflexivity.
  - split; [reflexivity|]. eexists [_; _; _]. split; [reflexivity|].
    split; [reflexivity|]. right. left. reflexivity.
Qed.

(** With the modal present, confirming the prompt on a non-empty pending
    text always reloads: the pending text is cleared before it is compared
    with the repaired text. *)
Lemma applyRepair_reloads (env : collaborators) (t : jsstring) (s : state) :
  repairModal env = true -> pendingRepairText s = Some t -> t <> [] ->
  applyRepair env s
  = loadInput env Sniff.Stl (Text (Stl.repairStlText t)) (lit "repaired-model.stl") false
      {| pendingRepairText := None; trace := PromptHidden :: trace s |}.
Proof.
  intros Hm Hp Ht. unfold applyRepair. rewrite Hp.
  destruct t as [|c0 t]; [congruence|].
  unfold hideRepairPrompt. rewrite Hm. cbn [negb pendingRepairText strict_equal].
  rewrite orb_false_r.
  destruct (repairStlText_tests (c0 :: t)) as [Hs _].
  destruct (Stl.repairStlText (c0 :: t)); [discriminate Hs|reflexivity].
Qed.

(** C9 on the code: [unchanged_stl] is pasted, the parser finds no triangle
    in it, and a repair is offered with that text pending.  The repairer
    returns the text as it is, and yet confirming the prompt calls the parser
    on it again; the status that results is the validator's, not the report
    that nothing could be fixed.  The same holds for every pending text: it
    is cleared before it is compared with the repaired text. *)
Theorem applyRepair_always_reparses
    (compiler : jsstring -> scad_outcome)
    (parsers : Sniff.format -> data -> parse_outcome)
    (c : code) (pending : jsstring) (events : list event) :
  let env := {| loaders := finds_nothing; renderToStl := compiler; repairModal := true |} in
  let offered := handleText env unchanged_stl start in
  (pendingRepairText offered = Some unchanged_stl /\
   Stl.repairStlText unchanged_stl = unchanged_stl /\
   trace (applyRepair env offered)
   = [Status (Stats.failure_message Stats.NoTriangles) true;
      ParserCalled Sniff.Stl (Text unchanged_stl);
      Status (lit "Loading STL...") false;
      PromptHidden] ++ trace offered) /\
  applyRepair {| loaders := parsers; renderToStl := compiler; repairModal := true |}
    {| pendingRepairText := Some (c :: pending); trace := events |}
  = loadInput {| loaders := parsers; renderToStl := compiler; repairModal := true |}
      Sniff.Stl (Text (Stl.repairStlText (c :: pending))) (lit "repaired-model.stl") false
      {| pendingRepairText := None; trace := PromptHidden :: events |}.
Proof.
  cbv zeta. split.
  - split; [reflexivity|]. split; [reflexivity|].
    rewrite (applyRepair_reloads _ unchanged_stl); [reflexivity|reflexivity|reflexivity|discriminate].
  - apply applyRepair_reloads; [reflexivity|reflexivity|discriminate].
Qed.

(** The part of C9 that holds: whatever text is confirmed, [applyRepair]
    shows no repair prompt and leaves no text pending. *)
Lemma applyRepair_no_second_offer (env : collaborators) (s : state) :
  repairModal env = true ->
  pendingRepairText (applyRepair env s) = None /\
  exists new,
    trace (applyRepair env s) = new ++ trace s /\
    forallb (fun e => negb (is_prompt e)) new = true.
Proof.
  intros Hm. unfold applyRepair.
  assert (hideRepairPrompt env s
          = {| pendingRepairText := None; trace := PromptHidden :: trace s |}) as Hh.
  { unfold hideRepairPrompt. rewrite Hm. reflexivity. }
  destruct (pendingRepairText s) as [[|c t]|] eqn:Hp; rewrite Hh.
  - split; [reflexivity|]. exists [PromptHidden]. split; reflexivity.
  - cbn [pendingRepairText strict_equal]. rewrite orb_false_r.
    destruct (negb (nonempty (Stl.repairStlText (c :: t)))).
    + split; [reflexivity|]. eexists [_; _]. split; reflexivity.
    + destruct (loadInput_without_repair env Sniff.Stl
                  (Text (Stl.repairStlText (c :: t))) (lit "repaired-model.stl")
                  {| pendingRepairText := None; trace := PromptHidden :: trace s |})
        as [Hpend [new [E [Hnp _]]]].
      split; [exact Hpend|]. exists (new ++ [PromptHidden]). split.
      * rewrite E. cbn [trace]. rewrite <- app_assoc. reflexivity.
      * rewrite forallb_app, Hnp. reflexivity.
  - split; [reflexivity|]. exists [PromptHidden]. split; reflexivity.
Qed.

End RepairPrompt.

(** ** The OFF parser *)

Section OffFacts.

Import Num OffParser.

Lemma parseOff_fixture : parseOff off_fixture = inl square.
Proof. vm_compute. reflexivity. Qed.

(** The loop condition [i < n] is monotone in the counter. *)
Lemma counter_ltb_mono (i j : nat) (n : num) :
  (i <= j)%nat -> ltb (of_nat j) n = true -> ltb (of_nat i) n = true.
Proof.
  intros Hij. unfold of_nat. destruct n as [|[|]|q]; simpl; try (intros H; exact H).
  unfold Qltb. rewrite !negb_true_iff. intros H.
  destruct (Qle_bool q (inject_Z (Z.of_nat i))) eqn:E; [|reflexivity].
  apply Qle_bool_iff in E.
  assert (Qle q (inject_Z (Z.of_nat j))) as Hq.
  { eapply Qle_trans; [exact E|]. rewrite <- Zle_Qle. lia. }
  apply Qle_bool_iff in Hq. congruence.
Qed.

(** The vertex loop fails when it needs more lines than there are. *)
Lemma read_vertices_short (n : num) (lines : list jsstring) (i : nat) (acc : list num) :
  ltb (of_nat (i + List.length lines)) n = true ->
  read_vertices n i acc lines = inr VertexIncomplete \/
  read_vertices n i acc lines = inr VertexInvalid.
Proof.
  revert i acc. induction lines as [|line rest IH]; intros i acc H.
  - simpl in *. rewrite Nat.add_0_r in H. rewrite H. left. reflexivity.
  - cbn [read_vertices].
    rewrite (counter_ltb_mono i (i + List.length (line :: rest)) n) by (simpl; lia || exact H).
    destruct (List.map Number (split_space line)) as [|x [|y [|z more]]]; auto.
    apply IH. simpl in H. replace (S i + List.length rest)%nat with (i + S (List.length rest))%nat by lia.
    exact H.
Qed.

(** The fan of a face with [k] vertices has [k - 2] triangles, and its
    [j]-th triangle joins the first vertex to the vertices [j+1] and [j+2]. *)
Lemma fan_length (first : num) (others : list num) :
  List.length (fan first others) = (3 * (List.length others - 1))%nat.
Proof.
  induction others as [|a [|b rest] IH]; [reflexivity|reflexivity|].
  change (fan first (a :: b :: rest)) with (first :: a :: b :: fan first (b :: rest)).
  cbn [List.length] in *. rewrite IH. lia.
Qed.

Lemma fan_triangle (first : num) (others : list num) (j : nat) :
  (j + 1 < List.length others)%nat ->
  firstn 3 (skipn (3 * j) (fan first others))
  = [first; nth j others NaN; nth (j + 1) others NaN].
Proof.
  revert j. induction others as [|a [|b rest] IH]; intros j Hj; simpl in Hj; try lia.
  change (fan first (a :: b :: rest)) with (first :: a :: b :: fan first (b :: rest)).
  destruct j as [|j].
  - reflexivity.
  - replace (3 * S j)%nat with (S (S (S (3 * j)))) by lia.
    cbn [skipn]. rewrite IH by (simpl; lia). reflexivity.
Qed.

Lemma fan_triangulate_spec (face : list num) :
  List.length (fan_triangulate face) = (3 * (List.length face - 2))%nat /\
  forall j, (j + 2 < List.length face)%nat ->
    firstn 3 (skipn (3 * j) (fan_triangulate face))
    = [nth 0 face NaN; nth (j + 1) face NaN; nth (j + 2) face NaN].
Proof.
  destruct face as [|first others]; [split; [reflexivity|simpl; lia]|].
  cbn [fan_triangulate]. split.
  - rewrite fan_length. simpl. lia.
  - intros j Hj. simpl in Hj. rewrite fan_triangle by lia.
    replace (j + 2)%nat with (S (j + 1)) by lia.
    replace (j + 1)%nat with (S j) by lia. reflexivity.
Qed.

(** What the face loop returns is what it was given plus the triangles of the
    lines it read, in order. *)
Lemma read_faces_spec (n : num) (lines : list jsstring) (i : nat) (acc out : list num) :
  read_faces n i acc lines = inl out ->
  exists used, firstn (List.length used) lines = used /\
               out = acc ++ List.concat (List.map face_indices used).
Proof.
  revert i acc. induction lines as [|line rest IH]; intros i acc; cbn [read_faces].
  - destruct (ltb (of_nat i) n); [discriminate|].
    intros [= <-]. exists []. rewrite app_nil_r. split; reflexivity.
  - destruct (ltb (of_nat i) n).
    + intros H. destruct (IH _ _ H) as [used [Hu ->]].
      exists (line :: used). split; [simpl; rewrite Hu; reflexivity|].
      simpl. rewrite <- app_assoc. reflexivity.
    + intros [= <-]. exists []. rewrite app_nil_r. split; reflexivity.
Qed.

(** *** Whole numbers as binary64 values *)

Lemma pow2_nonneg (e : Z) : (0 <= e)%Z -> Qeq (pow2 e) (inject_Z (2 ^ e)).
Proof. intros H. unfold pow2. rewrite Zpower_Qpower by exact H. reflexivity. Qed.

Lemma Qred_inject_Z (m : Z) : Qred (inject_Z m) = inject_Z m.
Proof.
  unfold Qred, inject_Z.
  pose proof (Z.ggcd_gcd m 1) as Hg. pose proof (Z.ggcd_correct_divisors m 1) as Hd.
  destruct (Z.ggcd m 1) as [g [aa bb]]. cbn [fst snd] in *.
  rewrite Z.gcd_1_r in Hg. subst g. destruct Hd as [Ha Hb].
  replace aa with m by lia. replace bb with 1%Z by lia. reflexivity.
Qed.

Lemma round_half_even_int (q : Q) (n : Z) :
  Qeq q (inject_Z n) -> round_half_even q = n.
Proof.
  intros H. unfold round_half_even. cbv zeta.
  rewrite (Qfloor_comp _ _ H), Qfloor_Z.
  assert (Qltb (Qminus q (inject_Z n)) (1 # 2) = true) as E.
  { unfold Qltb. apply negb_true_iff.
    destruct (Qle_bool (1 # 2) (Qminus q (inject_Z n))) eqn:E; [|reflexivity].
    apply Qle_bool_iff in E. rewrite H in E.
    unfold Qle, Qminus, Qplus, Qopp, inject_Z in E. cbn in E. lia. }
  rewrite E. reflexivity.
Qed.

(** Whole numbers below [2^53] are binary64 values. *)
Lemma round64_int (m : Z) :
  (0 < m < 2 ^ 53)%Z -> round64 (inject_Z m) = Fin (inject_Z m).
Proof.
  intros [Hpos Hlt]. unfold round64.
  assert (Qeq_bool (inject_Z m) 0 = false) as E0.
  { destruct (Qeq_bool (inject_Z m) 0) eqn:E; [|reflexivity].
    apply Qeq_bool_eq in E. unfold Qeq, inject_Z in E. cbn in E. lia. }
  rewrite E0. cbv zeta.
  assert (Qabs (inject_Z m) = inject_Z m) as Ea
    by (unfold Qabs, inject_Z; rewrite Z.abs_eq by lia; reflexivity).
  rewrite Ea.
  pose proof (Z.log2_spec m Hpos) as [Hlo Hhi].
  pose proof (Z.log2_nonneg m) as He0.
  assert (Z.log2 m < 53)%Z as He1 by (apply Z.log2_lt_pow2; lia).
  assert (binade (inject_Z m) = Z.log2 m) as Eb.
  { unfold binade. cbn [Qnum Qden inject_Z]. change (Z.log2 1) with 0%Z.
    rewrite Z.sub_0_r. cbv zeta.
    assert (Qltb (inject_Z m) (pow2 (Z.log2 m)) = false) as El.
    { unfold Qltb. apply negb_false_iff. apply Qle_bool_iff.
      rewrite (pow2_nonneg _ He0), <- Zle_Qle. exact Hlo. }
    change (m # 1)%Q with (inject_Z m). rewrite El. reflexivity. }
  rewrite Eb, Z.max_l by lia.
  set (d := (52 - Z.log2 m)%Z).
  assert (Qeq (pow2 (Z.log2 m - 52)) (/ inject_Z (2 ^ d))) as Eu.
  { replace (Z.log2 m - 52)%Z with (- d)%Z by (unfold d; lia).
    unfold pow2. rewrite Qpower_opp.
    change (2 # 1)%Q with (inject_Z 2). rewrite <- Zpower_Qpower by (unfold d; lia).
    reflexivity. }
  assert (0 < 2 ^ d)%Z as Hd by (apply Z.pow_pos_nonneg; unfold d; lia).
  assert (~ Qeq (inject_Z (2 ^ d)) 0) as Hnz.
  { unfold Qeq, inject_Z. cbn [Qnum Qden]. lia. }
  assert (Qeq (Qdiv (inject_Z m) (pow2 (Z.log2 m - 52))) (inject_Z (m * 2 ^ d))) as Ed.
  { rewrite Eu, inject_Z_mult. unfold Qdiv. rewrite Qinv_involutive. reflexivity. }
  rewrite (round_half_even_int _ _ Ed).
  assert (Qeq (Qmult (inject_Z (m * 2 ^ d)) (pow2 (Z.log2 m - 52))) (inject_Z m)) as Er.
  { rewrite Eu, inject_Z_mult. field. exact Hnz. }
  assert (Qle_bool (pow2 1024) (Qmult (inject_Z (m * 2 ^ d)) (pow2 (Z.log2 m - 52))) = false)
    as Eo.
  { destruct (Qle_bool _ _) eqn:E; [|reflexivity].
    apply Qle_bool_iff in E. rewrite Er, pow2_nonneg in E by lia.
    rewrite <- Zle_Qle in E.
    assert (2 ^ 53 < 2 ^ 1024)%Z by (apply Z.pow_lt_mono_r; lia). lia. }
  rewrite Eo.
  assert (Qltb (inject_Z m) 0 = false) as En.
  { unfold Qltb. apply negb_false_iff. apply Qle_bool_iff.
    unfold Qle, inject_Z. cbn. lia. }
  rewrite En. f_equal. rewrite (Qred_complete _ _ Er). apply Qred_inject_Z.
Qed.

Lemma add_one_of_nat (k : nat) :
  (Z.of_nat k < 2 ^ 53 - 1)%Z -> add (Fin 1) (of_nat k) = of_nat (S k).
Proof.
  intros H. unfold add, of_nat.
  assert (Qplus 1 (inject_Z (Z.of_nat k)) = inject_Z (Z.of_nat (S k))) as E.
  { unfold Qplus, inject_Z. cbn [Qnum Qden]. f_equal. lia. }
  rewrite E. apply round64_int. lia.
Qed.

Lemma ltb_of_nat (i n : nat) : ltb (of_nat i) (of_nat n) = (i <? n)%nat.
Proof.
  unfold ltb, of_nat, Qltb.
  destruct (Nat.ltb_spec i n) as [H|H].
  - apply negb_true_iff. destruct (Qle_bool _ _) eqn:E; [|reflexivity].
    apply Qle_bool_iff in E. rewrite <- Zle_Qle in E. lia.
  - apply negb_false_iff. apply Qle_bool_iff. rewrite <- Zle_Qle. lia.
Qed.

(** The vertex loop adds three numbers per round and stops at the first
    counter that is not below the count. *)
Lemma read_vertices_spec (v : num) (lines : list jsstring) (i : nat)
    (acc out : list num) (rest : list jsstring) :
  read_vertices v i acc lines = inl (out, rest) ->
  exists k,
    List.length out = (List.length acc + 3 * k)%nat /\
    ltb (of_nat (i + k)) v = false /\
    (forall j, (i <= j < i + k)%nat -> ltb (of_nat j) v = true) /\
    (k <= List.length lines)%nat /\ rest = skipn k lines.
Proof.
  revert i acc. induction lines as [|line more IH]; intros i acc; cbn [read_vertices].
  - destruct (ltb (of_nat i) v) eqn:E; [discriminate|].
    intros [= <- <-]. exists 0%nat. rewrite !Nat.add_0_r.
    split; [reflexivity|]. split; [exact E|]. split; [intros j Hj; lia|].
    split; [apply Nat.le_refl|reflexivity].
  - destruct (ltb (of_nat i) v) eqn:E.
    + destruct (List.map Number (split_space line)) as [|x [|y [|z tail]]];
        try discriminate.
      intros H. destruct (IH _ _ H) as [k [Hlen [Hstop [Hrun [Hk Hrest]]]]].
      exists (S k). rewrite length_app in Hlen. cbn [List.length] in *.
      split; [lia|].
      split; [replace (i + S k)%nat with (S i + k)%nat by lia; exact Hstop|].
      split; [|split; [lia|exact Hrest]].
      intros j Hj. destruct (Nat.eq_dec j i) as [->|Hne]; [exact E|].
      apply Hrun. lia.
    + intros [= <- <-]. exists 0%nat. rewrite !Nat.add_0_r.
      split; [reflexivity|]. split; [exact E|]. split; [intros j Hj; lia|].
      split; [apply Nat.le_0_l|reflexivity].
Qed.

Lemma fan_explicit (first : num) (others : list num) :
  fan first others
  = List.concat
      (List.map (fun j => [first; nth j others NaN; nth (j + 1) others NaN])
         (seq 0 (List.length others - 1))).
Proof.
  induction others as [|a [|b rest] IH]; [reflexivity|reflexivity|].
  change (fan first (a :: b :: rest)) with (first :: a :: b :: fan first (b :: rest)).
  rewrite IH. cbn [List.length Nat.sub]. rewrite Nat.sub_0_r.
  change (seq 0 (S (List.length rest))) with (0%nat :: seq 1 (List.length rest)).
  rewrite <- seq_shift. cbn [List.map List.concat app nth Nat.add].
  rewrite map_map. reflexivity.
Qed.

Lemma fan_triangulate_explicit (face : list num) :
  fan_triangulate face = fan_triangles face.
Proof.
  unfold fan_triangles. destruct face as [|first others]; [reflexivity|].
  cbn [fan_triangulate]. rewrite fan_explicit.
  replace (List.length (first :: others) - 2)%nat with (List.length others - 1)%nat
    by (cbn [List.length]; lia).
  f_equal. apply map_ext. intros j. cbn [nth].
  replace (j + 1)%nat with (S j) by lia. replace (j + 2)%nat with (S (S j)) by lia.
  reflexivity.
Qed.

Lemma firstn_min {A : Type} (k : nat) (l : list A) :
  firstn (Nat.min k (List.length l)) l = firstn k l.
Proof.
  destruct (Nat.le_ge_cases k (List.length l)) as [H|H].
  - rewrite Nat.min_l by exact H. reflexivity.
  - rewrite Nat.min_r by exact H. rewrite firstn_all, firstn_all2 by exact H. reflexivity.
Qed.

(** [parts.slice(1, 1 + k)] for a whole [k] is the first [k] entries after
    the count. *)
Lemma slice_face_whole (k : nat) (idxs : list num) :
  (Z.of_nat k < 2 ^ 53 - 1)%Z ->
  slice_face (of_nat k :: idxs) (of_nat k) = firstn k idxs.
Proof.
  intros Hk. unfold slice_face. rewrite (add_one_of_nat k Hk).
  unfold of_nat. rewrite Qfloor_Z. cbn [skipn List.length].
  rewrite <- Nat2Z.inj_min, Nat2Z.id.
  rewrite <- Nat.succ_min_distr. cbn [Nat.sub]. rewrite Nat.sub_0_r.
  apply firstn_min.
Qed.

(** A face line with a whole count of at least three and at least three
    entries after it contributes the fan of the entries the count covers. *)
Lemma face_indices_fan (line : jsstring) (k : nat) (idxs : list num) :
  List.map Number (split_space line) = of_nat k :: idxs ->
  (3 <= k)%nat -> (3 <= List.length idxs)%nat -> (Z.of_nat k < 2 ^ 53 - 1)%Z ->
  face_indices line = fan_triangles (firstn k idxs).
Proof.
  intros Hp Hk Hlen Hbound. unfold face_indices. rewrite Hp. cbv zeta.
  replace (List.length (of_nat k :: idxs) <? 4)%nat with false
    by (symmetry; apply Nat.ltb_ge; cbn [List.length]; lia).
  change (Fin 3) with (of_nat 3). rewrite ltb_of_nat.
  replace (k <? 3)%nat with false by (symmetry; apply Nat.ltb_ge; exact Hk).
  cbn [isFinite of_nat negb orb].
  change (Fin (inject_Z (Z.of_nat k))) with (of_nat k).
  rewrite (slice_face_whole k idxs Hbound). apply fan_triangulate_explicit.
Qed.

(** The vertex loop on a whole count: that many lines are read, each gives
    its first three numbers, and the lines after them are left. *)
Lemma read_vertices_exact (vlines rest : list jsstring) (i : nat) (acc : list num) :
  Forall (fun l => (3 <= List.length (split_space l))%nat) vlines ->
  read_vertices (of_nat (i + List.length vlines)) i acc (vlines ++ rest)
  = inl (acc ++ List.concat (List.map vertex_of vlines), rest).
Proof.
  revert i acc. induction vlines as [|line vlines IH]; intros i acc Hall.
  - cbn [List.length app List.map List.concat]. rewrite Nat.add_0_r, app_nil_r.
    destruct rest as [|l rest]; cbn [read_vertices]; rewrite ltb_of_nat, Nat.ltb_irrefl;
      reflexivity.
  - inversion Hall as [|? ? Hline Hrest]; subst.
    cbn [app read_vertices List.length]. rewrite ltb_of_nat.
    replace (i <? i + S (List.length vlines))%nat with true
      by (symmetry; apply Nat.ltb_lt; lia).
    cbn [List.map List.concat]. unfold vertex_of at 1.
    rewrite <- (length_map Number) in Hline.
    destruct (List.map Number (split_space line)) as [|x [|y [|z more]]];
      cbn [List.length] in Hline; try lia.
    replace (i + S (List.length vlines))%nat with (S i + List.length vlines)%nat by lia.
    rewrite (IH (S i) (acc ++ [x; y; z]) Hrest). cbn [firstn].
    rewrite <- app_assoc. reflexivity.
Qed.

(** The face loop on a whole count, likewise. *)
Lemma read_faces_exact (flines tail : list jsstring) (i : nat) (acc : list num) :
  read_faces (of_nat (i + List.length flines)) i acc (flines ++ tail)
  = inl (acc ++ List.concat (List.map face_indices flines)).
Proof.
  revert i acc. induction flines as [|line flines IH]; intros i acc.
  - cbn [List.length app List.map List.concat]. rewrite Nat.add_0_r, app_nil_r.
    destruct tail as [|l tail]; cbn [read_faces]; rewrite ltb_of_nat, Nat.ltb_irrefl;
      reflexivity.
  - cbn [app read_faces List.length]. rewrite ltb_of_nat.
    replace (i <? i + S (List.length flines))%nat with true
      by (symmetry; apply Nat.ltb_lt; lia).
    replace (i + S (List.length flines))%nat with (S i + List.length flines)%nat by lia.
    rewrite (IH (S i)). cbn [List.map List.concat]. rewrite <- app_assoc. reflexivity.
Qed.

(** The face loop fails when it needs more lines than there are. *)
Lemma read_faces_short (n : num) (lines : list jsstring) (i : nat) (acc : list num) :
  ltb (of_nat (i + List.length lines)) n = true ->
  read_faces n i acc lines = inr FaceIncomplete.
Proof.
  revert i acc. induction lines as [|line rest IH]; intros i acc H.
  - cbn [List.length] in H. rewrite Nat.add_0_r in H. cbn [read_faces]. rewrite H.
    reflexivity.
  - cbn [read_faces].
    rewrite (counter_ltb_mono i (i + List.length (line :: rest)) n) by (lia || exact H).
    apply IH. cbn [List.length] in H.
    replace (S i + List.length rest)%nat with (i + S (List.length rest))%nat by lia.
    exact H.
Qed.

Lemma read_vertices_errors (v : num) (lines : list jsstring) (i : nat) (acc : list num)
    (e : off_error) :
  read_vertices v i acc lines = inr e -> e = VertexIncomplete \/ e = VertexInvalid.
Proof.
  revert i acc. induction lines as [|line rest IH]; intros i acc; cbn [read_vertices].
  - destruct (ltb (of_nat i) v); [intros [= <-]; left; reflexivity|discriminate].
  - destruct (ltb (of_nat i) v); [|discriminate].
    destruct (List.map Number (split_space line)) as [|x [|y [|z more]]];
      try (intros [= <-]; right; reflexivity).
    apply IH.
Qed.

(** With whole counts, the two loops fail when fewer lines are left than
    the counts add up to. *)
Lemma parse_body_short (nv nf : nat) (lines : list jsstring) :
  (List.length lines < nv + nf)%nat ->
  parse_body (of_nat nv) (of_nat nf) lines = inr VertexIncomplete \/
  parse_body (of_nat nv) (of_nat nf) lines = inr VertexInvalid \/
  parse_body (of_nat nv) (of_nat nf) lines = inr FaceIncomplete.
Proof.
  intros Hshort. unfold parse_body.
  destruct (read_vertices (of_nat nv) 0 [] lines) as [[vertices rest]|e] eqn:Ev.
  - destruct (read_vertices_spec _ _ _ _ _ _ Ev) as [k [_ [Hstop [Hrun [Hk Hrest]]]]].
    cbn [Nat.add] in Hstop, Hrun.
    rewrite ltb_of_nat in Hstop. apply Nat.ltb_ge in Hstop.
    assert (k = nv) as ->.
    { destruct (Nat.eq_dec k nv) as [E|Hne]; [exact E|].
      assert (nv < k)%nat as Hlt by lia.
      specialize (Hrun nv (conj (Nat.le_0_l _) Hlt)).
      rewrite ltb_of_nat, Nat.ltb_irrefl in Hrun. discriminate Hrun. }
    rewrite (read_faces_short (of_nat nf) rest 0 []); [right; right; reflexivity|].
    rewrite ltb_of_nat. apply Nat.ltb_lt. subst rest. rewrite length_skipn.
    cbn [Nat.add]. lia.
  - destruct (read_vertices_errors _ _ _ _ _ Ev) as [-> | ->]; auto.
Qed.

(** C7: the fixture parses to the square: four vertices, two triangles.
    Parsing fails with a malformed-input error when the counts line is
    missing, when it has fewer than two numbers or one of the two is not a
    finite number, when the vertex loop needs more lines than are left, and
    when fewer lines are left than the two counts add up to.  Otherwise, when
    every vertex line has three entries, the result is fixed: the first
    three numbers of each of the [vertexCount] lines after the counts, and
    for each of the [faceCount] lines after them what that face line
    contributes; lines after those are not read.  A face line with a count
    [k] of at least three contributes the fan of its first [k] corners
    around the first one, triangle by triangle; a face line whose count is
    below three, or with fewer than four entries, contributes nothing. *)
Theorem parseOff_correct :
  (parseOff off_fixture = inl square /\
   vertex_count square = 4%nat /\ triangle_count square = 2%nat) /\
  (parseOff (lit "off") = inr CountMissing /\
   forall text header,
     data_lines text = [header] -> header_rest header <> None ->
     inline_counts header = [] -> parseOff text = inr CountMissing) /\
  (forall text header lines countsLine rest,
     data_lines text = header :: lines -> header_rest header <> None ->
     counts_line header lines = (Some countsLine, rest) ->
     (forall v f more, read_counts countsLine = v :: f :: more ->
                       isFinite v && isFinite f = false) ->
     parseOff text = inr CountsInvalid) /\
  (forall text header lines countsLine rest v f more,
     data_lines text = header :: lines -> header_rest header <> None ->
     counts_line header lines = (Some countsLine, rest) ->
     read_counts countsLine = v :: f :: more ->
     isFinite v = true -> isFinite f = true ->
     ltb (of_nat (List.length rest)) v = true ->
     parseOff text = inr VertexIncomplete \/ parseOff text = inr VertexInvalid) /\
  (forall text header lines countsLine rest nv nf more,
     data_lines text = header :: lines -> header_rest header <> None ->
     counts_line header lines = (Some countsLine, rest) ->
     read_counts countsLine = of_nat nv :: of_nat nf :: more ->
     (List.length rest < nv + nf)%nat ->
     parseOff text = inr VertexIncomplete \/ parseOff text = inr VertexInvalid \/
     parseOff text = inr FaceIncomplete) /\
  (forall text header lines countsLine vlines flines tail more,
     data_lines text = header :: lines -> header_rest header <> None ->
     counts_line header lines = (Some countsLine, vlines ++ flines ++ tail) ->
     read_counts countsLine
     = of_nat (List.length vlines) :: of_nat (List.length flines) :: more ->
     Forall (fun l => (3 <= List.length (split_space l))%nat) vlines ->
     parseOff text
     = inl {| position := List.concat (List.map vertex_of vlines);
              index := match List.concat (List.map face_indices flines) with
                       | [] => None
                       | indices => Some indices
                       end |}) /\
  (forall line k idxs,
     List.map Number (split_space line) = of_nat k :: idxs ->
     (3 <= k)%nat -> (3 <= List.length idxs)%nat -> (Z.of_nat k < 2 ^ 53 - 1)%Z ->
     face_indices line = fan_triangles (firstn k idxs) /\
     List.length (face_indices line) = (3 * (Nat.min k (List.length idxs) - 2))%nat) /\
  (forall line declared others,
     List.map Number (split_space line) = declared :: others ->
     ltb declared (Fin 3) = true -> face_indices line = []) /\
  (forall line,
     (List.length (split_space line) < 4)%nat -> face_indices line = []).
Proof.
  split; [split; [exact parseOff_fixture|split; reflexivity]|].
  split; [split; [reflexivity|]|].
  { intros text header Hd Hh Hi. unfold parseOff. rewrite Hd.
    destruct (header_rest header); [|congruence].
    unfold counts_line. rewrite Hi. reflexivity. }
  split.
  { intros text header lines countsLine rest Hd Hh Hc Hbad. unfold parseOff. rewrite Hd.
    destruct (header_rest header); [|congruence]. rewrite Hc.
    destruct (read_counts countsLine) as [|v [|f more]]; try reflexivity.
    specialize (Hbad v f more eq_refl).
    destruct (isFinite v), (isFinite f); try discriminate Hbad; reflexivity. }
  split.
  { intros text header lines countsLine rest v f more Hd Hh Hc Hr Hv Hf Hshort.
    unfold parseOff. rewrite Hd.
    destruct (header_rest header); [|congruence]. rewrite Hc, Hr, Hv, Hf. cbn [negb orb].
    unfold parse_body.
    destruct (read_vertices_short v rest 0 [] Hshort) as [-> | ->]; auto. }
  split.
  { intros text header lines countsLine rest nv nf more Hd Hh Hc Hr Hshort.
    unfold parseOff. rewrite Hd.
    destruct (header_rest header); [|congruence]. rewrite Hc, Hr.
    change (isFinite (of_nat nv)) with true. change (isFinite (of_nat nf)) with true.
    cbn [negb orb]. exact (parse_body_short nv nf rest Hshort). }
  split.
  { intros text header lines countsLine vlines flines tail more Hd Hh Hc Hr Hall.
    unfold parseOff. rewrite Hd.
    destruct (header_rest header); [|congruence]. rewrite Hc, Hr.
    change (isFinite (of_nat (List.length vlines))) with true.
    change (isFinite (of_nat (List.length flines))) with true.
    cbn [negb orb]. unfold parse_body.
    pose proof (read_vertices_exact vlines (flines ++ tail) 0 [] Hall) as Ev.
    pose proof (read_faces_exact flines tail 0 []) as Ef.
    cbn [Nat.add app] in Ev, Ef. rewrite Ev, Ef.
    destruct (List.concat (List.map face_indices flines)); reflexivity. }
  split.
  { intros line k idxs Hp Hk Hlen Hbound.
    pose proof (face_indices_fan line k idxs Hp Hk Hlen Hbound) as E.
    split; [exact E|].
    rewrite E, <- fan_triangulate_explicit.
    destruct (fan_triangulate_spec (firstn k idxs)) as [Hl _].
    rewrite Hl, length_firstn. reflexivity. }
  split.
  { intros line declared others Hp Hlt. unfold face_indices. rewrite Hp.
    destruct (List.length (declared :: others) <? 4)%nat; [reflexivity|].
    rewrite Hlt, orb_true_r. reflexivity. }
  { intros line Hlen. unfold face_indices. cbv zeta. rewrite length_map.
    apply Nat.ltb_lt in Hlen. rewrite Hlen. reflexivity. }
Qed.

(** A counts line with a word for a number, a file with fewer vertex lines
    than it declares, a face that declares two vertices, a file whose last
    line is not read, and a quadrilateral. *)
Lemma parseOff_correct_witness :
  parseOff (lit "OFF" ++ [LF] ++ lit "4 two") = inr CountsInvalid /\
  (parseOff (lit "OFF 3 1" ++ [LF] ++ lit "0 0 0") = inr VertexIncomplete \/
   parseOff (lit "OFF 3 1" ++ [LF] ++ lit "0 0 0") = inr VertexInvalid) /\
  face_indices (lit "2 0 1 2") = [] /\
  parseOff (lit "OFF 1 1" ++ [LF] ++ lit "0 0 0" ++ [LF] ++ lit "9 9 9" ++ [LF] ++ lit "1 1 1")
  = inl {| position := [Fin 0; Fin 0; Fin 0]; index := None |} /\
  face_indices (lit "4 0 1 2 3") = [Fin 0; Fin 1; Fin 2; Fin 0; Fin 2; Fin 3].
Proof.
  destruct parseOff_correct as [_ [_ [Hcounts [Hshort [_ [Hok [Hfan [Hskip _]]]]]]]].
  split; [|split; [|split; [|split]]].
  - apply (Hcounts _ (lit "OFF") [lit "4 two"] (lit "4 two") []);
      try reflexivity; [discriminate|].
    intros v f more H. vm_compute in H. injection H as <- <- <-. reflexivity.
  - apply (Hshort _ (lit "OFF 3 1") [lit "0 0 0"] (lit "3 1") [lit "0 0 0"]
             (Num.Fin 3) (Num.Fin 1) []);
      try reflexivity. discriminate.
  - apply (Hskip _ (Num.Fin 2) [Num.Fin 0; Num.Fin 1; Num.Fin 2]); reflexivity.
  - rewrite (Hok _ (lit "OFF 1 1") [lit "0 0 0"; lit "9 9 9"; lit "1 1 1"] (lit "1 1")
               [lit "0 0 0"] [lit "9 9 9"] [lit "1 1 1"] []);
      try reflexivity; [discriminate|repeat constructor].
  - assert (3 <= 4)%nat as H34 by lia.
    assert (Z.of_nat 4 < 2 ^ 53 - 1)%Z as Hb by reflexivity.
    destruct (Hfan (lit "4 0 1 2 3") 4%nat [Fin 0; Fin 1; Fin 2; Fin 3] eq_refl H34 H34 Hb)
      as [E _].
    rewrite E. reflexivity.
Defined.

End OffFacts.

(** ** Statistics and validation *)

Section StatsFacts.

Import Num Stats.

(** What a passed validation guarantees. *)
Lemma validateObject_valid (object : object3d) :
  validateObject object = None ->
  let s := computeObjectStats object in
  isFinite (triangles s) = true /\ ltb (Fin 0) (triangles s) = true /\
  isEmpty (bounds s) = false /\
  let '(x, y, z) := size s in
  isFinite x = true /\ isFinite y = true /\ isFinite z = true.
Proof.
  unfold validateObject. cbv zeta.
  destruct (computeObjectStats object) as [b [[x y] z] t]. cbn [triangles bounds size].
  destruct (isFinite t) eqn:Ht; [|discriminate]. cbn [negb orb].
  destruct (leb t (Fin 0)) eqn:Hl; [discriminate|].
  destruct (isEmpty b); [discriminate|].
  destruct (isFinite x), (isFinite y), (isFinite z); try discriminate.
  intros _. repeat split.
  destruct t as [| |q]; try discriminate Ht.
  simpl in Hl |- *. unfold Qltb. rewrite Hl. reflexivity.
Qed.

(** C4 on the code: for the square of the OFF fixture, which has four
    vertices and two triangles, [computeObjectStats] counts a third of the
    vertices, the binary64 value nearest to 4/3, which is not an integer;
    the validator accepts the model with that count. *)
Theorem computeObjectStats_fractional_triangles :
  OffParser.parseOff off_fixture = inl square /\
  OffParser.triangle_count square = 2%nat /\
  triangles (computeObjectStats (mesh_of square))
  = Fin (6004799503160661 # 4503599627370496) /\
  is_integer (triangles (computeObjectStats (mesh_of square))) = false /\
  validateObject (mesh_of square) = None.
Proof.
  split; [exact parseOff_fixture|].
  split; [reflexivity|].
  split; [vm_compute; reflexivity|].
  split; vm_compute; reflexivity.
Qed.

End StatsFacts.

(** ** Format sniffing *)

Section SniffFacts.

Import Sniff.

Lemma detectFormatFromText_first_match (text : jsstring) :
  detectFormatFromText text =
  if nonempty (trim text) then first_match sniff_rules (trim text) else None.
Proof.
  unfold detectFormatFromText, first_match, sniff_rules.
  destruct (nonempty (trim text)); [|reflexivity].
  cbn [negb find fst snd].
  destruct (test_open_brace (trim text) && test_asset_key (trim text)); [reflexivity|].
  destruct (test_solid (trim text) && test_facet_normal (trim text)); [reflexivity|].
  destruct (test_ply (trim text)); [reflexivity|].
  destruct (test_off (trim text)); [reflexivity|].
  destruct (test_obj (trim text)); [reflexivity|].
  destruct (test_scad (trim text)); reflexivity.
Qed.

(** C5 as stated fails: the pasted text is sniffed whole.  The first 512
    characters of [late_cube] match no rule, and yet it is detected as SCAD
    by the keyword that starts at offset 513. *)
Lemma handleText_detects_beyond_512 :
  detectFormatFromText (firstn 512 late_cube) = None /\
  handleText_detect late_cube = Some Scad.
Proof. split; vm_compute; reflexivity. Qed.

(** C5 (as amended): for a file whose name has no known extension the
    detected format depends on the first 512 bytes only: a decoded header
    that contains [glTF] is GLB, any other header goes through the rules.
    Pasted text has no such limit: it is sniffed whole, after the removal of
    a leading byte-order mark and trimming.  In both cases the rules are
    tried in order on the trimmed text, the first that matches decides, and
    a text that is blank or matches none is unknown. *)
Theorem detect_without_extension :
  (forall decode name buffer1 buffer2,
     known_extension name = None ->
     firstn 512 buffer1 = firstn 512 buffer2 ->
     handleFile_detect decode name buffer1 = handleFile_detect decode name buffer2) /\
  (forall decode name buffer,
     known_extension name = None ->
     handleFile_detect decode name buffer =
     if includes_glTF (decode (firstn 512 buffer)) then Some Glb
     else detectFormatFromText (decode (firstn 512 buffer))) /\
  (forall value,
     handleText_detect value = detectFormatFromText (trim (strip_bom value))) /\
  (forall text,
     detectFormatFromText text =
     if nonempty (trim text) then first_match sniff_rules (trim text) else None).
Proof.
  split; [|split; [|split]].
  - intros decode name b1 b2 Hn Hb.
    unfold handleFile_detect, header_of. rewrite Hb. reflexivity.
  - intros decode name buffer Hn.
    unfold handleFile_detect, header_of, detectFormatFromFile. rewrite Hn. reflexivity.
  - intros value. unfold handleText_detect, handleText_text.
    destruct (nonempty (trim (strip_bom value))) eqn:E; [reflexivity|].
    cbn [negb]. rewrite detectFormatFromText_first_match.
    rewrite (trim_fixed _ (trim_is_trimmed _)), E. reflexivity.
  - exact detectFormatFromText_first_match.
Qed.

Lemma detect_without_extension_witness :
  known_extension (lit "model.dat") = None /\
  handleFile_detect decode_ascii (lit "model.dat")
    (repeat Byte.x23 512 ++ bytes_of " cube(1);")
  = handleFile_detect decode_ascii (lit "model.dat") (repeat Byte.x23 512) /\
  handleFile_detect decode_ascii (lit "model.dat") (repeat Byte.x23 512) = None.
Proof.
  split; [vm_compute; reflexivity|]. split.
  - apply (proj1 detect_without_extension); vm_compute; reflexivity.
  - vm_compute. reflexivity.
Defined.

End SniffFacts.

(** * Further properties of the code *)

(** ** The repairers and the normaliser *)

Section MoreRepair.

Import Stl.

Lemma line_char_kept (c : code) : line_char c = true -> kept_char c = true.
Proof.
  unfold line_char, kept_char. rewrite !andb_true_iff. tauto.
Qed.

Lemma kept_app (a b : jsstring) :
  forallb kept_char a = true -> forallb kept_char b = true ->
  forallb kept_char (a ++ b) = true.
Proof. intros Ha Hb. rewrite forallb_app, Ha, Hb. reflexivity. Qed.

Lemma stl_body_kept (x : jsstring) : forallb kept_char (stl_body x) = true.
Proof.
  apply forallb_forall. intros c Hc. unfold stl_body in Hc.
  apply join_chars in Hc. destruct Hc as [->|[l [Hl Hc]]]; [reflexivity|].
  pose proof (body_lines_good x) as Hgood. rewrite Forall_forall in Hgood.
  destruct (Hgood _ Hl) as [_ [_ Hch]]. rewrite Forall_forall in Hch.
  apply line_char_kept. exact (Hch _ Hc).
Qed.

(** X1: The repaired text holds nothing but printable ASCII, tabs and line
    feeds, and no comma, whatever the input. *)
Theorem repairStlText_alphabet (x : jsstring) :
  forallb kept_char (repairStlText x) = true.
Proof.
  unfold repairStlText, ensure_endsolid, ensure_solid.
  pose proof (stl_body_kept x) as Hb.
  destruct (test_solid (stl_body x)).
  - destruct (test_endsolid (stl_body x)); [exact Hb|].
    apply kept_app; [exact Hb|reflexivity].
  - assert (forallb kept_char (lit "solid model" ++ [LF] ++ stl_body x) = true) as H1
      by (apply kept_app; [reflexivity|exact Hb]).
    destruct (test_endsolid (lit "solid model" ++ [LF] ++ stl_body x)); [exact H1|].
    apply kept_app; [exact H1|reflexivity].
Qed.

Lemma repairStlText_fixed_point (t : jsstring) :
  repairStlText t = t <-> well_formed_stl t.
Proof.
  split.
  - intros Hfix. destruct (existsb visible t) eqn:Hv.
    + apply stl_body_nonempty_iff in Hv.
      destruct (repairStlText_normal_form _ Hv) as [ls [Hls [Hgood E]]].
      destruct (repairStlText_tests t) as [Hs He].
      rewrite Hfix in *. exists ls. auto.
    + pose proof (repairStlText_blank_body _ Hv) as Hb. rewrite Hfix in Hb.
      rewrite Hb in Hv. discriminate Hv.
  - intros [ls [Hls [Hgood [-> [Hs He]]]]]. apply repairStlText_fixed; assumption.
Qed.

(** X2: The repairer leaves a text as it is exactly when the text is in its
    normal form: lines that are not empty, trimmed and free of commas and
    non-printable characters, [solid] at the start and [endsolid] somewhere. *)
Theorem repairStlText_fixed_iff (t : jsstring) :
  repairStlText t = t <-> well_formed_stl t.
Proof. exact (repairStlText_fixed_point t). Qed.

Lemma filter_fixed {A : Type} (p : A -> bool) (l : list A) :
  forallb p l = true -> filter p l = l.
Proof.
  induction l as [|a l IH]; [reflexivity|]. simpl. intros H.
  apply andb_true_iff in H. destruct H as [Ha Hl]. rewrite Ha, (IH Hl). reflexivity.
Qed.

Lemma map_fixed {A : Type} (f : A -> A) (l : list A) :
  (forall a, In a l -> f a = a) -> List.map f l = l.
Proof.
  induction l as [|a l IH]; [reflexivity|]. intros H. simpl.
  rewrite (H a (or_introl eq_refl)), IH; [reflexivity|].
  intros b Hb. apply H. right. exact Hb.
Qed.

Lemma normalizeScadText_clean (x : jsstring) :
  forallb scad_clean (Scad.normalizeScadText x) = true.
Proof.
  apply forallb_forall. intros c Hc. unfold Scad.normalizeScadText in Hc.
  apply filter_In in Hc. destruct Hc as [Hc Hctl].
  apply in_map_iff in Hc. destruct Hc as [d [Hd Hin]].
  unfold scad_clean. rewrite Hctl, andb_true_r.
  unfold Scad.nbsp_to_space in Hd. destruct (N.eqb_spec d NBSP).
  - subst c. reflexivity.
  - subst d. apply N.eqb_neq in n. rewrite n, andb_true_r.
    apply negb_true_iff, N.eqb_neq. intros ->.
    exact (normalize_newlines_no_cr _ Hin).
Qed.

Lemma normalizeScadText_of_clean (y : jsstring) :
  forallb scad_clean y = true -> Scad.normalizeScadText y = strip_bom y.
Proof.
  intros Hy.
  assert (forallb scad_clean (strip_bom y) = true) as Hs.
  { destruct y as [|c y]; [reflexivity|]. simpl in *.
    destruct (c =? BOM); [|exact Hy].
    apply andb_true_iff in Hy. apply Hy. }
  rewrite forallb_forall in Hs. unfold Scad.normalizeScadText.
  rewrite normalize_newlines_fixed.
  2:{ intros Hin. specialize (Hs _ Hin). discriminate Hs. }
  rewrite map_fixed.
  2:{ intros c Hin. specialize (Hs _ Hin). unfold scad_clean in Hs.
      rewrite !andb_true_iff, !negb_true_iff in Hs. destruct Hs as [[_ Hn] _].
      unfold Scad.nbsp_to_space. rewrite Hn. reflexivity. }
  apply filter_fixed. apply forallb_forall. intros c Hin. specialize (Hs _ Hin).
  unfold scad_clean in Hs. rewrite !andb_true_iff in Hs. apply Hs.
Qed.

(** X3: The normalised SCAD text holds no carriage return, no-break space or
    control character; normalising it again removes one more leading
    byte-order mark and nothing else, so normalising is idempotent exactly on
    the inputs whose normal form does not start with that mark. *)
Theorem normalizeScadText_twice (x : jsstring) :
  forallb scad_clean (Scad.normalizeScadText x) = true /\
  Scad.normalizeScadText (Scad.normalizeScadText x) = strip_bom (Scad.normalizeScadText x) /\
  (Scad.normalizeScadText (Scad.normalizeScadText x) = Scad.normalizeScadText x <->
   Sniff.next_is (N.eqb BOM) (Scad.normalizeScadText x) = false).
Proof.
  pose proof (normalizeScadText_clean x) as Hc.
  split; [exact Hc|]. split; [apply normalizeScadText_of_clean; exact Hc|].
  rewrite (normalizeScadText_of_clean _ Hc).
  destruct (Scad.normalizeScadText x) as [|c y]; [split; reflexivity|].
  unfold strip_bom, Sniff.next_is. rewrite (N.eqb_sym BOM c).
  destruct (c =? BOM); split; try reflexivity; try discriminate.
  intros H. exfalso. apply (f_equal (@List.length _)) in H. simpl in H. lia.
Qed.

End MoreRepair.
(** ** The sniffers *)

Section MoreSniff.

Import Sniff.

Lemma ident_start_not_brace (c : code) : is_ident_start c = true -> (LBRACE =? c) = false.
Proof.
  unfold is_ident_start, in_range, LBRACE.
  rewrite !orb_true_iff, !andb_true_iff, !N.eqb_eq, N.eqb_neq, !N.leb_le. lia.
Qed.

(** A text that opens with [solid] does not open with a brace. *)
Lemma solid_not_brace (t : jsstring) :
  test_solid t = true -> test_open_brace t = false.
Proof.
  unfold test_solid, starts_with_word, test_open_brace.
  destruct t as [|c r]; [discriminate|].
  change (lit "solid") with (115 :: lit "olid"). cbn [prefix_ci].
  destruct (ci_eqb 115 c) eqn:E; [|discriminate]. intros _.
  pose proof (ci_letter 115 c eq_refl E) as Hc.
  rewrite (drop_space_fixed c r (ident_start_not_space c Hc)).
  simpl. apply ident_start_not_brace. exact Hc.
Qed.

Lemma search_word_mono (P Q : jsstring -> bool) (b : bool) (s : jsstring) :
  (forall u, P u = true -> Q u = true) ->
  search_word P b s = true -> search_word Q b s = true.
Proof.
  intros HPQ. revert b. induction s as [|c s IH]; intros b; simpl.
  - rewrite !orb_false_r, !andb_true_iff. intros [Hb H]. auto.
  - rewrite !orb_true_iff, !andb_true_iff. intros [[Hb H]|H]; auto.
Qed.

Lemma viewer_keyword_is_fixer_keyword (s : jsstring) :
  scad_keyword_at s = true -> FixerPage.scad_keyword_at s = true.
Proof.
  unfold scad_keyword_at, FixerPage.scad_keyword_at. rewrite !existsb_exists.
  intros [kw [Hin H]]. exists kw. split; [|exact H].
  unfold scad_keywords in Hin. unfold FixerPage.scad_keywords. simpl in *. tauto.
Qed.

(** X4: The sniffer of the fixer and the sniffer of the viewer agree on STL, and
    what the viewer takes for SCAD the fixer takes for SCAD. *)
Theorem sniffers_agree (text : jsstring) :
  (FixerPage.detectFormat text = Some (lit "stl") <->
   detectFormatFromText text = Some Stl) /\
  (detectFormatFromText text = Some Scad ->
   FixerPage.detectFormat text = Some (lit "scad")).
Proof.
  unfold FixerPage.detectFormat, detectFormatFromText.
  destruct (nonempty (trim text)); cbn [negb]; [|split; [split|]; discriminate].
  destruct (test_solid (trim text)) eqn:Hs.
  - rewrite (solid_not_brace _ Hs). cbn [andb].
    destruct (test_facet_normal (trim text)); [split; [split; reflexivity|discriminate]|].
    destruct (test_ply (trim text)); [split; [split|]; try discriminate;
      destruct (FixerPage.test_scad (trim text)); discriminate|].
    destruct (test_off (trim text)); [split; [split|]; try discriminate;
      destruct (FixerPage.test_scad (trim text)); discriminate|].
    destruct (test_obj (trim text)); [split; [split|]; try discriminate;
      destruct (FixerPage.test_scad (trim text)); discriminate|].
    destruct (test_scad (trim text)) eqn:Hk.
    + unfold FixerPage.test_scad, test_scad in *.
      rewrite (search_word_mono _ _ _ _ viewer_keyword_is_fixer_keyword Hk).
      split; [split; discriminate|reflexivity].
    + split; [split; try discriminate|discriminate].
      destruct (FixerPage.test_scad (trim text)); discriminate.
  - cbn [andb].
    destruct (test_open_brace (trim text) && test_asset_key (trim text));
      [split; [split|]; try discriminate;
       destruct (FixerPage.test_scad (trim text)); discriminate|].
    destruct (test_ply (trim text)); [split; [split|]; try discriminate;
      destruct (FixerPage.test_scad (trim text)); discriminate|].
    destruct (test_off (trim text)); [split; [split|]; try discriminate;
      destruct (FixerPage.test_scad (trim text)); discriminate|].
    destruct (test_obj (trim text)); [split; [split|]; try discriminate;
      destruct (FixerPage.test_scad (trim text)); discriminate|].
    destruct (test_scad (trim text)) eqn:Hk.
    + unfold FixerPage.test_scad, test_scad in *.
      rewrite (search_word_mono _ _ _ _ viewer_keyword_is_fixer_keyword Hk).
      split; [split; discriminate|reflexivity].
    + split; [split; try discriminate|discriminate].
      destruct (FixerPage.test_scad (trim text)); discriminate.
Qed.

Lemma split_on_append (sep : code) (a b : jsstring) :
  split_on sep (a ++ sep :: b) = split_on sep a ++ split_on sep b.
Proof.
  induction a as [|c a IH]; simpl.
  - rewrite N.eqb_refl. reflexivity.
  - destruct (c =? sep); [rewrite IH; reflexivity|].
    rewrite IH. pose proof (split_on_nonnil sep a) as Hn.
    destruct (split_on sep a); [congruence|reflexivity].
Qed.

Lemma last_append {A : Type} (a b : list A) (d : A) :
  b <> [] -> last (a ++ b) d = last b d.
Proof.
  intros Hb. induction a as [|x a IH]; [reflexivity|].
  simpl. destruct (a ++ b) eqn:E; [|exact IH].
  apply app_eq_nil in E. destruct E. congruence.
Qed.

(** The extension is what follows the last dot, lower-cased. *)
Lemma extension_of_dotted (base e : jsstring) :
  ~ In DOT e -> extension_of (base ++ DOT :: e) = List.map lower e.
Proof.
  intros He. unfold extension_of. rewrite split_on_append.
  rewrite last_append by apply split_on_nonnil.
  rewrite (split_on_no_sep _ _ He). reflexivity.
Qed.

Lemma lower_dot (c : code) : lower c = DOT -> c = DOT.
Proof.
  unfold lower, in_range, DOT. destruct (N.leb_spec 65 c), (N.leb_spec c 90); simpl; lia.
Qed.

Lemma known_has_no_dot (e : jsstring) (f : format) :
  In (List.map lower e, f) known -> ~ In DOT e.
Proof.
  intros Hk Hin.
  assert (In DOT (List.map lower e)) as Hd by (apply (in_map lower) in Hin; exact Hin).
  unfold known in Hk. simpl in Hk.
  repeat (destruct Hk as [Hk|Hk];
          [injection Hk as Hk _; rewrite <- Hk in Hd; simpl in Hd;
           repeat (destruct Hd as [Hd|Hd]; [discriminate Hd|]); exact Hd|]).
  exact Hk.
Qed.

Lemma known_lookup (ext : jsstring) (f : format) :
  In (ext, f) known ->
  option_map snd (find (fun kf => jsstring_eqb (fst kf) ext) known) = Some f.
Proof.
  unfold known. simpl. intros Hk.
  repeat (destruct Hk as [Hk|Hk]; [injection Hk as <- <-; reflexivity|]).
  destruct Hk.
Qed.

Lemma detect_dotted (base e : jsstring) (f : format) (headerText : jsstring) :
  In (List.map lower e, f) known ->
  detectFormatFromFile (base ++ [DOT] ++ e) headerText = Some f.
Proof.
  intros Hk. unfold detectFormatFromFile, known_extension.
  simpl app. rewrite (extension_of_dotted _ _ (known_has_no_dot _ _ Hk)).
  rewrite (known_lookup _ _ Hk). reflexivity.
Qed.

(** X5: A file name that ends in a dot and a known extension, in any letter
    case, is given that format whatever the file holds; so is a name without
    a dot that is itself a known extension. *)
Theorem extension_decides :
  (forall base e f headerText,
     In (List.map lower e, f) known ->
     detectFormatFromFile (base ++ [DOT] ++ e) headerText = Some f) /\
  (forall name f headerText,
     ~ In DOT name -> In (List.map lower name, f) known ->
     detectFormatFromFile name headerText = Some f).
Proof.
  split; [exact detect_dotted|].
  intros name f headerText Hd Hk. unfold detectFormatFromFile, known_extension.
  unfold extension_of. rewrite (split_on_no_sep _ _ Hd). simpl last.
  rewrite (known_lookup _ _ Hk). reflexivity.
Qed.

Lemma extension_decides_witness :
  detectFormatFromFile (lit "Part.v2" ++ [DOT] ++ lit "StL") (lit "PK") = Some Stl /\
  detectFormatFromFile (lit "OFF") [] = Some Off.
Proof.
  split.
  - apply (proj1 extension_decides). simpl. tauto.
  - apply (proj2 extension_decides).
    + simpl. intros H. repeat (destruct H as [H|H]; [discriminate H|]). exact H.
    + simpl. tauto.
Defined.

Lemma drop_space_pad (pre s : jsstring) :
  forallb is_space pre = true -> drop_space (pre ++ s) = drop_space s.
Proof.
  induction pre as [|c pre IH]; [reflexivity|]. simpl. intros H.
  apply andb_true_iff in H. destruct H as [Hc Hp]. rewrite Hc. exact (IH Hp).
Qed.

Lemma drop_space_blank (s : jsstring) : forallb is_space s = true -> drop_space s = [].
Proof.
  intros H. rewrite <- (app_nil_r s). rewrite drop_space_pad by exact H. reflexivity.
Qed.

Lemma drop_space_app (s post : jsstring) :
  drop_space s <> [] -> drop_space (s ++ post) = drop_space s ++ post.
Proof.
  induction s as [|c s IH]; [simpl; congruence|]. simpl.
  destruct (is_space c); [exact IH|reflexivity].
Qed.

(** Whitespace around a text does not survive trimming. *)
Lemma trim_pad (pre t post : jsstring) :
  forallb is_space pre = true -> forallb is_space post = true ->
  trim (pre ++ t ++ post) = trim t.
Proof.
  intros Hpre Hpost. unfold trim. rewrite drop_space_pad by exact Hpre.
  assert (forallb is_space (rev post) = true) as Hr.
  { apply forallb_forall. intros c Hc. apply in_rev in Hc.
    rewrite forallb_forall in Hpost. auto. }
  destruct (drop_space t) as [|c d] eqn:E.
  - assert (forallb is_space t = true) as Ht.
    { clear -E. induction t as [|x t IH]; [reflexivity|]. simpl in *.
      destruct (is_space x); [exact (IH E)|discriminate]. }
    rewrite (drop_space_blank (t ++ post)); [reflexivity|].
    rewrite forallb_app, Ht, Hpost. reflexivity.
  - rewrite drop_space_app by (rewrite E; discriminate).
    rewrite E, rev_app_distr, drop_space_pad by exact Hr. reflexivity.
Qed.

(** X6: Both sniffers ignore whitespace around the text. *)
Theorem sniffers_ignore_padding (pre text post : jsstring) :
  forallb is_space pre = true -> forallb is_space post = true ->
  detectFormatFromText (pre ++ text ++ post) = detectFormatFromText text /\
  FixerPage.detectFormat (pre ++ text ++ post) = FixerPage.detectFormat text.
Proof.
  intros Hpre Hpost. unfold detectFormatFromText, FixerPage.detectFormat.
  rewrite (trim_pad _ text _ Hpre Hpost). split; reflexivity.
Qed.

Lemma sniffers_ignore_padding_witness :
  detectFormatFromText ([LF; SPACE] ++ lit "ply" ++ [TAB; CR; LF])
  = detectFormatFromText (lit "ply").
Proof.
  apply (proj1 (sniffers_ignore_padding [LF; SPACE] (lit "ply") [TAB; CR; LF] eq_refl eq_refl)).
Defined.

Lemma prefix_spec (p s r : jsstring) : prefix p s = Some r -> s = p ++ r.
Proof.
  revert s. induction p as [|a p IH]; intros s; simpl.
  - intros [= ->]. reflexivity.
  - destruct s as [|c s]; [discriminate|].
    destruct (N.eqb_spec a c) as [->|]; [|discriminate].
    intros H. rewrite (IH _ H). reflexivity.
Qed.

(** X7: Every file name the first viewer accepted, a name that ends in [.stl] in
    any letter case, is an STL file for the sniffer of the present viewer,
    whatever the file holds. *)
Theorem first_viewer_files_are_stl (name headerText : jsstring) :
  FirstViewer.accepts_file name = true ->
  detectFormatFromFile name headerText = Some Stl.
Proof.
  unfold FirstViewer.accepts_file, FirstViewer.ends_with.
  destruct (prefix (rev (lit ".stl")) (rev (List.map lower name))) as [r|] eqn:E; [|discriminate].
  intros _. apply prefix_spec in E.
  apply (f_equal (@rev _)) in E. rewrite rev_involutive, rev_app_distr, rev_involutive in E.
  apply map_eq_app in E. destruct E as [base [e4 [-> [_ He]]]].
  destruct e4 as [|d e]; [discriminate He|].
  simpl in He. injection He as Hd He. apply lower_dot in Hd. subst d.
  apply (detect_dotted base e Stl headerText).
  rewrite He. left. reflexivity.
Qed.

Lemma first_viewer_files_are_stl_witness :
  FirstViewer.accepts_file (lit "Bracket.STL") = true /\
  detectFormatFromFile (lit "Bracket.STL") [] = Some Stl.
Proof.
  split; [reflexivity|]. apply first_viewer_files_are_stl. reflexivity.
Defined.

End MoreSniff.
(** ** Diagnostics of the fixer *)

Section MoreFixer.

Import Fixer.

Lemma find_splits {A : Type} (p : A -> bool) (l : list A) (m : A) :
  find p l = Some m ->
  exists a b, l = a ++ m :: b /\ p m = true /\ forallb (fun x => negb (p x)) a = true.
Proof.
  induction l as [|x l IH]; [discriminate|]. simpl.
  destruct (p x) eqn:E.
  - intros [= ->]. exists [], l. auto.
  - intros H. destruct (IH H) as [a [b [-> [Hm Ha]]]].
    exists (x :: a), b. simpl. rewrite E, Ha. auto.
Qed.

Lemma find_last_spec (p : jsstring -> bool) (l : list jsstring) (m : jsstring) :
  find_last p l = Some m -> is_last_with p l m.
Proof.
  unfold find_last. intros H. destruct (find_splits _ _ _ H) as [a [b [E [Hm Ha]]]].
  exists (rev b), (rev a). split; [|split; [exact Hm|]].
  - rewrite <- (rev_involutive l), E, rev_app_distr. simpl. rewrite <- app_assoc. reflexivity.
  - apply forallb_forall. intros x Hx. apply in_rev in Hx.
    rewrite forallb_forall in Ha. auto.
Qed.

Lemma find_last_none (p : jsstring -> bool) (l : list jsstring) :
  find_last p l = None <-> forallb (fun x => negb (p x)) l = true.
Proof.
  unfold find_last. rewrite forallb_forall. split.
  - intros H x Hx. apply in_rev in Hx. rewrite (find_none _ _ H _ Hx). reflexivity.
  - intros H. destruct (find p (rev l)) as [m|] eqn:E; [|reflexivity].
    apply find_some in E. destruct E as [Hin Hm]. apply in_rev in Hin.
    specialize (H _ Hin). rewrite Hm in H. discriminate H.
Qed.

Lemma mentions_nonempty (word line : jsstring) :
  word <> [] -> mentions word line = true -> line <> [].
Proof.
  intros Hw H ->. destruct word; [congruence|discriminate H].
Qed.

Lemma collapse_from_spaces (b : bool) (s : jsstring) (c : code) :
  In c (collapse_from b s) -> is_space c = true -> c = SPACE.
Proof.
  revert b. induction s as [|d s IH]; intros b; simpl; [intros []|].
  destruct (is_space d) eqn:E.
  - destruct b; [apply IH|]. intros [<-|H]; [reflexivity|exact (IH _ H)].
  - intros [<-|H] Hc; [congruence|exact (IH _ H Hc)].
Qed.

Lemma fields_cons (s : jsstring) : exists l ls, fields s = l :: ls.
Proof.
  induction s as [|c s [l [ls IH]]]; simpl; [eauto|].
  destruct (is_space c); [eauto|]. rewrite IH. eauto.
Qed.

Lemma words_space (c : code) (s : jsstring) :
  is_space c = true -> words (c :: s) = words s.
Proof. intros H. unfold words. simpl. rewrite H. reflexivity. Qed.

Lemma words_blank (s : jsstring) : forallb is_space s = true -> words s = [].
Proof.
  induction s as [|c s IH]; [reflexivity|]. simpl. intros H.
  apply andb_true_iff in H. destruct H as [Hc Hs].
  rewrite (words_space c s Hc). exact (IH Hs).
Qed.

Lemma words_pad_left (pre s : jsstring) :
  forallb is_space pre = true -> words (pre ++ s) = words s.
Proof.
  induction pre as [|c pre IH]; [reflexivity|]. simpl. intros H.
  apply andb_true_iff in H. destruct H as [Hc Hp].
  rewrite (words_space c _ Hc). exact (IH Hp).
Qed.

Lemma fields_pad_right (s post : jsstring) :
  forallb is_space post = true ->
  hd [] (fields (s ++ post)) = hd [] (fields s) /\
  filter nonempty (tl (fields (s ++ post))) = filter nonempty (tl (fields s)).
Proof.
  intros Hpost. induction s as [|c s [IHh IHt]].
  - cbn [app fields hd tl filter].
    pose proof (words_blank post Hpost) as Hw. unfold words in Hw.
    destruct post as [|d post]; [split; reflexivity|].
    cbn [forallb] in Hpost. apply andb_true_iff in Hpost. destruct Hpost as [Hd _].
    cbn [fields] in *. rewrite Hd in *. cbn [hd tl filter nonempty] in *.
    split; [reflexivity|exact Hw].
  - cbn [app fields]. destruct (is_space c).
    + cbn [hd tl]. split; [reflexivity|].
      destruct (fields_cons (s ++ post)) as [l [ls E]].
      destruct (fields_cons s) as [l' [ls' E']].
      rewrite E, E' in *. cbn [hd tl filter] in *. rewrite IHh, IHt. reflexivity.
    + destruct (fields_cons (s ++ post)) as [l [ls E]].
      destruct (fields_cons s) as [l' [ls' E']].
      rewrite E, E' in *. cbn [hd tl] in *. rewrite IHh, IHt. split; reflexivity.
Qed.

Lemma words_pad_right (s post : jsstring) :
  forallb is_space post = true -> words (s ++ post) = words s.
Proof.
  intros Hpost. destruct (fields_pad_right s post Hpost) as [Hh Ht]. unfold words.
  destruct (fields_cons (s ++ post)) as [l [ls E]].
  destruct (fields_cons s) as [l' [ls' E']].
  rewrite E, E' in *. cbn [hd tl filter] in *. rewrite Hh, Ht. reflexivity.
Qed.

(** Dropping leading whitespace drops whitespace only. *)
Lemma drop_space_split (s : jsstring) :
  exists p, s = p ++ drop_space s /\ forallb is_space p = true.
Proof.
  induction s as [|c s [p [IH Hp]]]; simpl.
  - exists []. split; reflexivity.
  - destruct (is_space c) eqn:E.
    + exists (c :: p). simpl. rewrite E, Hp. split; [f_equal; exact IH|reflexivity].
    + exists []. split; reflexivity.
Qed.

(** A string is its trimmed form with whitespace on both sides. *)
Lemma trim_split (s : jsstring) :
  exists pre post,
    s = pre ++ trim s ++ post /\
    forallb is_space pre = true /\ forallb is_space post = true.
Proof.
  destruct (drop_space_split s) as [p [Ep Hp]].
  destruct (drop_space_split (rev (drop_space s))) as [q [Eq Hq]].
  exists p, (rev q). split; [|split; [exact Hp|]].
  - unfold trim. rewrite <- rev_app_distr, <- Eq, rev_involutive. exact Ep.
  - apply forallb_forall. intros c Hc. apply in_rev in Hc.
    rewrite forallb_forall in Hq. exact (Hq c Hc).
Qed.

Lemma words_trim (s : jsstring) : words (trim s) = words s.
Proof.
  destruct (trim_split s) as [pre [post [E [Hpre Hpost]]]].
  rewrite E at 2. rewrite (words_pad_left pre _ Hpre). symmetry.
  apply words_pad_right. exact Hpost.
Qed.

(** Collapsing runs of whitespace keeps the words. *)
Lemma fields_collapse (s : jsstring) :
  words (collapse_from true s) = words s /\
  hd [] (fields (collapse_from false s)) = hd [] (fields s) /\
  filter nonempty (tl (fields (collapse_from false s))) = filter nonempty (tl (fields s)).
Proof.
  assert (is_space SPACE = true) as Hsp by reflexivity.
  induction s as [|c s [IHt [IHh IHf]]]; [repeat split|].
  cbn [collapse_from fields]. destruct (is_space c) eqn:E.
  - split; [rewrite (words_space c s E); exact IHt|].
    cbn [fields]. rewrite Hsp. cbn [hd tl]. split; [reflexivity|exact IHt].
  - destruct (fields_cons (collapse_from false s)) as [l [ls El]].
    destruct (fields_cons s) as [l' [ls' El']].
    unfold words. cbn [fields]. rewrite E, El, El' in *. cbn [hd tl filter nonempty] in *.
    rewrite IHh, IHf. repeat split.
Qed.

Lemma words_collapse (s : jsstring) : words (collapse_spaces s) = words s.
Proof.
  destruct (fields_collapse s) as [_ [Hh Ht]]. unfold words, collapse_spaces.
  destruct (fields_cons (collapse_from false s)) as [l [ls E]].
  destruct (fields_cons s) as [l' [ls' E']].
  rewrite E, E' in *. cbn [hd tl filter] in *. rewrite Hh, Ht. reflexivity.
Qed.

(** What collapsing leaves has single spaces only, and none in front when
    the text before it ended in whitespace. *)
Lemma collapse_from_single (b : bool) (s : jsstring) :
  single_spaced (collapse_from b s) = true /\
  (b = true -> match collapse_from b s with d :: _ => negb (is_space d) | [] => true end = true).
Proof.
  revert b. induction s as [|c s IH]; intros b; [split; reflexivity|].
  cbn [collapse_from]. destruct (is_space c) eqn:E.
  - destruct b.
    + exact (IH true).
    + destruct (IH true) as [H1 H2]. split; [|discriminate].
      cbn [single_spaced]. change (is_space SPACE) with true. cbn iota.
      rewrite N.eqb_refl, (H2 eq_refl), H1. reflexivity.
  - destruct (IH false) as [H1 _]. split.
    + cbn [single_spaced]. rewrite E, H1. reflexivity.
    + intros _. rewrite E. reflexivity.
Qed.

Lemma single_spaced_suffix (a b : jsstring) :
  single_spaced (a ++ b) = true -> single_spaced b = true.
Proof.
  induction a as [|c a IH]; [intros H; exact H|].
  cbn [app single_spaced]. intros H. apply andb_true_iff in H. exact (IH (proj2 H)).
Qed.

Lemma single_spaced_prefix (a b : jsstring) :
  single_spaced (a ++ b) = true -> single_spaced a = true.
Proof.
  induction a as [|c a IH]; [reflexivity|].
  cbn [app single_spaced]. intros H. apply andb_true_iff in H. destruct H as [Hc Ha].
  rewrite (IH Ha), andb_true_r.
  destruct (is_space c); [|reflexivity].
  apply andb_true_iff in Hc. destruct Hc as [Hc Hn]. rewrite Hc.
  destruct a as [|d a]; [reflexivity|exact Hn].
Qed.

(** The normalised line is the log line squeezed. *)
Lemma normalized_squeezed (line : jsstring) :
  squeezed line (trim (collapse_spaces line)).
Proof.
  split; [rewrite words_trim; apply words_collapse|].
  split; [|apply trim_is_trimmed].
  destruct (trim_split (collapse_spaces line)) as [pre [post [E _]]].
  destruct (collapse_from_single false line) as [H _]. fold (collapse_spaces line) in H.
  rewrite E in H. apply single_spaced_suffix in H. apply single_spaced_prefix in H. exact H.
Qed.

Lemma single_spaced_spaces (m : jsstring) (c : code) :
  single_spaced m = true -> In c m -> is_space c = true -> c = SPACE.
Proof.
  induction m as [|d m IH]; [intros _ []|].
  cbn [single_spaced]. intros H [<-|Hin] Hc.
  - rewrite Hc in H. apply andb_true_iff in H. destruct H as [H _].
    apply andb_true_iff in H. destruct H as [H _]. apply N.eqb_eq in H. exact H.
  - apply andb_true_iff in H. exact (IH (proj2 H) Hin Hc).
Qed.

Lemma normalized_log_squeezed (log : list jsstring) (m : jsstring) :
  In m (normalized_log log) -> exists line, In line log /\ squeezed line m.
Proof.
  unfold normalized_log. intros H. apply in_map_iff in H. destruct H as [line [<- Hin]].
  exists line. split; [exact Hin|apply normalized_squeezed].
Qed.

Lemma is_last_with_in (p : jsstring -> bool) (l : list jsstring) (m : jsstring) :
  is_last_with p l m -> In m l.
Proof. intros [a [b [-> _]]]. apply in_or_app. right. left. reflexivity. Qed.

Lemma filter_all {A : Type} (p : A -> bool) (l : list A) :
  forallb p l = true -> filter p l = l.
Proof.
  induction l as [|x l IH]; [reflexivity|]. simpl. intros H.
  apply andb_true_iff in H. destruct H as [Hx Hl]. rewrite Hx, (IH Hl). reflexivity.
Qed.

Lemma join_cons_head (sep : jsstring) (c : code) (l : jsstring) (ls : list jsstring) :
  join sep ((c :: l) :: ls) = c :: join sep (l :: ls).
Proof. destruct ls; reflexivity. Qed.

(** A single-spaced text that does not end in whitespace is its pieces
    joined by spaces, and no piece after the first is empty. *)
Lemma single_spaced_fields (m : jsstring) :
  single_spaced m = true ->
  (forall a c, m = a ++ [c] -> is_space c = false) ->
  m = join [SPACE] (fields m) /\ forallb nonempty (tl (fields m)) = true /\
  (nonempty (hd [] (fields m)) = false ->
   match m with c :: _ => is_space c = true | [] => True end).
Proof.
  induction m as [|c r IH]; [intros _ _; repeat split|].
  cbn [single_spaced]. intros H Hend. apply andb_true_iff in H. destruct H as [Hc Hr].
  assert (forall a d, r = a ++ [d] -> is_space d = false) as Hend'
    by (intros a d ->; exact (Hend (c :: a) d eq_refl)).
  destruct (IH Hr Hend') as [Ej [Ht Hh]].
  cbn [fields]. destruct (is_space c) eqn:E.
  - apply andb_true_iff in Hc. destruct Hc as [Hc Hn]. apply N.eqb_eq in Hc. subst c.
    destruct r as [|d r]; [exfalso; specialize (Hend [] SPACE eq_refl); congruence|].
    apply negb_true_iff in Hn.
    destruct (fields_cons (d :: r)) as [l [ls El]]. rewrite El in *. cbn [hd tl] in *.
    destruct l as [|x l]; [specialize (Hh eq_refl); congruence|].
    split; [|split; [cbn [forallb nonempty]; exact Ht|intros _; reflexivity]].
    transitivity (SPACE :: join [SPACE] ((x :: l) :: ls)); [f_equal; exact Ej|reflexivity].
  - destruct (fields_cons r) as [l [ls El]]. rewrite El in *. cbn [hd tl] in *.
    split; [rewrite join_cons_head, <- Ej; reflexivity|].
    split; [exact Ht|discriminate].
Qed.

(** Squeezing is a function: the squeezed form of a line is its words
    joined by single spaces. *)
Lemma squeezed_join (line m : jsstring) :
  squeezed line m -> m = join [SPACE] (words line).
Proof.
  intros [Hw [Hs [Hl Hr]]]. rewrite <- Hw.
  assert (forall a c, m = a ++ [c] -> is_space c = false) as Hend.
  { intros a c ->. rewrite rev_app_distr in Hr. cbn [rev app] in Hr.
    exact (drop_space_head _ _ _ Hr). }
  destruct (single_spaced_fields m Hs Hend) as [Ej [Ht Hh]].
  unfold words. destruct (fields_cons m) as [l [ls El]]. rewrite El in *.
  cbn [hd tl filter] in *. rewrite (filter_all _ _ Ht).
  destruct l as [|x l]; [|exact Ej].
  cbn [nonempty]. specialize (Hh eq_refl).
  destruct m as [|c m]; [destruct ls; [reflexivity|discriminate El]|].
  exfalso. cbn [drop_space] in Hl. rewrite Hh in Hl.
  destruct (drop_space_suffix m) as [p Hp].
  assert (List.length m = List.length (p ++ c :: m)) as Hlen by (rewrite Hl in Hp; rewrite <- Hp; reflexivity).
  rewrite length_app in Hlen. cbn [List.length] in Hlen. lia.
Qed.

(** X8: What the fixer takes from the compiler's log.  Every line is read
    squeezed: its words joined by single spaces, so that runs of whitespace
    of any kind are one space and the ends carry none.  The result is
    nothing when no line mentions an error or a warning; otherwise the last
    line that mentions an error, or, only when no line mentions an error,
    the last line that mentions a warning.  The message is never empty. *)
Theorem getScadErrorMessage_choice (log : list jsstring) :
  normalized_log log = List.map (fun line => join [SPACE] (words line)) log /\
  (getScadErrorMessage log = None <->
   forallb (fun l => negb (mentions_error l) && negb (mentions_warning l))
     (normalized_log log) = true) /\
  (forall m, getScadErrorMessage log = Some m ->
     (is_last_with mentions_error (normalized_log log) m \/
      (forallb (fun l => negb (mentions_error l)) (normalized_log log) = true /\
       is_last_with mentions_warning (normalized_log log) m)) /\
     m <> [] /\
     (exists line, In line log /\ squeezed line m) /\
     (forall c, In c m -> is_space c = true -> c = SPACE)).
Proof.
  split.
  { unfold normalized_log. apply map_ext. intros line.
    apply squeezed_join, normalized_squeezed. }
  assert (forall m, In m (normalized_log log) ->
                    (exists line, In line log /\ squeezed line m) /\
                    forall c, In c m -> is_space c = true -> c = SPACE) as Hsp.
  { intros m Hm. destruct (normalized_log_squeezed log m Hm) as [line [Hin Hsq]].
    split; [exists line; split; assumption|].
    intros c Hc Hs. destruct Hsq as [_ [Hsingle _]].
    exact (single_spaced_spaces m c Hsingle Hc Hs). }
  assert (getScadErrorMessage log =
          or_else (or_else (find_last mentions_error (normalized_log log))
                           (find_last mentions_warning (normalized_log log))) None) as E.
  { unfold getScadErrorMessage, mentions_error, mentions_warning, normalized_log.
    destruct log as [|l log]; reflexivity. }
  rewrite E. clear E.
  destruct (find_last mentions_error (normalized_log log)) as [m|] eqn:Ee.
  - pose proof (find_last_spec _ _ _ Ee) as Hl.
    assert (m <> []) as Hm.
    { destruct Hl as [_ [_ [_ [H _]]]]. apply (mentions_nonempty (lit "error")); [discriminate|exact H]. }
    destruct m as [|c m]; [congruence|]. cbn [or_else]. split.
    + split; [discriminate|]. intros H. exfalso.
      pose proof (is_last_with_in _ _ _ Hl) as Hin.
      destruct Hl as [a [b [El [Hp _]]]]. rewrite forallb_forall in H.
      specialize (H _ Hin). rewrite Hp in H. discriminate H.
    + intros m' [= <-]. split; [left; exact Hl|]. split; [exact Hm|].
      apply Hsp. exact (is_last_with_in _ _ _ Hl).
  - apply find_last_none in Ee. cbn [or_else].
    destruct (find_last mentions_warning (normalized_log log)) as [m|] eqn:Ew.
    + pose proof (find_last_spec _ _ _ Ew) as Hl.
      assert (m <> []) as Hm.
      { destruct Hl as [_ [_ [_ [H _]]]].
        apply (mentions_nonempty (lit "warning")); [discriminate|exact H]. }
      destruct m as [|c m]; [congruence|]. cbn [or_else].
      split.
      * split; [discriminate|]. intros H. exfalso.
        pose proof (is_last_with_in _ _ _ Hl) as Hin.
        destruct Hl as [a [b [El [Hp _]]]]. rewrite forallb_forall in H.
        specialize (H _ Hin). rewrite Hp, andb_false_r in H. discriminate H.
      * intros m' [= <-]. split; [right; split; assumption|]. split; [exact Hm|].
        apply Hsp. exact (is_last_with_in _ _ _ Hl).
    + apply find_last_none in Ew. split; [|discriminate].
      split; [|reflexivity]. intros _. apply forallb_forall. intros l Hl.
      rewrite forallb_forall in Ee, Ew. rewrite (Ee _ Hl), (Ew _ Hl). reflexivity.
Qed.

Lemma or_else_default (a : option jsstring) (c : code) (d : jsstring) :
  exists c' m, or_else a (Some (c :: d)) = Some (c' :: m).
Proof. destruct a as [[|x a]|]; simpl; eauto. Qed.

(** The world after one compile on a loaded engine. *)
Lemma compileScad_world (r : nat -> jsstring -> invocation) (text : jsstring) (w : world) :
  snd (compileScad (Loaded r) text w)
  = {| calls := calls w ++ [Scad.normalizeScadText text];
       scadErrors := printed (r (List.length (calls w)) (Scad.normalizeScadText text)) |}.
Proof.
  unfold compileScad, bind, clear_errors, throw, try_catch, render, read_errors, ret.
  cbn [calls scadErrors fst snd app].
  destruct (result (r (List.length (calls w)) (Scad.normalizeScadText text))) as [m|[out|]];
    cbn iota beta; try reflexivity.
  destruct (nonempty (trim out)); reflexivity.
Qed.

(** X9: Diagnostics do not leak from one compile into the next: whatever
    the log held before, [compileScad] gives the same outcome and leaves the
    same log.  With a loaded engine the log it leaves is what this call
    printed, a failure carries a message that is not empty, and a success
    returns the compiler's output, which is not blank. *)
Theorem compileScad_no_leak (eng : engine) (text : jsstring) :
  (forall w1 w2,
     calls w1 = calls w2 ->
     fst (compileScad eng text w1) = fst (compileScad eng text w2) /\
     snd (compileScad eng text w1) = snd (compileScad eng text w2)) /\
  (forall r w,
     eng = Loaded r ->
     let inv := r (List.length (calls w)) (Scad.normalizeScadText text) in
     scadErrors (snd (compileScad eng text w)) = printed inv /\
     (forall e, fst (compileScad eng text w) = inr e -> exists c m, e = Some (c :: m)) /\
     (forall out, fst (compileScad eng text w) = inl out ->
        result inv = Returned (Some out) /\ nonempty (trim out) = true)).
Proof.
  split.
  - intros w1 w2 Hcalls.
    unfold compileScad, bind, clear_errors, throw, try_catch, render, read_errors, ret.
    destruct eng as [m|r]; cbn [calls scadErrors fst snd app]; rewrite Hcalls.
    + split; reflexivity.
    + destruct (result (r (List.length (calls w2)) (Scad.normalizeScadText text)))
        as [m|[out|]]; cbn iota beta; try (split; reflexivity).
  - intros r w ->. cbv zeta. split; [rewrite compileScad_world; reflexivity|].
    unfold compileScad, bind, clear_errors, throw, try_catch, render, read_errors, ret.
    cbn [calls scadErrors fst snd app].
    destruct (result (r (List.length (calls w)) (Scad.normalizeScadText text))) as [m|[out|]];
      cbn iota beta; cbn [fst].
    + split; [|discriminate]. intros e [= <-]. apply or_else_default.
    + destruct (nonempty (trim out)) eqn:En; cbn [fst].
      * split; [discriminate|]. intros o [= <-]. auto.
      * split; [|discriminate]. intros e [= <-]. apply or_else_default.
    + split; [|discriminate]. intros e [= <-]. apply or_else_default.
Qed.

End MoreFixer.
(** ** The page of the fixer *)

Section MoreFixerPage.

Import Fixer FixerPage.

Lemma jsstring_eqb_eq (a b : jsstring) : jsstring_eqb a b = true <-> a = b.
Proof.
  unfold jsstring_eqb. destruct (list_eq_dec N.eq_dec a b); split; congruence.
Qed.

Lemma jsstring_eqb_refl (a : jsstring) : jsstring_eqb a a = true.
Proof. apply jsstring_eqb_eq. reflexivity. Qed.

Lemma visible_not_space (c : code) : visible c = true -> is_space c = false /\ c <> BOM.
Proof.
  intros H. apply visible_spec in H. destruct H as [Hp [Hs _]]. split; [exact Hs|].
  intros ->. discriminate Hp.
Qed.

(** A visible character of the input box is still there after the leading
    byte-order mark is removed and the text is trimmed. *)
Lemma visible_survives (raw : jsstring) :
  existsb visible raw = true -> existsb visible (trim (strip_bom raw)) = true.
Proof.
  rewrite !existsb_exists. intros [c [Hin Hv]]. exists c. split; [|exact Hv].
  destruct (visible_not_space _ Hv) as [Hs Hb].
  apply trim_keeps; [|exact Hs].
  destruct raw as [|d raw]; [destruct Hin|]. simpl.
  destruct (N.eqb_spec d BOM) as [->|]; [|exact Hin].
  destruct Hin as [<-|Hin]; [congruence|exact Hin].
Qed.

Lemma good_line_head (l : jsstring) :
  good_line l -> exists c l', l = c :: l' /\ is_space c = false /\ c <> BOM.
Proof.
  intros [Hne [[Hd _] Hch]]. destruct l as [|c l']; [congruence|].
  exists c, l'. split; [reflexivity|]. split.
  - simpl in Hd. destruct (is_space c); [|reflexivity].
    exfalso. destruct (drop_space_suffix l') as [p Hp].
    apply (f_equal (@List.length _)) in Hd. rewrite Hp in Hd at 2.
    simpl in Hd. rewrite length_app in Hd. lia.
  - inversion Hch as [|? ? Hc _]; subst. intros ->. discriminate Hc.
Qed.

Lemma good_line_rev (l : jsstring) :
  good_line l -> exists c l', rev l = c :: l' /\ is_space c = false.
Proof.
  intros [Hne [[_ Hd] _]]. destruct (rev l) as [|c l'] eqn:E.
  - apply (f_equal (@rev _)) in E. rewrite rev_involutive in E. simpl in E. congruence.
  - exists c, l'. split; [reflexivity|].
    simpl in Hd. destruct (is_space c); [|reflexivity].
    exfalso. destruct (drop_space_suffix l') as [p Hp].
    apply (f_equal (@List.length _)) in Hd. rewrite Hp in Hd at 2.
    simpl in Hd. rewrite length_app in Hd. lia.
Qed.

Lemma join_ends (sep : jsstring) (ls : list jsstring) :
  ls <> [] -> exists pre, join sep ls = pre ++ last ls [].
Proof.
  induction ls as [|l ls IH]; [congruence|]. intros _.
  destruct ls as [|l' ls'].
  - exists []. reflexivity.
  - destruct IH as [pre Hp]; [discriminate|].
    exists (l ++ sep ++ pre).
    change (join sep (l :: l' :: ls')) with (l ++ sep ++ join sep (l' :: ls')).
    rewrite Hp, <- !app_assoc. reflexivity.
Qed.

(** A text in normal form has nothing to trim and no byte-order mark. *)
Lemma normal_form_untouched (ls : list jsstring) :
  ls <> [] -> Forall good_line ls ->
  trim (strip_bom (join [LF] ls)) = join [LF] ls.
Proof.
  intros Hne Hgood.
  assert (good_line (hd [] ls) /\ good_line (last ls [])) as [Hh Hl].
  { rewrite Forall_forall in Hgood. split.
    - apply Hgood. destruct ls; [congruence|left; reflexivity].
    - apply Hgood. destruct (exists_last Hne) as [a [x ->]].
      rewrite last_last. apply in_or_app. right. left. reflexivity. }
  destruct (good_line_head _ Hh) as [c [l' [Eh [Hs Hb]]]].
  assert (exists rest, join [LF] ls = c :: rest) as [rest Ej].
  { destruct ls as [|l ls']; [congruence|]. simpl in Eh. subst l.
    destruct ls'; simpl; eauto. }
  assert (strip_bom (join [LF] ls) = join [LF] ls) as ->.
  { rewrite Ej. simpl. apply N.eqb_neq in Hb. rewrite Hb. reflexivity. }
  apply trim_fixed. split.
  - rewrite Ej. apply drop_space_fixed. exact Hs.
  - destruct (join_ends [LF] ls Hne) as [pre Hp]. rewrite Hp, rev_app_distr.
    destruct (good_line_rev _ Hl) as [d [m [Er Hd]]]. rewrite Er.
    apply drop_space_fixed. exact Hd.
Qed.

(** What [fixCode] does when STL is chosen and the text is not blank. *)
Lemma fixCode_stl (eng : engine) (raw : jsstring) (w : world) :
  nonempty (trim (strip_bom raw)) = true ->
  fixCode eng (lit "stl") raw w
  = (inl {| output := Stl.repairStlText (trim (strip_bom raw));
            copyDisabled := false;
            details :=
              if jsstring_eqb (Stl.repairStlText (trim (strip_bom raw))) (trim (strip_bom raw))
              then lit "No changes detected."
              else lit "Normalized whitespace, removed non-printables, and ensured solid/endsolid.";
            status :=
              if jsstring_eqb (Stl.repairStlText (trim (strip_bom raw))) (trim (strip_bom raw))
              then lit "STL looks valid. No changes needed."
              else lit "Applied STL fixes.";
            statusError := false |}, w).
Proof.
  intros Hn. unfold fixCode. rewrite Hn. reflexivity.
Qed.

(** X10: Fixing STL twice: when the input box holds a visible character and STL
    is chosen, the fixer shows the repaired text and calls no compiler; fed
    its own output, it shows the same text and reports that no change was
    needed. *)
Theorem fixCode_stl_settles (eng : engine) (raw : jsstring) (w : world) :
  existsb visible raw = true ->
  exists p,
    fixCode eng (lit "stl") raw w = (inl p, w) /\
    output p = Stl.repairStlText (trim (strip_bom raw)) /\
    copyDisabled p = false /\ statusError p = false /\
    fixCode eng (lit "stl") (output p) w
    = (inl {| output := output p; copyDisabled := false;
              details := lit "No changes detected.";
              status := lit "STL looks valid. No changes needed.";
              statusError := false |}, w).
Proof.
  intros Hv. apply visible_survives in Hv.
  assert (nonempty (trim (strip_bom raw)) = true) as Hne
    by (destruct (trim (strip_bom raw)); [discriminate Hv|reflexivity]).
  pose proof (proj2 (stl_body_nonempty_iff _) Hv) as Hbody.
  destruct (repairStlText_normal_form _ Hbody) as [ls [Hls [Hgood E]]].
  destruct (repairStlText_tests (trim (strip_bom raw))) as [Hs He].
  assert (trim (strip_bom (Stl.repairStlText (trim (strip_bom raw))))
          = Stl.repairStlText (trim (strip_bom raw))) as Htrim
    by (rewrite E; apply normal_form_untouched; assumption).
  assert (Stl.repairStlText (Stl.repairStlText (trim (strip_bom raw)))
          = Stl.repairStlText (trim (strip_bom raw))) as Hidem
    by (rewrite E in *; apply repairStlText_fixed; assumption).
  eexists. split; [apply fixCode_stl; exact Hne|].
  cbn [output copyDisabled statusError]. repeat (split; [reflexivity|]).
  rewrite fixCode_stl.
  - rewrite Htrim, Hidem, jsstring_eqb_refl. reflexivity.
  - rewrite Htrim. destruct (Stl.repairStlText (trim (strip_bom raw))); [discriminate Hs|reflexivity].
Qed.

Lemma fixCode_stl_settles_witness :
  exists p,
    fixCode (LoadFailed None) (lit "stl") (lit " solid a, b ") {| calls := []; scadErrors := [] |}
    = (inl p, {| calls := []; scadErrors := [] |}) /\
    output p = lit "solid a  b" ++ [LF] ++ lit "endsolid model".
Proof.
  destruct (fixCode_stl_settles (LoadFailed None) (lit " solid a, b ")
              {| calls := []; scadErrors := [] |} eq_refl) as [p [H1 [H2 _]]].
  exists p. split; [exact H1|]. rewrite H2. reflexivity.
Defined.

End MoreFixerPage.
Section MoreFixerPage2.

Import Fixer FixerPage.

(** A changed SCAD text is not empty. *)
Lemma repairScadText_changed_nonempty (t : jsstring) :
  Scad.changed (Scad.repairScadText t) = true -> Scad.text (Scad.repairScadText t) <> [].
Proof.
  intros Hc Hnil. apply changed_iff_rewrites in Hc. destruct Hc as [i [line [Hi Hr]]].
  pose proof (repairScadText_lines t) as Hl. rewrite Hnil in Hl. simpl in Hl.
  assert (nth_error (List.map fst (Scad.mapi_from Scad.fix_line 0 (Scad.input_lines t))) i
          = Some (fst (Scad.fix_line i line))) as Hn
    by (rewrite nth_error_map, mapi_from_nth, Hi; reflexivity).
  rewrite <- Hl in Hn. destruct i; simpl in Hn; [|destruct i; discriminate Hn].
  injection Hn as Hn. unfold rewrites in Hr. unfold Scad.fix_line in Hn.
  fold (working_line 0 line) in Hn.
  destruct (Scad.match_assignment (working_line 0 line)) as [[ws rest]|] eqn:E; [|discriminate].
  destruct (match_assignment_spec _ _ _ E) as [Hk _].
  destruct (geometry_keyword_head _ Hk) as [_ Hrest]. simpl in Hn.
  symmetry in Hn. apply app_eq_nil in Hn. destruct Hn. congruence.
Qed.

(** [fixScad] returns a result, after at most two calls of the compiler, and
    the text it returns is not empty when the text it was given is not. *)
Lemma fixScad_returns (eng : engine) (text : jsstring) (w : world) :
  exists r new,
    fst (fixScad eng text w) = inl r /\
    new_calls w (snd (fixScad eng text w)) new /\ (List.length new <= 2)%nat /\
    (text <> [] -> fixed r <> []).
Proof.
  rewrite fixScad_unfold. unfold fixScad_outcome.
  pose proof (compileScad_calls eng text w) as H1.
  destruct (compileScad eng text w) as [[out|error] w1]; cbn [fst snd] in *.
  - eexists. eexists. split; [reflexivity|]. split; [exact H1|].
    split; [destruct eng; simpl; lia|]. intros H. exact H.
  - pose proof (compileScad_calls eng (Scad.text (Scad.repairScadText text)) w1) as H2.
    destruct (Scad.changed (Scad.repairScadText text)) eqn:Hc.
    + pose proof (repairScadText_changed_nonempty _ Hc) as Hne.
      destruct (compileScad eng (Scad.text (Scad.repairScadText text)) w1) as [[out|e2] w2];
        cbn [fst snd] in *; unfold new_calls in *; rewrite H2, H1, <- app_assoc;
        (eexists; eexists; split; [reflexivity|]; split; [reflexivity|];
         split; [destruct eng; simpl; lia|]; intros _; exact Hne).
    + eexists. eexists. split; [reflexivity|]. split; [exact H1|].
      split; [destruct eng; simpl; lia|]. intros H. exact H.
Qed.

(** X11: Whatever the input box and the format menu hold, [fixCode] ends with a
    page: it never throws.  It calls the compiler at most twice, and not at
    all unless the format is SCAD; whenever it enables the copy button the
    output box is not empty; and the details and status lines are never
    empty. *)
Theorem fixCode_page (eng : engine) (choice raw : jsstring) (w : world) :
  exists p new,
    fst (fixCode eng choice raw w) = inl p /\
    new_calls w (snd (fixCode eng choice raw w)) new /\
    (List.length new <= 2)%nat /\
    (new <> [] ->
     getSelectedFormat choice (trim (strip_bom raw)) = Some (lit "scad")) /\
    (copyDisabled p = false -> output p <> []) /\
    details p <> [] /\ status p <> [].
Proof.
  assert (forall p, copyDisabled p = true -> details p <> [] -> status p <> [] ->
            exists p' new, fst (@inl page (option jsstring) p, w) = inl p' /\
              new_calls w (snd (@inl page (option jsstring) p, w)) new /\
              (List.length new <= 2)%nat /\
              (new <> [] ->
               getSelectedFormat choice (trim (strip_bom raw)) = Some (lit "scad")) /\
              (copyDisabled p' = false -> output p' <> []) /\
              details p' <> [] /\ status p' <> []) as Hquiet.
  { intros p Hc Hd Hs. exists p, []. split; [reflexivity|].
    split; [unfold new_calls; rewrite app_nil_r; reflexivity|].
    split; [simpl; lia|]. split; [congruence|]. split; [congruence|]. auto. }
  unfold fixCode.
  destruct (nonempty (trim (strip_bom raw))) eqn:Hn; cbn [negb];
    [|apply Hquiet; [reflexivity|intro Hx; vm_compute in Hx; discriminate Hx|intro Hx; vm_compute in Hx; discriminate Hx]].
  destruct (getSelectedFormat choice (trim (strip_bom raw))) as [[|c format]|] eqn:Hf;
    try (apply Hquiet; [reflexivity|intro Hx; vm_compute in Hx; discriminate Hx|intro Hx; vm_compute in Hx; discriminate Hx]).
  destruct (jsstring_eqb (c :: format) (lit "stl")) eqn:Hstl.
  - unfold ret. cbv zeta. cbn [fst snd]. eexists. exists []. split; [reflexivity|].
    split; [unfold new_calls; rewrite app_nil_r; reflexivity|].
    split; [simpl; lia|]. split; [congruence|]. cbn [copyDisabled output details status].
    split; [|split].
    + intros _. destruct (repairStlText_tests (trim (strip_bom raw))) as [Hs _].
      intros E. rewrite E in Hs. discriminate Hs.
    + destruct (jsstring_eqb (Stl.repairStlText _) _); intro Hx; vm_compute in Hx;
        discriminate Hx.
    + destruct (jsstring_eqb (Stl.repairStlText _) _); intro Hx; vm_compute in Hx;
        discriminate Hx.
  - destruct (jsstring_eqb (c :: format) (lit "scad")) eqn:Hscad;
      [|apply Hquiet; [reflexivity|intro Hx; vm_compute in Hx; discriminate Hx|intro Hx; vm_compute in Hx; discriminate Hx]].
    apply jsstring_eqb_eq in Hscad.
    destruct (fixScad_returns eng (trim (strip_bom raw)) w) as [r [new [Hr [Hnew [Hlen Hfix]]]]].
    assert (fixed r <> []) as Hout.
    { apply Hfix. destruct (trim (strip_bom raw)); [discriminate Hn|discriminate]. }
    unfold bind. destruct (fixScad eng (trim (strip_bom raw)) w) as [[r'|e] w'];
      cbn [fst snd] in *; [|discriminate Hr]. injection Hr as ->.
    destruct (ok r && negb (changed r)); [|destruct (ok r && changed r)]; unfold ret;
      cbn [fst snd]; (eexists; exists new; split; [reflexivity|]; split; [exact Hnew|];
      split; [exact Hlen|]; split; [intros _; rewrite Hscad; reflexivity|];
      cbn [copyDisabled output details status]; split; [intros _; exact Hout|];
      split; try (intro Hx; vm_compute in Hx; discriminate Hx)).
    destruct (errorMessage r) as [[|x m]|]; intro Hx; try discriminate Hx;
      vm_compute in Hx; discriminate Hx.
Qed.

(** X12: When the format is STL, chosen or detected, the fixer reports that no
    change was needed exactly when the text is in the repairer's normal
    form, and reports fixes otherwise; the compiler is not called. *)
Theorem fixCode_stl_report (eng : engine) (choice raw : jsstring) (w : world) :
  nonempty (trim (strip_bom raw)) = true ->
  getSelectedFormat choice (trim (strip_bom raw)) = Some (lit "stl") ->
  exists p,
    fixCode eng choice raw w = (inl p, w) /\
    output p = Stl.repairStlText (trim (strip_bom raw)) /\
    statusError p = false /\
    (status p = lit "STL looks valid. No changes needed." <->
     well_formed_stl (trim (strip_bom raw))) /\
    (status p = lit "Applied STL fixes." <->
     ~ well_formed_stl (trim (strip_bom raw))).
Proof.
  intros Hn Hf. unfold fixCode. rewrite Hn, Hf. cbn [negb].
  change (jsstring_eqb (lit "stl") (lit "stl")) with true. cbn iota.
  eexists. split; [reflexivity|]. cbn [output statusError status].
  split; [reflexivity|]. split; [reflexivity|].
  rewrite <- repairStlText_fixed_point.
  destruct (jsstring_eqb (Stl.repairStlText (trim (strip_bom raw))) (trim (strip_bom raw))) eqn:E.
  - apply jsstring_eqb_eq in E. split; split; try (intros _; assumption || reflexivity).
    + discriminate.
    + intros H. destruct (H E).
  - assert (Stl.repairStlText (trim (strip_bom raw)) <> trim (strip_bom raw)) as Hne.
    { intros H. apply jsstring_eqb_eq in H. congruence. }
    split; split; try (intros _; assumption || reflexivity).
    + discriminate.
    + intros H. destruct (Hne H).
Qed.

Lemma fixCode_stl_report_witness :
  exists p,
    fixCode (LoadFailed None) (lit "auto")
      (lit "solid a" ++ [LF] ++ lit "facet normal 0 0 1" ++ [LF] ++ lit "endsolid a")
      {| calls := []; scadErrors := [] |}
    = (inl p, {| calls := []; scadErrors := [] |}) /\
    statusError p = false.
Proof.
  destruct (fixCode_stl_report (LoadFailed None) (lit "auto")
              (lit "solid a" ++ [LF] ++ lit "facet normal 0 0 1" ++ [LF] ++ lit "endsolid a")
              {| calls := []; scadErrors := [] |} eq_refl eq_refl) as [p [H1 [_ [H2 _]]]].
  exists p. split; [exact H1|exact H2].
Defined.

End MoreFixerPage2.
(** ** Loading in the viewer *)

Section MoreViewer.

Import Sniff Viewer.

Ltac name_new_events s :=
  match goal with
  | |- exists new, ?a :: ?b :: ?c :: ?d :: trace s = _ /\ _ => exists [a; b; c; d]
  | |- exists new, ?a :: ?b :: ?c :: trace s = _ /\ _ => exists [a; b; c]
  end; split; [reflexivity|].

(** What one [loadInput] adds to the trace, case by case. *)
Lemma loadInput_events (env : collaborators) (f : format) (d : data) (name : jsstring)
    (allowRepair : bool) (s : state) :
  exists new,
    trace (loadInput env f d name allowRepair s) = new ++ trace s /\
    filter is_parser_call new = [ParserCalled f d] /\
    (forall n, In (ModelShown n) new ->
       n = name /\ forallb (fun e => negb (is_prompt e)) new = true /\
       exists object,
         parseByFormat env f d = Parsed (Some object) /\
         Stats.validateObject object = None) /\
    (forall m t, In (PromptShown m t) new ->
       allowRepair = true /\ repairModal env = true /\ d = Text t /\
       pendingRepairText (loadInput env f d name allowRepair s) = Some t) /\
    (forallb (fun e => negb (is_prompt e)) new = true ->
     pendingRepairText (loadInput env f d name allowRepair s) = pendingRepairText s).
Proof.
  unfold loadInput, clearModel, setStatus, emit, showRepairPrompt. cbv zeta.
  destruct (parseByFormat env f d) as [error|[object|]].
  - destruct allowRepair; [destruct d as [t|b]; [destruct (repairModal env) eqn:Hm|]|];
      cbn [negb pendingRepairText trace];
      name_new_events s.
    all: cbn [filter is_parser_call is_prompt forallb negb andb].
    all: split; [reflexivity|].
    all: split; [intros n Hn; simpl in Hn; repeat (destruct Hn as [Hn|Hn]; try discriminate Hn); destruct Hn|].
    all: split; [intros m t0 Hp; simpl in Hp;
                 repeat (destruct Hp as [Hp|Hp]; try discriminate Hp);
                 try (injection Hp as <- <-; auto); try (destruct Hp; fail)|].
    all: try (intros _; reflexivity); try discriminate.
  - destruct (Stats.validateObject object) as [failure|] eqn:Hv.
    + destruct allowRepair; [destruct d as [t|b]; [destruct (repairModal env) eqn:Hm|]|];
        cbn [negb pendingRepairText trace];
        name_new_events s.
      all: cbn [filter is_parser_call is_prompt forallb negb andb].
      all: split; [reflexivity|].
      all: split; [intros n Hn; simpl in Hn; repeat (destruct Hn as [Hn|Hn]; try discriminate Hn); destruct Hn|].
      all: split; [intros m t0 Hp; simpl in Hp;
                   repeat (destruct Hp as [Hp|Hp]; try discriminate Hp);
                   try (injection Hp as <- <-; auto); try (destruct Hp; fail)|].
      all: try (intros _; reflexivity); try discriminate.
    + cbn [pendingRepairText trace].
      name_new_events s.
      cbn [filter is_parser_call is_prompt forallb negb andb].
      split; [reflexivity|]. split.
      * intros n Hn. simpl in Hn.
        repeat (destruct Hn as [Hn|Hn]; try discriminate Hn); [|destruct Hn].
        injection Hn as <-. split; [reflexivity|]. split; [reflexivity|].
        exists object. auto.
      * split; [|intros _; reflexivity].
        intros m t0 Hp. simpl in Hp.
        repeat (destruct Hp as [Hp|Hp]; try discriminate Hp). destruct Hp.
  - cbn [pendingRepairText trace].
    name_new_events s.
    cbn [filter is_parser_call is_prompt forallb negb andb].
    split; [reflexivity|]. split.
    + intros n Hn. simpl in Hn.
      repeat (destruct Hn as [Hn|Hn]; try discriminate Hn). destruct Hn.
    + split; [|intros _; reflexivity].
      intros m t0 Hp. simpl in Hp.
      repeat (destruct Hp as [Hp|Hp]; try discriminate Hp). destruct Hp.
Qed.

(** X13: One load: the parser is called exactly once; a model is shown only when
    the parser returned an object that passes validation, and then no repair
    is offered; a repair is offered only when [allowRepair] is set, the data
    is text and the page has the modal, and then that text is pending; and
    without an offer the pending text is left as it was. *)
Theorem loadInput_outcome (env : collaborators) (f : format) (d : data) (name : jsstring)
    (allowRepair : bool) (s : state) :
  exists new,
    trace (loadInput env f d name allowRepair s) = new ++ trace s /\
    filter is_parser_call new = [ParserCalled f d] /\
    (forall n, In (ModelShown n) new ->
       n = name /\ forallb (fun e => negb (is_prompt e)) new = true /\
       exists object,
         parseByFormat env f d = Parsed (Some object) /\
         Stats.validateObject object = None) /\
    (forall m t, In (PromptShown m t) new ->
       allowRepair = true /\ repairModal env = true /\ d = Text t /\
       pendingRepairText (loadInput env f d name allowRepair s) = Some t) /\
    (forallb (fun e => negb (is_prompt e)) new = true ->
     pendingRepairText (loadInput env f d name allowRepair s) = pendingRepairText s).
Proof. exact (loadInput_events env f d name allowRepair s). Qed.

(** A text that opens with [solid] has a visible character. *)
Lemma solid_visible (t : jsstring) :
  Sniff.test_solid t = true -> existsb visible t = true.
Proof.
  unfold Sniff.test_solid, starts_with_word.
  destruct t as [|c r]; [discriminate|].
  change (lit "solid") with (115 :: lit "olid"). cbn [prefix_ci].
  destruct (ci_eqb 115 c) eqn:E; [|discriminate]. intros _.
  pose proof (ci_letter 115 c eq_refl E) as Hc.
  cbn [existsb]. apply orb_true_iff. left.
  revert Hc. unfold is_ident_start, visible, in_range, COMMA.
  rewrite !orb_true_iff, !andb_true_iff, negb_true_iff, !N.eqb_eq, N.eqb_neq, !N.leb_le.
  lia.
Qed.

Lemma repairStlText_settled (x : jsstring) :
  existsb visible x = true -> Stl.repairStlText (Stl.repairStlText x) = Stl.repairStlText x.
Proof.
  intros Hv. apply stl_body_nonempty_iff in Hv.
  destruct (repairStlText_normal_form _ Hv) as [ls [Hls [Hgood E]]].
  destruct (repairStlText_tests x) as [Hs He].
  rewrite E in *. apply repairStlText_fixed; assumption.
Qed.

Lemma detected_stl (t : jsstring) :
  detectFormatFromText t = Some Stl ->
  Sniff.test_solid (trim t) = true /\ test_facet_normal (trim t) = true.
Proof.
  unfold detectFormatFromText. cbv zeta.
  destruct (negb (nonempty (trim t))); [discriminate|].
  destruct (test_open_brace (trim t) && test_asset_key (trim t)); [discriminate|].
  destruct (Sniff.test_solid (trim t) && test_facet_normal (trim t)) eqn:E.
  - intros _. apply andb_true_iff. exact E.
  - destruct (test_ply (trim t)); [discriminate|].
    destruct (test_off (trim t)); [discriminate|].
    destruct (test_obj (trim t)); [discriminate|].
    destruct (test_scad (trim t)); discriminate.
Qed.

Lemma format_eqb_eq (f g : format) : format_eqb f g = true -> f = g.
Proof. destruct f, g; (reflexivity || discriminate). Qed.

Lemma has_prompt (new : list event) :
  forallb (fun e => negb (is_prompt e)) new = false ->
  exists m t, In (PromptShown m t) new.
Proof.
  induction new as [|e new IH]; [discriminate|].
  cbn [forallb]. destruct e; cbn [is_prompt negb andb]; intros H;
    try (destruct (IH H) as [m [t Hin]]; exists m, t; right; exact Hin).
  eexists _, _. left. reflexivity.
Qed.

(** X14: A paste changes the pending repair text only to the pasted text itself
    (without byte-order mark, trimmed), and only when the sniffer takes that
    text for STL; such a text opens with [solid], and the repairer is
    idempotent on it. *)
Theorem handleText_offer (env : collaborators) (value : jsstring) (s : state) :
  pendingRepairText (handleText env value s) <> pendingRepairText s ->
  let t := trim (strip_bom value) in
  pendingRepairText (handleText env value s) = Some t /\
  repairModal env = true /\
  detectFormatFromText t = Some Stl /\
  Sniff.test_solid t = true /\
  Stl.repairStlText (Stl.repairStlText t) = Stl.repairStlText t.
Proof.
  unfold handleText, handleText_text. cbv zeta.
  set (t := trim (strip_bom value)).
  destruct (negb (nonempty t)); [intros H; exfalso; apply H; reflexivity|].
  destruct (detectFormatFromText t) as [f|] eqn:Hd;
    [|intros H; exfalso; apply H; reflexivity].
  destruct (loadInput_events env f (Text t) (lit "pasted." ++ List.map lower (label_of f))
              (format_eqb f Stl) s) as [new [_ [_ [_ [Hp Hn]]]]].
  intros Hneq.
  destruct (forallb (fun e => negb (is_prompt e)) new) eqn:Hall;
    [exfalso; apply Hneq, Hn; reflexivity|].
  destruct (has_prompt _ Hall) as [m [t0 Hin]].
  destruct (Hp m t0 Hin) as [Ha [Hm [Ht Hpend]]].
  injection Ht as <-. apply format_eqb_eq in Ha. subst f.
  destruct (detected_stl t Hd) as [Hs _].
  assert (trim t = t) as Et by (apply trim_fixed, trim_is_trimmed).
  rewrite Et in Hs.
  split; [exact Hpend|]. split; [exact Hm|]. split; [reflexivity|]. split; [exact Hs|].
  apply repairStlText_settled, solid_visible, Hs.
Qed.

Lemma handleText_offer_witness :
  let env := {| loaders := finds_nothing; renderToStl := fun _ => EngineFailed None;
                repairModal := true |} in
  pendingRepairText (handleText env unchanged_stl start) = Some unchanged_stl /\
  detectFormatFromText unchanged_stl = Some Stl.
Proof.
  intros env.
  destruct (handleText_offer env unchanged_stl start) as [H1 [_ [H2 _]]].
  - vm_compute. discriminate.
  - split; [exact H1|exact H2].
Defined.

End MoreViewer.

(** ** Opening a file in the viewer *)

Section MoreViewerFiles.

Import Sniff Viewer ViewerFiles.

Variable env : collaborators.
Variable decode : list Byte.byte -> jsstring.

Lemma parser_call_unique (new : list event) (f g : format) (d e : data) :
  filter is_parser_call new = [ParserCalled f d] ->
  In (ParserCalled g e) new -> g = f /\ e = d.
Proof.
  intros Hf Hin.
  assert (In (ParserCalled g e) (filter is_parser_call new)) as H
    by (apply filter_In; split; [exact Hin|reflexivity]).
  rewrite Hf in H. destruct H as [H|[]]. injection H as -> ->. split; reflexivity.
Qed.

(** X15: Opening a file: the parser is called at most once, for the format found
    from the name and the first 512 bytes; OBJ, OFF, glTF and SCAD always
    reach it as the decoded text of the whole file, PLY, GLB and 3MF as the
    buffer, STL as text exactly when its header looks like ASCII STL; and a
    repair is offered only for such an STL file, on the decoded text. *)
Theorem handleFile_outcome (name : jsstring) (buffer : list Byte.byte) (s : state) :
  let header := header_of decode buffer in
  exists new,
    trace (handleFile env decode name buffer s) = new ++ trace s /\
    (List.length (filter is_parser_call new) <= 1)%nat /\
    (forall f d, In (ParserCalled f d) new ->
       detectFormatFromFile name header = Some f /\
       (f = Obj \/ f = Off \/ f = Gltf \/ f = Scad -> d = Text (decode buffer)) /\
       (f = Ply \/ f = Glb \/ f = ThreeMf -> d = Binary buffer) /\
       (f = Stl ->
        if isLikelyAsciiStl header then d = Text (decode buffer) else d = Binary buffer)) /\
    (forall m t, In (PromptShown m t) new ->
       detectFormatFromFile name header = Some Stl /\
       isLikelyAsciiStl header = true /\
       t = decode buffer) /\
    (detectFormatFromFile name header = None -> filter is_parser_call new = []).
Proof.
  intros header. unfold handleFile, file_plan. cbv zeta. fold header.
  destruct (detectFormatFromFile name header) as [f|] eqn:Hd.
  - destruct f; [destruct (isLikelyAsciiStl header) eqn:Ha| | | | | | |].
    all: match goal with
         | |- context [loadInput env ?f' ?d' ?n' ?a' ?s'] =>
             destruct (loadInput_events env f' d' n' a' s')
               as [new [Ht [Hf [_ [Hp _]]]]]
         end.
    all: exists new; split; [exact Ht|]; split; [rewrite Hf; apply Nat.le_refl|].
    all: split;
      [intros g e Hin; destruct (parser_call_unique _ _ _ _ _ Hf Hin) as [-> ->];
       split; [reflexivity|];
       split; [intros [H|[H|[H|H]]]; (reflexivity || discriminate H)|];
       split; [intros [H|[H|H]]; (reflexivity || discriminate H)|];
       intros H; (reflexivity || discriminate H)|].
    all: split; [|discriminate].
    all: intros m t Hin; destruct (Hp m t Hin) as [Hallow [_ [Hdt _]]];
      try discriminate Hallow.
    injection Hdt as <-. auto.
  - exists [Status (lit "Unrecognized file format. Use STL, OBJ, PLY, OFF, glTF/GLB, 3MF, or SCAD.") true].
    split; [reflexivity|]. split; [cbn; apply Nat.le_0_l|].
    split; [intros f d [H|[]]; discriminate H|].
    split; [intros m t [H|[]]; discriminate H|].
    reflexivity.
Qed.

End MoreViewerFiles.
(** ** The OFF parser, further *)

Section MoreOff.

Import Num OffParser.

Lemma face_indices_length (line : jsstring) :
  exists m, List.length (face_indices line) = (3 * m)%nat.
Proof.
  unfold face_indices. cbv zeta.
  destruct (List.length (List.map Number (split_space line)) <? 4)%nat;
    [exists 0%nat; reflexivity|].
  destruct (List.map Number (split_space line)) as [|fv parts]; [exists 0%nat; reflexivity|].
  destruct (negb (isFinite fv) || ltb fv (Fin 3)); [exists 0%nat; reflexivity|].
  eexists. apply fan_triangulate_spec.
Qed.

Lemma concat_faces_length (used : list jsstring) :
  exists m, List.length (List.concat (List.map face_indices used)) = (3 * m)%nat.
Proof.
  induction used as [|l used [m IH]]; [exists 0%nat; reflexivity|].
  destruct (face_indices_length l) as [k Hk].
  exists (k + m)%nat. cbn [List.map List.concat]. rewrite length_app, Hk, IH. lia.
Qed.

Lemma div3_exact (k : nat) : Nat.div (3 * k) 3 = k.
Proof. rewrite Nat.mul_comm. apply Nat.div_mul. discriminate. Qed.

Lemma parse_body_whole (v f : num) (lines : list jsstring) (g : geometry) :
  parse_body v f lines = inl g ->
  List.length (position g) = (3 * vertex_count g)%nat /\
  ltb (of_nat (vertex_count g)) v = false /\
  (forall j, (j < vertex_count g)%nat -> ltb (of_nat j) v = true) /\
  (vertex_count g <= List.length lines)%nat /\
  index g <> Some [] /\
  (forall indices, index g = Some indices ->
     List.length indices = (3 * triangle_count g)%nat).
Proof.
  unfold parse_body.
  destruct (read_vertices v 0 [] lines) as [[vertices rest]|e] eqn:Ev; [|discriminate].
  destruct (read_faces f 0 [] rest) as [indices|e] eqn:Ef; [|discriminate].
  intros [= <-].
  destruct (read_vertices_spec _ _ _ _ _ _ Ev) as [k [Hlen [Hstop [Hrun [Hk _]]]]].
  destruct (read_faces_spec _ _ _ _ _ Ef) as [used [_ Hout]].
  destruct (concat_faces_length used) as [m Hm].
  cbn [List.length Nat.add] in *. unfold vertex_count, triangle_count.
  cbn [position index]. rewrite Hlen, div3_exact.
  split; [reflexivity|]. split; [exact Hstop|].
  split; [intros j Hj; apply Hrun; lia|]. split; [exact Hk|].
  cbn [app] in Hout. rewrite <- Hout in Hm.
  destruct indices as [|a indices]; [split; [discriminate|intros ? [=]]|].
  split; [discriminate|]. intros ? [= <-]. rewrite Hm, div3_exact. reflexivity.
Qed.

(** X16: What a successful parse of an OFF text is made of: the two counts were
    read and are finite; the position array holds whole vertices, exactly as
    many as the vertex loop ran (the count itself when it is a whole number);
    the index array, when set, is not empty and holds whole triangles. *)
Theorem parseOff_whole (text : jsstring) (g : geometry) :
  parseOff text = inl g ->
  exists v f,
    declared_counts text = Some (v, f) /\
    isFinite v = true /\ isFinite f = true /\
    List.length (position g) = (3 * vertex_count g)%nat /\
    ltb (of_nat (vertex_count g)) v = false /\
    (forall j, (j < vertex_count g)%nat -> ltb (of_nat j) v = true) /\
    (forall n, v = of_nat n -> vertex_count g = n) /\
    (vertex_count g < List.length (data_lines text))%nat /\
    index g <> Some [] /\
    (forall indices, index g = Some indices ->
       List.length indices = (3 * triangle_count g)%nat).
Proof.
  unfold parseOff, declared_counts.
  destruct (data_lines text) as [|header lines]; [discriminate|].
  destruct (header_rest header); [|discriminate].
  assert (forall c l, counts_line header lines = (Some c, l) ->
                      (List.length l <= List.length lines)%nat) as Hcl.
  { unfold counts_line. cbv zeta. destruct (nonempty (inline_counts header)).
    - intros c l [= _ <-]. apply Nat.le_refl.
    - destruct lines as [|l0 r0]; [discriminate|]. intros c l [= _ <-]. simpl. lia. }
  destruct (counts_line header lines) as [[countsLine|] lines'] eqn:Ec; [|discriminate].
  specialize (Hcl _ _ eq_refl).
  destruct (read_counts countsLine) as [|v [|f more]]; try discriminate.
  destruct (isFinite v) eqn:Hv; [|discriminate].
  destruct (isFinite f) eqn:Hf; [|discriminate].
  cbn [negb orb]. intros H.
  destruct (parse_body_whole _ _ _ _ H) as [H1 [H2 [H3 [H4 [H5 H6]]]]].
  exists v, f. split; [reflexivity|]. split; [exact Hv|]. split; [exact Hf|].
  split; [exact H1|]. split; [exact H2|]. split; [exact H3|].
  split; [|split; [cbn [List.length]; lia|split; [exact H5|exact H6]]].
  intros n ->. rewrite ltb_of_nat in H2. apply Nat.ltb_ge in H2.
  destruct (Nat.eq_dec (vertex_count g) n) as [E|Hne]; [exact E|].
  assert (n < vertex_count g)%nat as Hlt by lia.
  specialize (H3 n Hlt). rewrite ltb_of_nat in H3. apply Nat.ltb_lt in H3. lia.
Qed.

Lemma parseOff_whole_witness :
  exists g, parseOff off_fixture = inl g /\ vertex_count g = 4%nat /\
            List.length (position g) = 12%nat.
Proof.
  exists square.
  destruct (parseOff_whole off_fixture square parseOff_fixture)
    as [v [f [Hd [_ [_ [Hlen [_ [_ [Hn _]]]]]]]]].
  split; [exact parseOff_fixture|].
  assert (vertex_count square = 4%nat) as E.
  { apply Hn. vm_compute in Hd. injection Hd as <- _. reflexivity. }
  split; [exact E|]. rewrite Hlen, E. reflexivity.
Defined.

Lemma data_lines_normalized (text : jsstring) :
  data_lines (normalize_newlines text) = data_lines text.
Proof.
  unfold data_lines.
  rewrite (normalize_newlines_fixed _ (normalize_newlines_no_cr text)). reflexivity.
Qed.

Lemma data_lines_skip (a c b : jsstring) :
  ~ In CR a -> ~ In CR c -> ~ In CR b -> ~ In LF c ->
  is_data_line (trim c) = false ->
  data_lines (a ++ LF :: c ++ LF :: b) = data_lines (a ++ LF :: b).
Proof.
  intros Ha Hc Hb Hlf Hskip. unfold data_lines.
  assert (CR <> LF) as Hne by discriminate.
  rewrite !normalize_newlines_fixed.
  - rewrite !split_on_append, (split_on_no_sep LF c Hlf).
    rewrite !map_app, !filter_app. cbn [List.map filter]. rewrite Hskip. reflexivity.
  - intros H. apply in_app_or in H. destruct H as [H|[H|H]]; auto.
  - intros H. apply in_app_or in H. destruct H as [H|[H|H]]; auto.
    apply in_app_or in H. destruct H as [H|[H|H]]; auto.
Qed.

(** X17: The OFF parser reads a text with CR or CRLF line endings as it reads the
    text with LF endings, and a comment line or a blank line may stand
    anywhere between two lines without changing the result. *)
Theorem parseOff_skips (a c b : jsstring) :
  ~ In CR a -> ~ In CR c -> ~ In CR b -> ~ In LF c ->
  is_data_line (trim c) = false ->
  parseOff (a ++ LF :: c ++ LF :: b) = parseOff (a ++ LF :: b) /\
  forall text, parseOff (normalize_newlines text) = parseOff text.
Proof.
  intros Ha Hc Hb Hlf Hskip. split.
  - unfold parseOff. rewrite (data_lines_skip a c b Ha Hc Hb Hlf Hskip). reflexivity.
  - intros text. unfold parseOff. rewrite data_lines_normalized. reflexivity.
Qed.

Lemma parseOff_skips_witness :
  parseOff (lit "OFF" ++ LF :: lit "  # two counts follow" ++ LF :: lit "0 0 0")
  = parseOff (lit "OFF" ++ LF :: lit "0 0 0").
Proof.
  apply (parseOff_skips (lit "OFF") (lit "  # two counts follow") (lit "0 0 0")).
  - vm_compute. intuition discriminate.
  - vm_compute. intuition discriminate.
  - vm_compute. intuition discriminate.
  - vm_compute. intuition discriminate.
  - reflexivity.
Defined.

End MoreOff.

(** ** Validation and export in the viewer *)

Section MoreStats.

Import Num Stats.

Lemma visit_no_vertices (b : box3) (n : node) :
  has_vertices n = false -> snd (visit (b, Fin 0) n) = Fin 0.
Proof.
  unfold has_vertices, visit. destruct (isMesh n); cbn [negb andb]; [|reflexivity].
  destruct (node_geom n) as [g|]; [|reflexivity].
  destruct (position_count g) as [[|count]|]; [reflexivity|discriminate|reflexivity].
Qed.

Lemma fold_no_vertices (object : object3d) (b : box3) :
  (forall n, In n object -> has_vertices n = false) ->
  snd (fold_left visit object (b, Fin 0)) = Fin 0.
Proof.
  revert b. induction object as [|n object IH]; intros b H; [reflexivity|].
  cbn [fold_left].
  pose proof (visit_no_vertices b n (H n (or_introl eq_refl))) as Hv.
  destruct (visit (b, Fin 0) n) as [b' t']. cbn [snd] in Hv. subst t'.
  apply IH. intros m Hm. apply H. right. exact Hm.
Qed.

(** X18: An object none of whose meshes has a vertex is refused for having no
    triangles, whatever its bounding boxes are. *)
Theorem validateObject_needs_vertices (object : object3d) :
  (forall n, In n object -> has_vertices n = false) ->
  validateObject object = Some NoTriangles.
Proof.
  intros H. pose proof (fold_no_vertices object empty_box H) as Ht.
  unfold validateObject, computeObjectStats.
  destruct (fold_left visit object (empty_box, Fin 0)) as [b t].
  cbn [snd] in Ht. subst t. reflexivity.
Qed.

Lemma validateObject_needs_vertices_witness :
  validateObject empty_mesh = Some NoTriangles.
Proof.
  apply validateObject_needs_vertices.
  intros n [<-|[]]. reflexivity.
Defined.

End MoreStats.

Section MoreExport.

Import Sniff ViewerFiles.

Lemma dotted_not_extension (base ext : jsstring) :
  forallb in_extension (base ++ DOT :: ext) = false.
Proof.
  induction base as [|c base IH]; cbn [app forallb].
  - reflexivity.
  - rewrite IH. apply andb_false_r.
Qed.

Lemma strip_extension_dotted (base ext : jsstring) :
  ext <> [] -> forallb in_extension ext = true ->
  strip_extension (base ++ DOT :: ext) = base.
Proof.
  intros Hne Hext. induction base as [|c base IH]; cbn [app strip_extension].
  - rewrite Hext. destruct ext; [congruence|reflexivity].
  - rewrite dotted_not_extension, andb_false_r, IH. reflexivity.
Qed.

Lemma strip_extension_plain (name : jsstring) :
  ~ In DOT name -> strip_extension name = name.
Proof.
  induction name as [|c name IH]; intros H; [reflexivity|].
  cbn [strip_extension].
  destruct (N.eqb_spec c DOT) as [->|Hc]; [exfalso; apply H; left; reflexivity|].
  cbn [andb]. rewrite IH; [reflexivity|]. intros Hin. apply H. right. exact Hin.
Qed.

Lemma strip_extension_prefix (name : jsstring) :
  exists cut, name = strip_extension name ++ cut /\
              (cut = [] \/ exists ext, cut = DOT :: ext /\ ext <> [] /\
                                       forallb in_extension ext = true).
Proof.
  induction name as [|c name [cut [E Hcut]]]; [exists []; split; [reflexivity|left; reflexivity]|].
  cbn [strip_extension].
  destruct ((c =? DOT) && nonempty name && forallb in_extension name) eqn:Hc.
  - apply andb_true_iff in Hc. destruct Hc as [Hc Hext].
    apply andb_true_iff in Hc. destruct Hc as [Hc Hn]. apply N.eqb_eq in Hc. subst c.
    exists (DOT :: name). split; [reflexivity|]. right. exists name.
    split; [reflexivity|]. split; [destruct name; [discriminate|discriminate]|exact Hext].
  - exists cut. split; [cbn [app]; rewrite <- E; reflexivity|exact Hcut].
Qed.

(** X19: The name of the exported file: the current name without its last
    extension (a dot followed, up to the end, by characters other than dot
    and slash), or [model] when nothing is left, followed by [-export.stl].
    A name without a dot is kept whole. *)
Theorem export_name_spec :
  (forall base ext,
     ext <> [] -> forallb in_extension ext = true ->
     export_name (base ++ DOT :: ext)
     = (if nonempty base then base else lit "model") ++ lit "-export.stl") /\
  (forall name, ~ In DOT name ->
     export_name name = (if nonempty name then name else lit "model") ++ lit "-export.stl") /\
  (forall name, exists base,
     base <> [] /\ export_name name = base ++ lit "-export.stl" /\
     (strip_extension name <> [] -> exists cut, name = base ++ cut)).
Proof.
  split; [|split].
  - intros base ext Hne Hext. unfold export_name. cbv zeta.
    rewrite (strip_extension_dotted base ext Hne Hext). destruct base; reflexivity.
  - intros name H. unfold export_name. cbv zeta.
    rewrite (strip_extension_plain name H). destruct name; reflexivity.
  - intros name. unfold export_name. cbv zeta.
    destruct (strip_extension_prefix name) as [cut [E _]].
    destruct (strip_extension name) as [|c r].
    + exists (lit "model"). split; [intro Hx; vm_compute in Hx; discriminate Hx|].
      split; [reflexivity|]. intros H. congruence.
    + exists (c :: r). split; [discriminate|]. split; [reflexivity|].
      intros _. exists cut. exact E.
Qed.

Lemma export_name_spec_witness :
  export_name (lit "part.v2.stl") = lit "part.v2-export.stl".
Proof.
  destruct export_name_spec as [H _].
  exact (H (lit "part.v2") (lit "stl") ltac:(discriminate) eq_refl).
Defined.

End MoreExport.
(** ** The first viewer and the present one *)

Section MoreFirstViewer.

Import Sniff.

Lemma ci_lower (p c : code) :
  plain_pattern p = true -> ci_eqb p c = (p =? lower c).
Proof.
  unfold plain_pattern, ci_eqb, upper, lower, in_range, DOT.
  rewrite orb_true_iff, andb_true_iff, !N.leb_le, N.eqb_eq. intros Hp.
  destruct (N.leb_spec 97 p), (N.leb_spec p 122), (N.leb_spec 97 c), (N.leb_spec c 122),
    (N.leb_spec 65 c), (N.leb_spec c 90); cbn [andb];
    match goal with
    | |- (?a =? ?b) = (?x =? ?y) =>
        destruct (N.eqb_spec a b), (N.eqb_spec x y); try reflexivity; exfalso; lia
    end.
Qed.

(** On such a pattern, matching under the [i] flag is matching the
    lower-cased input. *)
Lemma prefix_ci_lower (pat s : jsstring) :
  forallb plain_pattern pat = true ->
  option_map (List.map lower) (prefix_ci pat s) = prefix pat (List.map lower s).
Proof.
  revert s. induction pat as [|p pat IH]; intros s H; [reflexivity|].
  cbn [forallb] in H. apply andb_true_iff in H. destruct H as [Hp Hpat].
  destruct s as [|c s]; [reflexivity|].
  cbn [prefix_ci prefix List.map]. rewrite (ci_lower p c Hp).
  destruct (p =? lower c); [apply IH, Hpat|reflexivity].
Qed.

Lemma lower_letter (p c : code) :
  in_range 97 122 p = true -> lower c = p -> ViewerFiles.in_extension c = true.
Proof.
  unfold lower, in_range, ViewerFiles.in_extension, ViewerFiles.SLASH, DOT.
  rewrite andb_true_iff, !N.leb_le. intros Hp.
  destruct (N.leb_spec 65 c), (N.leb_spec c 90); cbn [andb]; intros <-;
    apply andb_true_iff; rewrite !negb_true_iff, !N.eqb_neq; lia.
Qed.

Lemma lower_dot_eq (c : code) : lower c = DOT -> c = DOT.
Proof.
  unfold lower, in_range, DOT.
  destruct (N.leb_spec 65 c), (N.leb_spec c 90); cbn [andb]; lia.
Qed.

(** X20: The first viewer takes a file by its name in lower case, and strips the
    extension for the export by a case-insensitive pattern.  The two tests
    agree: an accepted name is a base followed by [.stl] in some case, its
    export is named after the base, and the present viewer gives the export
    the same name; a name that is not accepted is kept whole. *)
Theorem first_viewer_export (name : jsstring) :
  (FirstViewer.accepts_file name = true ->
   exists base ext,
     name = base ++ DOT :: ext /\ List.map lower ext = lit "stl" /\
     FirstViewer.export_name name
     = (if nonempty base then base else lit "model") ++ lit "-export.stl" /\
     ViewerFiles.export_name name = FirstViewer.export_name name) /\
  (FirstViewer.accepts_file name = false -> FirstViewer.strip_stl name = name).
Proof.
  unfold FirstViewer.accepts_file, FirstViewer.ends_with.
  rewrite <- map_rev.
  rewrite <- (prefix_ci_lower (rev (lit ".stl")) (rev name) eq_refl).
  unfold FirstViewer.export_name, ViewerFiles.export_name, FirstViewer.strip_stl.
  destruct (prefix_ci (rev (lit ".stl")) (rev name)) as [r|] eqn:E; cbn [option_map];
    split; try discriminate; try reflexivity.
  intros _.
  change (rev (lit ".stl")) with [108; 116; 115; DOT] in E.
  destruct (rev name) as [|c1 rn1] eqn:Er; [discriminate E|].
  cbn [prefix_ci] in E. rewrite ci_lower in E by reflexivity.
  destruct (N.eqb_spec 108 (lower c1)) as [H1|]; [|discriminate E].
  destruct rn1 as [|c2 rn2]; [discriminate E|].
  cbn [prefix_ci] in E. rewrite ci_lower in E by reflexivity.
  destruct (N.eqb_spec 116 (lower c2)) as [H2|]; [|discriminate E].
  destruct rn2 as [|c3 rn3]; [discriminate E|].
  cbn [prefix_ci] in E. rewrite ci_lower in E by reflexivity.
  destruct (N.eqb_spec 115 (lower c3)) as [H3|]; [|discriminate E].
  destruct rn3 as [|c4 rn]; [discriminate E|].
  cbn [prefix_ci] in E. rewrite ci_lower in E by reflexivity.
  destruct (N.eqb_spec DOT (lower c4)) as [H4|]; [|discriminate E].
  injection E as <-.
  assert (name = rev rn ++ DOT :: [c3; c2; c1]) as En.
  { rewrite <- (rev_involutive name), Er. cbn [rev]. rewrite <- !app_assoc.
    rewrite (lower_dot_eq c4 (eq_sym H4)). reflexivity. }
  exists (rev rn), [c3; c2; c1].
  split; [exact En|].
  split; [cbn [List.map]; rewrite <- H1, <- H2, <- H3; reflexivity|].
  split; [destruct (rev rn); reflexivity|].
  rewrite En.
  rewrite (strip_extension_dotted (rev rn) [c3; c2; c1]); [reflexivity|discriminate|].
  cbn [forallb].
  rewrite (lower_letter 115 c3 eq_refl (eq_sym H3)),
    (lower_letter 116 c2 eq_refl (eq_sym H2)), (lower_letter 108 c1 eq_refl (eq_sym H1)).
  reflexivity.
Qed.

Lemma first_viewer_export_witness :
  FirstViewer.accepts_file (lit "Part.STL") = true /\
  ViewerFiles.export_name (lit "Part.STL") = FirstViewer.export_name (lit "Part.STL").
Proof.
  split; [reflexivity|].
  destruct (first_viewer_export (lit "Part.STL")) as [H _].
  destruct (H eq_refl) as [base [ext [_ [_ [_ E]]]]]. exact E.
Defined.

End MoreFirstViewer.
